(** * RS-485 master-side transport: link transport, transaction manager and
    connection monitor.

    Shallow embedding of [src/busManager.ts] (class [BusManager]),
    [src/rs485Hanlder.ts] (class [RS485Handler]) and of the heartbeat
    monitor of the daemon entry point, followed by the properties the
    specification states about them.

    Conventions.
    - A JavaScript string is its UTF-8 byte sequence ([string]); this is
      also what [Buffer.from(s, "utf8")] yields, so strings and buffers
      share one representation.
    - A JavaScript number is an integer ([Z]); every number the modelled
      code computes with (ids, millisecond delays, timestamps, pin levels)
      is one.  Numbers print in decimal, which is what JavaScript does
      for integers below 10^21 ([JS.decimal]).
    - A plain object is the list of its own properties in property order,
      keys being unique; a missing property reads as [None] (undefined).
    - An [async] function is run up to the point where it waits for the
      outside world; what the outside world answers (the callback of
      [open], [write], [drain], the expiry of a timer, an inbound line) is
      an explicit input, and so is the clock that [Date.now()] reads.
    - Calls of [console] only write diagnostics and are left out, except
      where building the text they print can throw.
    - A conversion to a string ([String(v)], a template literal) throws
      a [TypeError] on an object that cannot be printed ([JS.toString]);
      an exception goes to the nearest [catch] or ends the turn of the
      event loop it is thrown in. *)

From Stdlib Require Import ZArith List String Ascii Bool Lia DecimalString.
Import ListNotations.

Set Warnings "-register-all".

Local Open Scope Z_scope.
Local Open Scope list_scope.

(* ------------------------------------------------------------------ *)
(** ** JavaScript values and the built-ins the code calls *)

Module JS.

(** Values that [JSON.parse] produces and that [JSON.stringify] prints. *)
Inductive value : Type :=
| JNull
| JBool (b : bool)
| JNum (n : Z)
| JStr (s : string)
| JArr (items : list value)
| JObj (fields : list (string * value)).

Definition object := list (string * value).

(** An [Error] object; only its message is ever read. *)
Record Error : Type := mkError { message : string }.

Definition dquote : ascii := "034"%char.
Definition backslash : ascii := "092"%char.
Definition char (c : ascii) : string := String c EmptyString.

(** Literals that contain double quotes are written with apostrophes in
    their place. *)
Fixpoint fromSingleQuotes (s : string) : string :=
  match s with
  | EmptyString => EmptyString
  | String c r =>
      String (if Ascii.eqb c "039"%char then dquote else c) (fromSingleQuotes r)
  end.

Definition newline : string := char "010"%char.

(** [o[k]]: [None] stands for [undefined]. *)
Fixpoint get (k : string) (o : object) : option value :=
  match o with
  | [] => None
  | (k', v) :: rest => if String.eqb k' k then Some v else get k rest
  end.

(** [{...o, k: v}]: an existing key keeps its place, a new one goes last. *)
Fixpoint spreadSet (k : string) (v : value) (o : object) : object :=
  match o with
  | [] => [(k, v)]
  | (k', v') :: rest =>
      if String.eqb k' k then (k', v) :: rest
      else (k', v') :: spreadSet k v rest
  end.

(** [a ?? b]: [b] when [a] is [null] or [undefined]. *)
Definition nullish (a : option value) : bool :=
  match a with
  | None | Some JNull => true
  | _ => false
  end.

Definition coalesce (a b : option value) : option value :=
  if nullish a then b else a.

Module Import Notations.
Infix "??" := coalesce (at level 45, right associativity).
End Notations.

(** Truthiness, as tested by [!x] and [if (x)]. *)
Definition truthy (v : option value) : bool :=
  match v with
  | None | Some JNull => false
  | Some (JBool b) => b
  | Some (JNum n) => negb (n =? 0)
  | Some (JStr s) => negb (String.eqb s EmptyString)
  | Some (JArr _) | Some (JObj _) => true
  end.

(** [typeof v === "object"]. *)
Definition typeof_object (v : value) : bool :=
  match v with
  | JNull | JArr _ | JObj _ => true
  | _ => false
  end.

(** The integers JavaScript prints in decimal: those below 10^21 in
    absolute value. *)
Definition decimal (n : Z) : bool := Z.abs n <? 10 ^ 21.

(** Decimal rendering of an integer number. *)
Definition numberToString (n : Z) : string :=
  NilZero.string_of_int (Z.to_int n).

Fixpoint join (sep : string) (parts : list string) : string :=
  match parts with
  | [] => EmptyString
  | [p] => p
  | p :: rest => (p ++ sep ++ join sep rest)%string
  end.

(** The [TypeError] of a conversion to a primitive that finds no method
    to call. *)
Definition conversionError : Error :=
  mkError "Cannot convert object to primitive value".

(** [String(v)], which is also what a template literal does with [v];
    [None] when the conversion throws a [TypeError].  A plain object is
    printed by [Object.prototype.toString] unless it has an own property
    [toString]: in data built by [JSON.parse] that property is never a
    function, the inherited [valueOf] returns the object itself, and the
    conversion throws.  An array is printed by [join], which prints
    [null] as the empty string and converts every other element the same
    way. *)
Fixpoint toString (v : value) : option string :=
  match v with
  | JNull => Some "null"%string
  | JBool b => Some (if b then "true" else "false")%string
  | JNum n => Some (numberToString n)
  | JStr s => Some s
  | JArr items =>
      let fix parts (l : list value) : option (list string) :=
        match l with
        | [] => Some []
        | x :: rest =>
            match (match x with
                   | JNull => Some EmptyString
                   | _ => toString x
                   end) with
            | Some p =>
                match parts rest with
                | Some ps => Some (p :: ps)
                | None => None
                end
            | None => None
            end
        end in
      match parts items with
      | Some ps => Some (join "," ps)
      | None => None
      end
  | JObj fields =>
      match get "toString" fields with
      | Some _ => None
      | None => Some "[object Object]"%string
      end
  end.

(** Every number inside a value is one that prints in decimal. *)
Fixpoint decimals (v : value) : bool :=
  match v with
  | JNum n => decimal n
  | JArr items => forallb decimals items
  | JObj fields => forallb (fun kv => decimals (snd kv)) fields
  | _ => true
  end.

(** *** [String.prototype.trim] *)

Definition byte_is (c : ascii) (n : nat) : bool := Nat.eqb (nat_of_ascii c) n.

Definition byte_in (c : ascii) (lo hi : nat) : bool :=
  Nat.leb lo (nat_of_ascii c) && Nat.leb (nat_of_ascii c) hi.

(** TAB, LF, VT, FF, CR and SPACE. *)
Definition ws1 (a : ascii) : bool := byte_in a 9 13 || byte_is a 32.

(** U+00A0, encoded on two bytes. *)
Definition ws2 (a b : ascii) : bool := byte_is a 194 && byte_is b 160.

(** U+1680, U+2000..U+200A, U+2028, U+2029, U+202F, U+205F, U+3000 and
    U+FEFF, encoded on three bytes. *)
Definition ws3 (a b c : ascii) : bool :=
  (byte_is a 225 && byte_is b 154 && byte_is c 128)
  || (byte_is a 226 && byte_is b 128
      && (byte_in c 128 138 || byte_is c 168 || byte_is c 169 || byte_is c 175))
  || (byte_is a 226 && byte_is b 129 && byte_is c 159)
  || (byte_is a 227 && byte_is b 128 && byte_is c 128)
  || (byte_is a 239 && byte_is b 187 && byte_is c 191).

(** Drops leading white space; [w2] and [w3] recognise the multi-byte
    characters in the direction the bytes are read. *)
Fixpoint stripWs (w2 : ascii -> ascii -> bool)
    (w3 : ascii -> ascii -> ascii -> bool) (s : list ascii) : list ascii :=
  match s with
  | [] => []
  | a :: r1 =>
      if ws1 a then stripWs w2 w3 r1
      else
        match r1 with
        | [] => s
        | b :: r2 =>
            if w2 a b then stripWs w2 w3 r2
            else
              match r2 with
              | [] => s
              | c :: r3 => if w3 a b c then stripWs w2 w3 r3 else s
              end
        end
  end.

Definition trimStart (s : list ascii) : list ascii := stripWs ws2 ws3 s.

Definition trimEnd (s : list ascii) : list ascii :=
  rev (stripWs (fun a b => ws2 b a) (fun a b c => ws3 c b a) (rev s)).

Definition trim (s : string) : string :=
  string_of_list_ascii (trimEnd (trimStart (list_ascii_of_string s))).

(** *** [s.replace(/^0+(?=\d)/, '')] *)

Definition is_digit (c : ascii) : bool := byte_in c 48 57.

Fixpoint drop (n : nat) (s : string) : string :=
  match n, s with
  | O, _ => s
  | S n', String _ r => drop n' r
  | S _, EmptyString => EmptyString
  end.

Fixpoint leadingZeros (s : string) : nat :=
  match s with
  | String c r => if byte_is c 48 then S (leadingZeros r) else O
  | EmptyString => O
  end.

(** The look-ahead [(?=\d)] at offset [k]. *)
Definition digitAt (k : nat) (s : string) : bool :=
  match drop k s with
  | String c _ => is_digit c
  | EmptyString => false
  end.

(** [0+] is greedy: the longest run of zeros is tried first and the
    matcher backtracks one zero at a time until the look-ahead holds. *)
Fixpoint matchZeros (k : nat) (s : string) : option nat :=
  match k with
  | O => None
  | S k' => if digitAt k s then Some k else matchZeros k' s
  end.

Definition stripLeadingZeros (s : string) : string :=
  match matchZeros (leadingZeros s) s with
  | Some k => drop k s
  | None => s
  end.

(** A numeric-looking string: decimal digits, at least one. *)
Fixpoint allDigits (s : string) : bool :=
  match s with
  | EmptyString => true
  | String c r => is_digit c && allDigits r
  end.

Definition numeric (s : string) : bool :=
  negb (String.eqb s EmptyString) && allDigits s.

(** *** [String.prototype.padStart] with a one-character filler *)

Fixpoint repeatChar (c : ascii) (n : nat) : string :=
  match n with
  | O => EmptyString
  | S n' => String c (repeatChar c n')
  end.

Definition padStart (width : nat) (c : ascii) (s : string) : string :=
  (repeatChar c (width - String.length s) ++ s)%string.

(** *** [JSON.stringify] *)

Definition hexDigit (n : nat) : ascii :=
  if Nat.ltb n 10 then ascii_of_nat (48 + n) else ascii_of_nat (87 + n).

Definition escapeChar (c : ascii) : string :=
  let n := nat_of_ascii c in
  if Ascii.eqb c dquote then String backslash (char dquote)
  else if Ascii.eqb c backslash then String backslash (char backslash)
  else if Nat.eqb n 8 then String backslash "b"
  else if Nat.eqb n 9 then String backslash "t"
  else if Nat.eqb n 10 then String backslash "n"
  else if Nat.eqb n 12 then String backslash "f"
  else if Nat.eqb n 13 then String backslash "r"
  else if Nat.ltb n 32 then
    String backslash
      (String "u" (String "0" (String "0"
         (String (hexDigit (Nat.div n 16)) (char (hexDigit (Nat.modulo n 16)))))))
  else char c.

Fixpoint escape (s : string) : string :=
  match s with
  | EmptyString => EmptyString
  | String c r => (escapeChar c ++ escape r)%string
  end.

Definition quote (s : string) : string :=
  (char dquote ++ escape s ++ char dquote)%string.

Fixpoint stringify (v : value) : string :=
  match v with
  | JNull => "null"
  | JBool b => if b then "true" else "false"
  | JNum n => numberToString n
  | JStr s => quote s
  | JArr items => ("[" ++ join "," (map stringify items) ++ "]")%string
  | JObj fields =>
      ("{" ++ join ","
                (map (fun kv => (quote (fst kv) ++ ":" ++ stringify (snd kv))%string)
                     fields)
           ++ "}")%string
  end.

(** No byte below 32 (no control character, so no line break). *)
Definition printable (c : ascii) : bool := Nat.leb 32 (nat_of_ascii c).

Fixpoint noControl (s : string) : bool :=
  match s with
  | EmptyString => true
  | String c r => printable c && noControl r
  end.

End JS.

Import JS.Notations.

(* ------------------------------------------------------------------ *)
(** ** A state-and-exception monad for the methods of a class *)

Module Eff.

Inductive result (A : Type) : Type :=
| Returned (a : A)
| Thrown (e : JS.Error).
Arguments Returned {A} a.
Arguments Thrown {A} e.

Definition M (S A : Type) : Type := S -> result A * S.

Definition ret {S A} (a : A) : M S A := fun s => (Returned a, s).

Definition bind {S A B} (m : M S A) (k : A -> M S B) : M S B :=
  fun s =>
    match m s with
    | (Returned a, s') => k a s'
    | (Thrown e, s') => (Thrown e, s')
    end.

Definition throw {S A} (e : JS.Error) : M S A := fun s => (Thrown e, s).

(** [try { body } catch (e) { handler(e) }] *)
Definition tryCatch {S A} (body : M S A) (handler : JS.Error -> M S A) : M S A :=
  fun s =>
    match body s with
    | (Returned a, s') => (Returned a, s')
    | (Thrown e, s') => handler e s'
    end.

(** [try { body } finally { fin }]: [fin] runs on both outcomes; the
    outcome of [body] stands unless [fin] itself throws. *)
Definition tryFinally {S A} (body : M S A) (fin : M S unit) : M S A :=
  fun s =>
    match body s with
    | (r, s') =>
        match fin s' with
        | (Returned _, s'') => (r, s'')
        | (Thrown e, s'') => (Thrown e, s'')
        end
    end.

(** A computation that does not touch the state. *)
Definition lift {S A} (r : result A) : M S A := fun s => (r, s).

Definition modify {S} (f : S -> S) : M S unit := fun s => (Returned tt, f s).
Definition gets {S A} (f : S -> A) : M S A := fun s => (Returned (f s), s).
Definition when {S} (b : bool) (m : M S unit) : M S unit :=
  if b then m else ret tt.

Module Import Notations.
Notation "x <- m ;; k" := (bind m (fun x => k))
  (at level 61, m at next level, right associativity).
Notation "m ;; k" := (bind m (fun _ => k))
  (at level 61, right associativity).
End Notations.

End Eff.

(* ------------------------------------------------------------------ *)
(** ** LinkTransport: class [RS485Handler] *)

Module RS485.

Import Eff Eff.Notations.

Inductive Status : Type := connected | disconnected | fail.

Definition Status_eqb (a b : Status) : bool :=
  match a, b with
  | connected, connected | disconnected, disconnected | fail, fail => true
  | _, _ => false
  end.

Definition statusName (s : Status) : string :=
  match s with
  | connected => "connected"
  | disconnected => "disconnected"
  | fail => "fail"
  end.

(** The options the modelled methods read.  The serial parameters (path,
    baud rate, framing) only reach the [SerialPort] constructor. *)
Record Options : Type := {
  delimiter : option string;
  enablePin : option Z;
  driverEnablePin : option Z;
  receiverEnablePin : option Z;
  receiverEnableActiveLow : bool;
  turnaroundDelayMs : Z;
  autoReconnect : bool;
  reconnectIntervalMs : Z;
  logTraffic : bool
}.

Definition DEFAULT_OPTIONS : Options := {|
  delimiter := Some (JS.char "010"%char);
  enablePin := None;
  driverEnablePin := Some 18;
  receiverEnablePin := Some 23;
  receiverEnableActiveLow := true;
  turnaroundDelayMs := 2;
  autoReconnect := true;
  reconnectIntervalMs := 5000;
  logTraffic := false
|}.

(** What the handler emits to its listeners. *)
Inductive Emitted : Type :=
| OnStatus (s : Status)
| OnError (e : JS.Error)
| OnTx (buffer : string).

(** What the handler does to the outside world, in the order it does it. *)
Inductive Effect : Type :=
| Emit (e : Emitted)
| GpioWrite (pin : Z) (level : Z)
| GpioUnexport (pin : Z)
| PortOpen
| PortWrite (buffer : string)
| PortDrain
| PortClose
| Sleep (ms : Z)
| SetReconnectTimer (ms : Z)
| ClearReconnectTimer.

(** A [Gpio] line object; [level] is the level last handed to
    [writeSync].  In [driveTransceiver] and [releaseGpio] a [writeSync]
    that throws is caught and logged on the spot, so what these methods
    do next never depends on it.  Nothing catches what the first write
    to a line that [ensureControlPins] has just configured throws: see
    [firstWrite]. *)
Record Gpio : Type := { pin : Z; level : Z }.

Definition writeSync (l : Z) (g : Gpio) : Gpio := {| pin := pin g; level := l |}.

Record Port : Type := { isOpen : bool }.

Record Handler : Type := {
  port : option Port;
  legacyEnableGpio : option Gpio;
  driverEnableGpio : option Gpio;
  receiverEnableGpio : option Gpio;
  reconnectTimer : bool;
  destroyed : bool;
  status : Status;
  options : Options;
  effects : list Effect
}.

(** What the outside world answers during one call: the error, if any,
    passed to the callbacks of [open], [write], [drain] and [close];
    whether the process runs on Linux, on which pins [new Gpio]
    succeeds, and what, if anything, [writeSync] throws on the first
    write to a pin. *)
Record World : Type := {
  openErr : option JS.Error;
  writeErr : option JS.Error;
  drainErr : option JS.Error;
  closeErr : option JS.Error;
  platformLinux : bool;
  gpioAvailable : Z -> bool;
  writeSyncErr : Z -> option JS.Error
}.

Definition new (o : Options) : Handler := {|
  port := None;
  legacyEnableGpio := None;
  driverEnableGpio := None;
  receiverEnableGpio := None;
  reconnectTimer := false;
  destroyed := false;
  status := disconnected;
  options := o;
  effects := []
|}.

Definition set_port (p : option Port) (h : Handler) : Handler :=
  {| port := p; legacyEnableGpio := legacyEnableGpio h;
     driverEnableGpio := driverEnableGpio h;
     receiverEnableGpio := receiverEnableGpio h;
     reconnectTimer := reconnectTimer h; destroyed := destroyed h;
     status := status h; options := options h; effects := effects h |}.

Definition set_legacy (g : option Gpio) (h : Handler) : Handler :=
  {| port := port h; legacyEnableGpio := g;
     driverEnableGpio := driverEnableGpio h;
     receiverEnableGpio := receiverEnableGpio h;
     reconnectTimer := reconnectTimer h; destroyed := destroyed h;
     status := status h; options := options h; effects := effects h |}.

Definition set_driver (g : option Gpio) (h : Handler) : Handler :=
  {| port := port h; legacyEnableGpio := legacyEnableGpio h;
     driverEnableGpio := g;
     receiverEnableGpio := receiverEnableGpio h;
     reconnectTimer := reconnectTimer h; destroyed := destroyed h;
     status := status h; options := options h; effects := effects h |}.

Definition set_receiver (g : option Gpio) (h : Handler) : Handler :=
  {| port := port h; legacyEnableGpio := legacyEnableGpio h;
     driverEnableGpio := driverEnableGpio h;
     receiverEnableGpio := g;
     reconnectTimer := reconnectTimer h; destroyed := destroyed h;
     status := status h; options := options h; effects := effects h |}.

Definition set_reconnectTimer (b : bool) (h : Handler) : Handler :=
  {| port := port h; legacyEnableGpio := legacyEnableGpio h;
     driverEnableGpio := driverEnableGpio h;
     receiverEnableGpio := receiverEnableGpio h;
     reconnectTimer := b; destroyed := destroyed h;
     status := status h; options := options h; effects := effects h |}.

Definition set_destroyed (b : bool) (h : Handler) : Handler :=
  {| port := port h; legacyEnableGpio := legacyEnableGpio h;
     driverEnableGpio := driverEnableGpio h;
     receiverEnableGpio := receiverEnableGpio h;
     reconnectTimer := reconnectTimer h; destroyed := b;
     status := status h; options := options h; effects := effects h |}.

Definition set_status (s : Status) (h : Handler) : Handler :=
  {| port := port h; legacyEnableGpio := legacyEnableGpio h;
     driverEnableGpio := driverEnableGpio h;
     receiverEnableGpio := receiverEnableGpio h;
     reconnectTimer := reconnectTimer h; destroyed := destroyed h;
     status := s; options := options h; effects := effects h |}.

Definition effect (e : Effect) : M Handler unit :=
  modify (fun h =>
    {| port := port h; legacyEnableGpio := legacyEnableGpio h;
       driverEnableGpio := driverEnableGpio h;
       receiverEnableGpio := receiverEnableGpio h;
       reconnectTimer := reconnectTimer h; destroyed := destroyed h;
       status := status h; options := options h;
       effects := effects h ++ [e] |}).

(** [this.emit(...)].  The daemon registers a listener for every event
    before it calls [init], for [error] too, so emitting returns
    normally; the listeners never call back into the handler. *)
Definition emit (e : Emitted) : M Handler unit := effect (Emit e).

(** [this.port && this.port.isOpen] *)
Definition portIsOpen (h : Handler) : bool :=
  match port h with
  | Some p => isOpen p
  | None => false
  end.

Definition isSome {A} (o : option A) : bool :=
  match o with Some _ => true | None => false end.

Definition setStatus (s : Status) (error : option JS.Error) : M Handler unit :=
  cur <- gets status ;;
  if Status_eqb cur s && negb (isSome error) then ret tt
  else
    modify (set_status s) ;;
    emit (OnStatus s) ;;
    match error with
    | Some e => emit (OnError e)
    | None => ret tt
    end.

Definition scheduleReconnect : M Handler unit :=
  h <- gets id ;;
  if destroyed h || negb (autoReconnect (options h)) then ret tt
  else if reconnectTimer h then ret tt
  else
    modify (set_reconnectTimer true) ;;
    effect (SetReconnectTimer (reconnectIntervalMs (options h))).

Definition clearReconnectTimer : M Handler unit :=
  armed <- gets reconnectTimer ;;
  if negb armed then ret tt
  else effect ClearReconnectTimer ;; modify (set_reconnectTimer false).

(** The listeners [attachSerialListeners] registers on the port run as
    entry points of their own ([handlePortError], [onPortClose]);
    registering them changes nothing else. *)
Definition attachSerialListeners : M Handler unit := ret tt.

Definition openPort (w : World) : M Handler unit :=
  opened <- gets portIsOpen ;;
  if opened then ret tt
  else
    modify (set_port (Some {| isOpen := false |})) ;;
    effect PortOpen ;;
    match openErr w with
    | Some err =>
        setStatus fail (Some err) ;;
        scheduleReconnect ;;
        throw err
    | None =>
        modify (set_port (Some {| isOpen := true |})) ;;
        attachSerialListeners ;;
        setStatus connected None
    end.

Definition ensurePortReady (w : World) : M Handler unit :=
  opened <- gets portIsOpen ;;
  if opened then ret tt else openPort w.

(** [toggle] on each of the three line fields. *)
Definition toggleLegacy (l : Z) : M Handler unit :=
  g <- gets legacyEnableGpio ;;
  match g with
  | None => ret tt
  | Some g => modify (set_legacy (Some (writeSync l g))) ;; effect (GpioWrite (pin g) l)
  end.

Definition toggleDriver (l : Z) : M Handler unit :=
  g <- gets driverEnableGpio ;;
  match g with
  | None => ret tt
  | Some g => modify (set_driver (Some (writeSync l g))) ;; effect (GpioWrite (pin g) l)
  end.

Definition toggleReceiver (l : Z) : M Handler unit :=
  g <- gets receiverEnableGpio ;;
  match g with
  | None => ret tt
  | Some g => modify (set_receiver (Some (writeSync l g))) ;; effect (GpioWrite (pin g) l)
  end.

Definition receiverActiveLevel (o : Options) : Z :=
  if receiverEnableActiveLow o then 0 else 1.

Definition driveTransceiver (transmit : bool) : M Handler unit :=
  h <- gets id ;;
  (if isSome (driverEnableGpio h) then toggleDriver (if transmit then 1 else 0)
   else if isSome (legacyEnableGpio h) then toggleLegacy (if transmit then 1 else 0)
   else ret tt) ;;
  if isSome (receiverEnableGpio h) then
    let activeLevel := receiverActiveLevel (options h) in
    let inactiveLevel := if activeLevel =? 1 then 0 else 1 in
    toggleReceiver (if transmit then inactiveLevel else activeLevel)
  else ret tt.

(** The argument of [sendRaw]: [Buffer | string]. *)
Inductive Payload : Type :=
| PString (s : string)
| PBuffer (bytes : string).

(** [!payload || (Buffer.isBuffer(payload) && payload.length === 0)]:
    the empty string is the one falsy string, a buffer is always truthy. *)
Definition emptyPayload (p : Payload) : bool :=
  match p with
  | PString s => String.eqb s EmptyString
  | PBuffer b => Nat.eqb (String.length b) 0
  end.

Definition payloadBytes (p : Payload) : string :=
  match p with
  | PString s => s
  | PBuffer b => b
  end.

(** [port.write(buffer, callback)] and [port.drain(callback)] as
    [sendRaw] sees them: the call and what its callback is handed.  What
    the port raises on its own account when a write fails (its [error]
    and [close] events) reaches the handler through the listeners,
    [handlePortError] and [onPortClose], which run as event-loop turns of
    their own and can fall between the steps of a [sendRaw] that is
    waiting. *)
Definition portWrite (w : World) (buffer : string) : M Handler unit :=
  effect (PortWrite buffer) ;;
  match writeErr w with Some err => throw err | None => ret tt end.

Definition portDrain (w : World) : M Handler unit :=
  effect PortDrain ;;
  match drainErr w with Some err => throw err | None => ret tt end.

Definition sleep (ms : Z) : M Handler unit := effect (Sleep ms).

Definition sendRaw (w : World) (payload : Payload) : M Handler unit :=
  if emptyPayload payload then ret tt
  else
    ensurePortReady w ;;
    let buffer := payloadBytes payload in
    driveTransceiver true ;;
    tryFinally
      (portWrite w buffer ;;
       portDrain w ;;
       emit (OnTx buffer))
      (driveTransceiver false ;;
       delay <- gets (fun h => turnaroundDelayMs (options h)) ;;
       if delay >? 0 then sleep delay else ret tt).

Definition delimiterBuffer (o : Options) : string :=
  match delimiter o with
  | Some d => d
  | None => JS.char "010"%char
  end.

Definition sendCommand (w : World) (command : JS.value) : M Handler unit :=
  let serialized := JS.stringify command in
  d <- gets (fun h => delimiterBuffer (options h)) ;;
  sendRaw w (PBuffer (serialized ++ d)%string).

(** [new Gpio(pin, "out")], or [undefined] when that throws. *)
Definition configurePin (w : World) (p : Z) : option Gpio :=
  if gpioAvailable w p then Some {| pin := p; level := 0 |} else None.

(** [gpio?.writeSync(level)] on the line [configurePin] has just
    returned, with [write] the write to the field it was stored in:
    nothing happens when there is no line, and what [writeSync] throws
    is not caught here. *)
Definition firstWrite (w : World) (g : option Gpio) (write : M Handler unit)
    : M Handler unit :=
  match g with
  | None => ret tt
  | Some g =>
      write ;;
      match writeSyncErr w (pin g) with
      | Some err => throw err
      | None => ret tt
      end
  end.

Definition ensureControlPins (w : World) : M Handler unit :=
  if negb (platformLinux w) then ret tt
  else
    h <- gets id ;;
    let legacy (p : Z) : M Handler unit :=
      if isSome (legacyEnableGpio h) then ret tt
      else
        modify (set_legacy (configurePin w p)) ;;
        firstWrite w (configurePin w p) (toggleLegacy 0) in
    let driver (d : Z) : M Handler unit :=
      if isSome (driverEnableGpio h) then ret tt
      else
        modify (set_driver (configurePin w d)) ;;
        firstWrite w (configurePin w d) (toggleDriver 0) in
    let receiver (r : Z) : M Handler unit :=
      if isSome (receiverEnableGpio h) then ret tt
      else
        modify (set_receiver (configurePin w r)) ;;
        firstWrite w (configurePin w r)
          (toggleReceiver (receiverActiveLevel (options h))) in
    match enablePin (options h) with
    | Some p => legacy p
    | None =>
        let driverPin := driverEnablePin (options h) in
        let receiverPin := receiverEnablePin (options h) in
        match driverPin, receiverPin with
        | Some d, Some r => if d =? r then legacy d else driver d ;; receiver r
        | Some d, None => driver d
        | None, Some r => receiver r
        | None, None => ret tt
        end
    end.

Definition init (w : World) : M Handler unit :=
  dead <- gets destroyed ;;
  if dead then throw (JS.mkError "Cannot initialize a destroyed RS485 handler")
  else ensureControlPins w ;; openPort w.

Definition closePort (w : World) : M Handler unit :=
  p <- gets port ;;
  match p with
  | None => ret tt
  | Some p =>
      if negb (isOpen p) then modify (set_port None)
      else
        effect PortClose ;;
        match closeErr w with
        | Some err => emit (OnError err)
        | None => ret tt
        end ;;
        modify (set_port None) ;;
        setStatus disconnected None
  end.

Definition releaseGpio (g : option Gpio) : M Handler unit :=
  match g with
  | None => ret tt
  | Some g => effect (GpioWrite (pin g) 0) ;; effect (GpioUnexport (pin g))
  end.

Definition destroy (w : World) : M Handler unit :=
  modify (set_destroyed true) ;;
  clearReconnectTimer ;;
  closePort w ;;
  (g <- gets legacyEnableGpio ;; releaseGpio g) ;;
  modify (set_legacy None) ;;
  (g <- gets driverEnableGpio ;; releaseGpio g) ;;
  modify (set_driver None) ;;
  (g <- gets receiverEnableGpio ;; releaseGpio g) ;;
  modify (set_receiver None).

(** The listener of the port's [error] event. *)
Definition handlePortError (error : JS.Error) : M Handler unit :=
  emit (OnError error) ;;
  setStatus fail None ;;
  scheduleReconnect.

(** The listener of the port's [close] event. *)
Definition onPortClose : M Handler unit :=
  setStatus disconnected None ;;
  scheduleReconnect.

(** The callback [scheduleReconnect] hands to [setTimeout]. *)
Definition reconnectTick (w : World) : M Handler unit :=
  modify (set_reconnectTimer false) ;;
  tryCatch (openPort w) (fun err => emit (OnError err)).

(** The buffers handed to [port.write], in call order. *)
Fixpoint writes (es : list Effect) : list string :=
  match es with
  | [] => []
  | PortWrite b :: rest => b :: writes rest
  | _ :: rest => writes rest
  end.

(** The direction lines. *)
Definition lines (h : Handler) : option Gpio * option Gpio * option Gpio :=
  (legacyEnableGpio h, driverEnableGpio h, receiverEnableGpio h).

Definition levelIs (l : Z) (g : option Gpio) : Prop :=
  match g with
  | Some g => level g = l
  | None => True
  end.

(** Receive direction: the line that enables the driver (the DE line, or
    the single legacy line when there is no DE line) is low and the
    receiver-enable line, when there is one, is at its active level. *)
Definition inReceiveState (h : Handler) : Prop :=
  match driverEnableGpio h with
  | Some g => level g = 0
  | None => levelIs 0 (legacyEnableGpio h)
  end
  /\ levelIs (receiverActiveLevel (options h)) (receiverEnableGpio h).

(** The levels [driveTransceiver(transmit)] puts on the driver-enable
    and on the receiver-enable line. *)
Definition deLevel (transmit : bool) : Z := if transmit then 1 else 0.

Definition reLevel (o : Options) (transmit : bool) : Z :=
  let activeLevel := receiverActiveLevel o in
  if transmit then (if activeLevel =? 1 then 0 else 1) else activeLevel.

(** What [driveTransceiver(false)] writes to the lines of [h]. *)
Definition receiveWrites (h : Handler) : list Effect :=
  match driverEnableGpio h, legacyEnableGpio h with
  | Some g, _ => [GpioWrite (pin g) 0]
  | None, Some g => [GpioWrite (pin g) 0]
  | None, None => []
  end
  ++ match receiverEnableGpio h with
     | Some g => [GpioWrite (pin g) (receiverActiveLevel (options h))]
     | None => []
     end.

(** The pause [sendRaw] observes before it returns. *)
Definition turnaround (h : Handler) : list Effect :=
  if turnaroundDelayMs (options h) >? 0
  then [Sleep (turnaroundDelayMs (options h))] else [].

(** The port is open, or the attempt to open it succeeds. *)
Definition portReady (w : World) (h : Handler) : Prop :=
  portIsOpen h = true \/ openErr w = None.

(** The outcome of [write] followed by [drain]. *)
Definition writeOutcome (w : World) : result unit :=
  match writeErr w, drainErr w with
  | Some e, _ => Thrown e
  | None, Some e => Thrown e
  | None, None => Returned tt
  end.

(** The answers of a world in which every operation succeeds. *)
Definition calm : World := {|
  openErr := None; writeErr := None; drainErr := None; closeErr := None;
  platformLinux := true; gpioAvailable := fun _ => true;
  writeSyncErr := fun _ => None
|}.

(** The answers of a world in which the port cannot be opened. *)
Definition unplugged (err : JS.Error) : World := {|
  openErr := Some err; writeErr := None; drainErr := None; closeErr := None;
  platformLinux := true; gpioAvailable := fun _ => true;
  writeSyncErr := fun _ => None
|}.

(** What [driveTransceiver(true)] writes to the lines of [h]. *)
Definition transmitWrites (h : Handler) : list Effect :=
  match driverEnableGpio h, legacyEnableGpio h with
  | Some g, _ => [GpioWrite (pin g) 1]
  | None, Some g => [GpioWrite (pin g) 1]
  | None, None => []
  end
  ++ match receiverEnableGpio h with
     | Some g => [GpioWrite (pin g) (reLevel (options h) true)]
     | None => []
     end.

(** What the [try] block of [sendRaw] does with the port. *)
Definition wireTraffic (w : World) (buffer : string) : list Effect :=
  PortWrite buffer
  :: match writeErr w, drainErr w with
     | Some _, _ => []
     | None, Some _ => [PortDrain]
     | None, None => [PortDrain; Emit (OnTx buffer)]
     end.

(** The port closes under the handler: the [SerialPort] object reports
    [isOpen === false] from then on and the listener of its [close]
    event runs. *)
Definition portClosed : M Handler unit :=
  modify (fun h =>
            match port h with
            | Some _ => set_port (Some {| isOpen := false |}) h
            | None => h
            end) ;;
  onPortClose.

(** The reconnect timer expires [n] times in a row in a world [w]; the
    callback runs only when the timer is armed. *)
Fixpoint retry (w : World) (n : nat) (h : Handler) : Handler :=
  match n with
  | O => h
  | S n' =>
      retry w n' (if reconnectTimer h then snd (reconnectTick w h) else h)
  end.

Fixpoint reconnectsScheduled (es : list Effect) : nat :=
  match es with
  | [] => O
  | SetReconnectTimer _ :: rest => S (reconnectsScheduled rest)
  | _ :: rest => reconnectsScheduled rest
  end.

Fixpoint gpioWrites (es : list Effect) : nat :=
  match es with
  | [] => O
  | GpioWrite _ _ :: rest => S (gpioWrites rest)
  | _ :: rest => gpioWrites rest
  end.

(** What a user of the handler, the port and the timer can make it do. *)
Inductive Op : Type :=
| OpInit (w : World)
| OpSendRaw (w : World) (payload : Payload)
| OpSendCommand (w : World) (command : JS.value)
| OpPortError (error : JS.Error)
| OpPortClosed
| OpReconnectTick (w : World)
| OpDestroy (w : World).

Definition runOp (o : Op) : M Handler unit :=
  match o with
  | OpInit w => init w
  | OpSendRaw w payload => sendRaw w payload
  | OpSendCommand w command => sendCommand w command
  | OpPortError error => handlePortError error
  | OpPortClosed => portClosed
  | OpReconnectTick w =>
      armed <- gets reconnectTimer ;;
      if armed then reconnectTick w else ret tt
  | OpDestroy w => destroy w
  end.

(** A rejected promise or a thrown error ends one operation, not the
    sequence: the state it left is where the next one starts. *)
Definition runOps (ops : list Op) (h : Handler) : Handler :=
  fold_left (fun h o => snd (runOp o h)) ops h.

(** The error, if any, that stops [ensureControlPins] on a handler
    without lines: what [writeSync] throws on the first line, in the
    order they are configured, whose first write fails. *)
Definition pinFailure (w : World) (o : Options) : option JS.Error :=
  let failure (p : Z) := if gpioAvailable w p then writeSyncErr w p else None in
  if negb (platformLinux w) then None
  else
    match enablePin o with
    | Some p => failure p
    | None =>
        match driverEnablePin o, receiverEnablePin o with
        | Some d, Some r =>
            if d =? r then failure d
            else match failure d with
                 | Some err => Some err
                 | None => failure r
                 end
        | Some d, None => failure d
        | None, Some r => failure r
        | None, None => None
        end
    end.

(** Only one of the two wirings is ever set up. *)
Definition oneWiring (h : Handler) : Prop :=
  legacyEnableGpio h = None
  \/ (driverEnableGpio h = None /\ receiverEnableGpio h = None).

(** Torn down: destroyed, no reconnect timer, no direction line. *)
Definition released (h : Handler) : Prop :=
  destroyed h = true /\ reconnectTimer h = false
  /\ lines h = (None, None, None).

End RS485.

(* ------------------------------------------------------------------ *)
(** ** TransactionManager: class [BusManager] *)

Module Bus.

Import Eff Eff.Notations.

(** [resolve] and [reject] of a request are the two ends of the promise
    [request] returns; the promise is named by a number, [promise].
    [timer] is the handle [setTimeout] returned, once there is one. *)
Record PendingRequest : Type := {
  id : JS.value;
  payload : JS.object;
  timeoutMs : Z;
  promise : nat;
  timer : option nat
}.

Inductive Settlement : Type :=
| Resolved (result : option JS.value)
| Rejected (reason : JS.Error).

(** The fields of the class, then the part of the event loop the class
    talks to: the promises it created and how they were settled, the
    calls of [transport.sendCommand] it made ([sent], in call order) and
    those among them that have not completed yet ([sending]), and the
    timeouts that are armed. *)
Record State : Type := {
  initialized : bool;
  queue : list PendingRequest;
  current : option PendingRequest;
  nextIdValue : Z;
  promises : nat;
  settled : list (nat * Settlement);
  sent : list PendingRequest;
  sending : list PendingRequest;
  timers : list (nat * Z);
  timerCount : nat
}.

Definition new : State := {|
  initialized := false;
  queue := [];
  current := None;
  nextIdValue := 0;
  promises := 0;
  settled := [];
  sent := [];
  sending := [];
  timers := [];
  timerCount := 0
|}.

Definition init (st : State) : State :=
  {| initialized := true; queue := queue st; current := current st;
     nextIdValue := nextIdValue st; promises := promises st;
     settled := settled st; sent := sent st; sending := sending st;
     timers := timers st; timerCount := timerCount st |}.

Definition nextRequestId (st : State) : string * State :=
  let id := Z.rem (nextIdValue st) 1000 in
  (JS.padStart 3 "0"%char (JS.numberToString id),
   {| initialized := initialized st; queue := queue st; current := current st;
      nextIdValue := Z.rem (nextIdValue st + 1) 1000;
      promises := promises st; settled := settled st; sent := sent st;
      sending := sending st; timers := timers st;
      timerCount := timerCount st |}).

(** Up to the [await]: the head of the queue becomes current and
    [transport.sendCommand] is called with its payload. *)
Definition processQueue (st : State) : State :=
  match current st with
  | Some _ => st
  | None =>
      match queue st with
      | [] => st
      | next :: rest =>
          {| initialized := initialized st; queue := rest;
             current := Some next;
             nextIdValue := nextIdValue st; promises := promises st;
             settled := settled st; sent := sent st ++ [next];
             sending := sending st ++ [next]; timers := timers st;
             timerCount := timerCount st |}
      end
  end.

Definition cancelTimer (t : option nat) (ts : list (nat * Z)) : list (nat * Z) :=
  match t with
  | None => ts
  | Some t => filter (fun e => negb (Nat.eqb (fst e) t)) ts
  end.

Definition resolveCurrent (error : option JS.Error) (result : option JS.value)
    (st : State) : State :=
  match current st with
  | None => st
  | Some cur =>
      processQueue
        {| initialized := initialized st; queue := queue st;
           current := None;
           nextIdValue := nextIdValue st; promises := promises st;
           settled :=
             settled st ++
               [(promise cur,
                 match error with
                 | Some e => Rejected e
                 | None => Resolved result
                 end)];
           sent := sent st; sending := sending st;
           timers := cancelTimer (timer cur) (timers st);
           timerCount := timerCount st |}
  end.

(** [null] is [None]; [String(value)] can throw. *)
Definition normalizeId (v : option JS.value) : result (option string) :=
  match v with
  | None | Some JS.JNull => Returned None
  | Some x =>
      match JS.toString x with
      | None => Thrown JS.conversionError
      | Some s =>
          let str := JS.trim s in
          if String.eqb str EmptyString then Returned None
          else Returned (Some (JS.stripLeadingZeros str))
      end
  end.

(** [msg.k] for a message that passed the [typeof] test. *)
Definition prop (k : string) (message : JS.value) : option JS.value :=
  match message with
  | JS.JObj o => JS.get k o
  | _ => None
  end.

Definition option_string_eqb (a b : option string) : bool :=
  match a, b with
  | Some x, Some y => String.eqb x y
  | None, None => true
  | _, _ => false
  end.

(** The listener of the transport's [message] event.  Both calls of
    [normalizeId] can throw; the manager is then as it was. *)
Definition handleMessage (message : JS.value) : M State unit :=
  c <- gets current ;;
  match c with
  | None => ret tt
  | Some cur =>
      if negb (JS.truthy (Some message)) || negb (JS.typeof_object message)
      then ret tt
      else
        replyTo <- lift (normalizeId
                           (prop "replyTo" message ?? prop "id" message
                            ?? prop "reply_to" message
                            ?? prop "responseTo" message)) ;;
        match replyTo with
        | None => ret tt
        | Some r =>
            expected <- lift (normalizeId (Some (id cur))) ;;
            if negb (option_string_eqb (Some r) expected) then ret tt
            else modify (resolveCurrent None (Some message))
        end
  end.

(** The [Error] that [handleTimeout] builds; the template literal
    converts the id like [String] does. *)
Definition timeoutError (cur : PendingRequest) : result JS.Error :=
  match JS.toString (id cur) with
  | None => Thrown JS.conversionError
  | Some name =>
      Returned
        (JS.mkError
           ("RS485 request " ++ name ++ " timed out after "
              ++ JS.numberToString (timeoutMs cur) ++ "ms")%string)
  end.

(** The callback of the timeout of a request. *)
Definition handleTimeout : M State unit :=
  c <- gets current ;;
  match c with
  | None => ret tt
  | Some cur =>
      error <- lift (timeoutError cur) ;;
      modify (resolveCurrent (Some error) None)
  end.

(** [payload.id ?? this.nextRequestId()] *)
Definition packetIdOf (payload : JS.object) (st : State) : JS.value * State :=
  match JS.get "id" payload with
  | Some v =>
      if JS.nullish (Some v) then
        let '(fresh, st') := nextRequestId st in (JS.JStr fresh, st')
      else (v, st)
  | None => let '(fresh, st') := nextRequestId st in (JS.JStr fresh, st')
  end.

(** [request(payload, timeoutMs = 500)]; the promise it returns is the
    second component. *)
Definition request (payload : JS.object) (timeout : option Z) (st : State)
    : State * nat :=
  let '(packetId, st1) := packetIdOf payload st in
  let packet := JS.spreadSet "id" packetId payload in
  let p := promises st1 in
  let entry :=
    {| id := packetId; payload := packet;
       timeoutMs := match timeout with Some t => t | None => 500 end;
       promise := p; timer := None |} in
  (processQueue
     {| initialized := initialized st1; queue := queue st1 ++ [entry];
        current := current st1; nextIdValue := nextIdValue st1;
        promises := S p; settled := settled st1; sent := sent st1;
        sending := sending st1; timers := timers st1;
        timerCount := timerCount st1 |},
   p).

(** The continuation of [processQueue] after the [await], for the request
    [next] it captured.  On success the timeout is armed and stored in
    [next], which is the current request if that has not changed in the
    meantime; on failure [resolveCurrent] is called. *)
Definition setTimer (p : nat) (t : nat) (r : option PendingRequest)
    : option PendingRequest :=
  match r with
  | Some cur =>
      if Nat.eqb (promise cur) p then
        Some {| id := id cur; payload := payload cur;
                timeoutMs := timeoutMs cur; promise := promise cur;
                timer := Some t |}
      else r
  | None => None
  end.

Definition sendSettled (next : PendingRequest) (err : option JS.Error)
    (st : State) : State :=
  let st1 :=
    {| initialized := initialized st; queue := queue st;
       current := current st; nextIdValue := nextIdValue st;
       promises := promises st; settled := settled st; sent := sent st;
       sending :=
         filter (fun r => negb (Nat.eqb (promise r) (promise next))) (sending st);
       timers := timers st; timerCount := timerCount st |} in
  match err with
  | None =>
      let t := timerCount st1 in
      {| initialized := initialized st1; queue := queue st1;
         current := setTimer (promise next) t (current st1);
         nextIdValue := nextIdValue st1; promises := promises st1;
         settled := settled st1; sent := sent st1; sending := sending st1;
         timers := timers st1 ++ [(t, timeoutMs next)];
         timerCount := S t |}
  | Some e => resolveCurrent (Some e) None st1
  end.

(** What can happen to a manager, one event-loop turn at a time.  An
    exception ends the turn it is thrown in and leaves the manager as the
    callback left it: one thrown by [handleMessage] is caught where the
    transport emits the message ([handleIncoming] emits inside [try]),
    one thrown by [handleTimeout] leaves the callback of the timer. *)
Inductive Event : Type :=
| Init
| Request (payload : JS.object) (timeout : option Z)
| Message (message : JS.value)
| SendDone (p : nat) (err : option JS.Error)
| Timeout (t : nat).

Definition fireTimer (t : nat) (st : State) : State :=
  {| initialized := initialized st; queue := queue st;
     current := current st; nextIdValue := nextIdValue st;
     promises := promises st; settled := settled st; sent := sent st;
     sending := sending st;
     timers := cancelTimer (Some t) (timers st);
     timerCount := timerCount st |}.

Definition step (st : State) (e : Event) : State :=
  match e with
  | Init => init st
  | Request payload timeout => fst (request payload timeout st)
  | Message m => if initialized st then snd (handleMessage m st) else st
  | SendDone p err =>
      match find (fun r => Nat.eqb (promise r) p) (sending st) with
      | Some next => sendSettled next err st
      | None => st
      end
  | Timeout t =>
      if existsb (fun e => Nat.eqb (fst e) t) (timers st)
      then snd (handleTimeout (fireTimer t st))
      else st
  end.

Definition run (st : State) (evs : list Event) : State := fold_left step evs st.

(** The correlation id as the specification words it: the first of the
    alias fields that is present, i.e. carries a value other than
    [null]. *)
Definition aliases : list string := ["replyTo"; "id"; "reply_to"; "responseTo"]%string.

Fixpoint firstPresent (keys : list string) (message : JS.value) : option JS.value :=
  match keys with
  | [] => None
  | k :: rest =>
      match prop k message with
      | Some v => if JS.nullish (Some v) then firstPresent rest message else Some v
      | None => firstPresent rest message
      end
  end.

Definition correlationId (message : JS.value) : result (option string) :=
  normalizeId (firstPresent aliases message).

(** A matching reply: its correlation id and the id of the request can
    both be normalized and are the same once they are. *)
Definition isReplyTo (cur : PendingRequest) (message : JS.value) : bool :=
  match correlationId message, normalizeId (Some (id cur)) with
  | Returned (Some r), Returned expected => option_string_eqb (Some r) expected
  | _, _ => false
  end.

(** What may happen while [cur] waits for its reply without deciding
    its fate: further requests, and messages that are no reply to it. *)
Definition quiet (cur : PendingRequest) (e : Event) : bool :=
  match e with
  | Init => true
  | Request _ _ => true
  | Message m => negb (isReplyTo cur m)
  | SendDone _ _ => false
  | Timeout _ => false
  end.

(** A reply that comes too early: it answers the current request while
    a transmission has not completed yet. *)
Definition earlyReply (st : State) (e : Event) : bool :=
  match e, current st, sending st with
  | Message m, Some cur, _ :: _ => isReplyTo cur m
  | _, _, _ => false
  end.

Fixpoint noEarlyReply (st : State) (evs : list Event) : Prop :=
  match evs with
  | [] => True
  | e :: rest => earlyReply st e = false /\ noEarlyReply (step st e) rest
  end.

(** One transmission at a time: nothing is pending or armed unless a
    request is current; the current request is either being transmitted,
    with no timeout armed, or transmitted, with its own timeout armed or
    expired (a request stays current when the callback of its timeout
    throws); queued requests have no timeout yet. *)
Definition orderly (st : State) : Prop :=
  Forall (fun r => timer r = None) (queue st)
  /\ match current st with
     | None => sending st = [] /\ timers st = [] /\ queue st = []
     | Some cur =>
         (sending st = [cur] /\ timer cur = None /\ timers st = [])
         \/ (sending st = []
             /\ exists t, timer cur = Some t
                          /\ (timers st = [(t, timeoutMs cur)]
                              \/ timers st = []))
     end.

(** The ids the specification promises: three decimal digits, counting
    up from zero and starting over after 999. *)
Definition digitChar (d : nat) : ascii := ascii_of_nat (48 + d).

Definition threeDigits (n : nat) : string :=
  String (digitChar (Nat.modulo (Nat.div n 100) 10))
    (String (digitChar (Nat.modulo (Nat.div n 10) 10))
       (String (digitChar (Nat.modulo n 10)) EmptyString)).

Definition rotatingId (k : nat) : JS.value :=
  JS.JStr (threeDigits (Nat.modulo k 1000)).

Definition isRequest (e : Event) : bool :=
  match e with Request _ _ => true | _ => false end.

Definition lacksId (e : Event) : bool :=
  match e with
  | Request payload _ => JS.nullish (JS.get "id" payload)
  | _ => true
  end.

Definition requestCount (evs : list Event) : nat :=
  List.length (filter isRequest evs).

(** The requests the manager has accepted, oldest first: those whose
    payload went to the transport, then those still queued. *)
Definition accepted (st : State) : list PendingRequest := sent st ++ queue st.

(** Where every promise is: settled, current or queued. *)
Definition whereabouts (st : State) : list nat :=
  map fst (settled st)
  ++ match current st with Some cur => [promise cur] | None => [] end
  ++ map promise (queue st).

(** The promise of the request handed to the transport last. *)
Definition lastSent (st : State) : option nat :=
  match rev (sent st) with
  | [] => None
  | r :: _ => Some (promise r)
  end.

(** Nothing waits while nothing is current, and what is current is what
    the transport was handed last. *)
Definition attentive (st : State) : Prop :=
  match current st with
  | None => queue st = []
  | Some cur => lastSent st = Some (promise cur)
  end.

End Bus.

(* ------------------------------------------------------------------ *)
(** ** The earlier revision of [BusManager.handleMessage] *)

Module BusV1.

Import Eff Eff.Notations.

(** [replyTo !== this.current.id]: a string is strictly equal to the id
    only when the id is that very string. *)
Definition sameString (s : string) (v : JS.value) : bool :=
  match v with
  | JS.JStr s' => String.eqb s s'
  | _ => false
  end.

(** The message of the warning about a reply for another id prints the
    id of the current request, which converts it to a string. *)
Definition warnMismatch (cur : Bus.PendingRequest) : M Bus.State unit :=
  match JS.toString (Bus.id cur) with
  | None => throw JS.conversionError
  | Some _ => ret tt
  end.

(** Only [replyTo] is read, and it is compared as it comes. *)
Definition handleMessage (message : JS.value) : M Bus.State unit :=
  c <- gets Bus.current ;;
  match c with
  | None => ret tt
  | Some cur =>
      if negb (JS.truthy (Some message)) || negb (JS.typeof_object message)
      then ret tt
      else
        let replyToRaw := Bus.prop "replyTo" message in
        match replyToRaw with
        | None | Some JS.JNull => ret tt
        | Some v =>
            match JS.toString v with
            | None => throw JS.conversionError
            | Some replyTo =>
                if negb (sameString replyTo (Bus.id cur)) then warnMismatch cur
                else modify (Bus.resolveCurrent None (Some message))
            end
        end
  end.

End BusV1.

(* ------------------------------------------------------------------ *)
(** ** ConnectionMonitor: the heartbeat monitor of the daemon *)

Module Monitor.

Record RemoteStatus : Type := {
  connected : bool;
  device : option string;
  speed : option Z;
  lastHeartbeat : option Z;
  connectedAt : option Z;
  disconnectedAt : option Z;
  reason : option string
}.

(** [RS485_STATUS], the interval of [heartbeatMonitorTimer] once it is
    set, and the number of calls of [broadcastStatusUpdate]. *)
Record Daemon : Type := {
  status : RS485.Status;
  error : option string;
  remote : RemoteStatus;
  heartbeatMonitorTimer : option Z;
  statusUpdates : nat
}.

Definition new : Daemon := {|
  status := RS485.disconnected;
  error := None;
  remote := {| connected := false; device := None; speed := None;
               lastHeartbeat := None; connectedAt := None;
               disconnectedAt := None; reason := None |};
  heartbeatMonitorTimer := None;
  statusUpdates := 0
|}.

(** Truthiness of an optional string and of an optional number. *)
Definition nonEmpty (s : option string) : bool :=
  match s with
  | Some x => negb (String.eqb x EmptyString)
  | None => false
  end.

Definition nonZero (n : option Z) : bool :=
  match n with
  | Some x => negb (x =? 0)
  | None => false
  end.

Definition isSome {A} (o : option A) : bool :=
  match o with Some _ => true | None => false end.

Definition set_reason (r : option string) (rs : RemoteStatus) : RemoteStatus :=
  {| connected := connected rs; device := device rs; speed := speed rs;
     lastHeartbeat := lastHeartbeat rs; connectedAt := connectedAt rs;
     disconnectedAt := disconnectedAt rs; reason := r |}.

Definition broadcastStatusUpdate (d : Daemon) : Daemon :=
  {| status := status d; error := error d; remote := remote d;
     heartbeatMonitorTimer := heartbeatMonitorTimer d;
     statusUpdates := S (statusUpdates d) |}.

(** [markRemoteDisconnected(reason, overrideError = true)] at time [now]. *)
Definition markRemoteDisconnected (now : Z) (why : option string)
    (overrideError : bool) (d : Daemon) : Daemon * bool :=
  let rs := remote d in
  if negb (connected rs) then
    ({| status := status d; error := error d;
        remote := if nonEmpty why then set_reason why rs else rs;
        heartbeatMonitorTimer := heartbeatMonitorTimer d;
        statusUpdates := statusUpdates d |},
     false)
  else
    ({| status :=
          match status d with
          | RS485.connected => RS485.disconnected
          | s => s
          end;
        error :=
          if nonEmpty why && (overrideError || negb (nonEmpty (error d)))
          then why else error d;
        remote :=
          {| connected := false; device := device rs; speed := speed rs;
             lastHeartbeat := lastHeartbeat rs; connectedAt := connectedAt rs;
             disconnectedAt := Some now; reason := why |};
        heartbeatMonitorTimer := heartbeatMonitorTimer d;
        statusUpdates := statusUpdates d |},
     true).

Section HeartbeatTimeout.

(** [HEARTBEAT_TIMEOUT_MS], read from the environment when the daemon
    starts (15000 by default). *)
Variable HEARTBEAT_TIMEOUT_MS : Z.

(** [Math.max(1000, Math.floor(HEARTBEAT_TIMEOUT_MS / 2))] *)
Definition tickInterval : Z := Z.max 1000 (HEARTBEAT_TIMEOUT_MS / 2).

Definition startHeartbeatMonitor (d : Daemon) : Daemon :=
  if isSome (heartbeatMonitorTimer d) || (HEARTBEAT_TIMEOUT_MS <=? 0) then d
  else
    {| status := status d; error := error d; remote := remote d;
       heartbeatMonitorTimer := Some tickInterval;
       statusUpdates := statusUpdates d |}.

(** The callback of [setInterval]; [now] is the clock it reads, [stamp]
    the clock [markRemoteDisconnected] reads right after. *)
Definition heartbeatTick (now stamp : Z) (d : Daemon) : Daemon :=
  let rs := remote d in
  if negb (nonZero (lastHeartbeat rs)) then d
  else if negb (connected rs) then d
  else
    let age := now - match lastHeartbeat rs with Some t => t | None => 0 end in
    if age >? HEARTBEAT_TIMEOUT_MS then
      let '(d', changed) :=
        markRemoteDisconnected stamp (Some "Remote heartbeat timeout"%string) true d in
      if changed then broadcastStatusUpdate d' else d'
    else d.

(** The listener of the transport's [status] event. *)
Definition onStatus (now : Z) (s : RS485.Status) (d : Daemon) : Daemon :=
  let d1 :=
    {| status := s; error := error d; remote := remote d;
       heartbeatMonitorTimer := heartbeatMonitorTimer d;
       statusUpdates := statusUpdates d |} in
  let d2 :=
    match s with
    | RS485.connected =>
        startHeartbeatMonitor
          {| status := status d1; error := None; remote := remote d1;
             heartbeatMonitorTimer := heartbeatMonitorTimer d1;
             statusUpdates := statusUpdates d1 |}
    | _ => d1
    end in
  let d3 :=
    match s with
    | RS485.connected => d2
    | _ =>
        fst (markRemoteDisconnected now
               (Some ("RS485 link " ++ RS485.statusName s)%string) false d2)
    end in
  broadcastStatusUpdate d3.

End HeartbeatTimeout.

(** The listener of the transport's [error] event. *)
Definition onError (now : Z) (err : JS.Error) (d : Daemon) : Daemon :=
  let d1 :=
    {| status := RS485.fail; error := Some (JS.message err); remote := remote d;
       heartbeatMonitorTimer := heartbeatMonitorTimer d;
       statusUpdates := statusUpdates d |} in
  broadcastStatusUpdate
    (fst (markRemoteDisconnected now (Some (JS.message err)) true d1)).

(** The handler the daemon attaches to a rejected [rs485Handler.init()]. *)
Definition onInitFailure (err : JS.Error) (d : Daemon) : Daemon :=
  {| status := RS485.fail; error := Some (JS.message err); remote := remote d;
     heartbeatMonitorTimer := heartbeatMonitorTimer d;
     statusUpdates := statusUpdates d |}.

Definition option_string_eqb (a b : option string) : bool :=
  match a, b with
  | Some x, Some y => String.eqb x y
  | None, None => true
  | _, _ => false
  end.

Definition option_Z_eqb (a b : option Z) : bool :=
  match a, b with
  | Some x, Some y => x =? y
  | None, None => true
  | _, _ => false
  end.

(** The part common to the two branches of [handleRemotePayload] once the
    identity is recorded: presence, time stamps and link status. *)
Definition refresh (now : Z) (dev : option string) (spd : option Z)
    (d : Daemon) : Daemon :=
  let rs := remote d in
  {| status := RS485.connected;
     error := None;
     remote :=
       {| connected := true; device := dev; speed := spd;
          lastHeartbeat := Some now;
          connectedAt := if connected rs then connectedAt rs else Some now;
          disconnectedAt := None; reason := None |};
     heartbeatMonitorTimer := heartbeatMonitorTimer d;
     statusUpdates := statusUpdates d |}.

(** [handleRemotePayload(payload)] at time [now]. *)
Definition handleRemotePayload (now : Z) (payload : JS.value) (d : Daemon)
    : Daemon :=
  if negb (JS.truthy (Some payload)) || negb (JS.typeof_object payload) then d
  else
    let rs := remote d in
    match Bus.prop "hello" payload with
    | Some (JS.JStr hello) =>
        let dev :=
          if option_string_eqb (device rs) (Some hello) then device rs
          else Some hello in
        let spd :=
          match Bus.prop "speed" payload with
          | Some (JS.JNum n) =>
              if option_Z_eqb (speed rs) (Some n) then speed rs else Some n
          | _ => speed rs
          end in
        broadcastStatusUpdate (refresh now dev spd d)
    | _ =>
        match Bus.prop "heartbeat" payload with
        | Some (JS.JStr heartbeat) =>
            let dev :=
              if nonEmpty (device rs) then device rs else Some heartbeat in
            broadcastStatusUpdate (refresh now dev (speed rs) d)
        | _ => d
        end
    end.

(** What happens to the monitor, with the clock each handler reads. *)
Inductive Event : Type :=
| Payload (now : Z) (payload : JS.value)
| LinkStatus (now : Z) (s : RS485.Status)
| LinkError (now : Z) (err : JS.Error)
| Tick (now stamp : Z).

Definition step (timeout : Z) (d : Daemon) (e : Event) : Daemon :=
  match e with
  | Payload now payload => handleRemotePayload now payload d
  | LinkStatus now s => onStatus timeout now s d
  | LinkError now err => onError now err d
  | Tick now stamp => heartbeatTick timeout now stamp d
  end.

Definition run (timeout : Z) (d : Daemon) (evs : list Event) : Daemon :=
  fold_left (step timeout) evs d.

Definition isPayload (e : Event) : bool :=
  match e with Payload _ _ => true | _ => false end.

(** The clock of a payload is a time after the epoch. *)
Definition clockStarted (e : Event) : Prop :=
  match e with
  | Payload now _ => now <> 0
  | _ => True
  end.

(** The time of the last heartbeat, when there is one, is not zero. *)
Definition stamped (d : Daemon) : Prop :=
  forall hb, lastHeartbeat (remote d) = Some hb -> hb <> 0.

(** A remote shown as connected comes with a link shown as connected,
    no error, no reason, no time of disconnection, and the time of its
    last heartbeat. *)
Definition consistent (d : Daemon) : Prop :=
  connected (remote d) = true ->
  status d = RS485.connected /\ error d = None
  /\ reason (remote d) = None /\ disconnectedAt (remote d) = None
  /\ isSome (lastHeartbeat (remote d)) = true
  /\ isSome (connectedAt (remote d)) = true.

End Monitor.

(* ------------------------------------------------------------------ *)
(** ** The daemon's socket: commands from local clients *)

Module Daemon.

Definition isCommandMessage (payload : JS.value) : bool :=
  if negb (JS.truthy (Some payload)) || negb (JS.typeof_object payload)
  then false
  else
    match Bus.prop "cmd" payload with
    | Some (JS.JStr _) => true
    | _ => false
    end.

(** [(msg as any).id ?? (msg as any).uuid ?? uuid()]; [uuid] is the
    string [uuid()] returns when it is called. *)
Definition packetId (uuid : string) (msg : JS.object) : JS.value :=
  match JS.get "id" msg ?? JS.get "uuid" msg ?? Some (JS.JStr uuid) with
  | Some v => v
  | None => JS.JNull
  end.

(** One parsed line of a client: a command goes to the bus manager with
    the default timeout, anything else is dropped. *)
Definition onSocketMessage (uuid : string) (msg : JS.value) (st : Bus.State)
    : Bus.State :=
  if isCommandMessage msg then
    match msg with
    | JS.JObj o =>
        fst (Bus.request (JS.spreadSet "id" (packetId uuid o) o) None st)
    | _ => st
    end
  else st.

End Daemon.

(* ================================================================== *)
(** * Properties *)

(* ------------------------------------------------------------------ *)
(** ** Built-ins *)

Module JSFacts.

Import JS.

Lemma digitAt_S k c s : digitAt (S k) (String c s) = digitAt k s.
Proof. reflexivity. Qed.

Lemma zero_is_digit c : byte_is c 48 = true -> is_digit c = true.
Proof.
  unfold byte_is, is_digit, byte_in. intros H.
  apply Nat.eqb_eq in H. rewrite H. reflexivity.
Qed.

(** Inside the leading run of zeros the look-ahead sees a digit. *)
Lemma digitAt_in_zeros s : forall k,
  (k < leadingZeros s)%nat -> digitAt k s = true.
Proof.
  induction s as [|c s IH]; intros k Hk; cbn [leadingZeros] in Hk; [lia|].
  destruct (byte_is c 48) eqn:Hc; [|lia].
  destruct k as [|k].
  - unfold digitAt. cbn [drop]. now apply zero_is_digit.
  - rewrite digitAt_S. apply IH. lia.
Qed.

(** Where the backtracking of [0+] stops. *)
Lemma matchZeros_closed s : forall k,
  (k <= leadingZeros s)%nat ->
  matchZeros k s =
    match k with
    | O => None
    | S k' => if digitAt k s then Some k
              else match k' with O => None | S _ => Some k' end
    end.
Proof.
  intros [|k'] Hk; [reflexivity|].
  cbn [matchZeros]. destruct (digitAt (S k') s); [reflexivity|].
  destruct k' as [|k'']; [reflexivity|].
  cbn [matchZeros]. rewrite digitAt_in_zeros by lia. reflexivity.
Qed.

(** A zero in front of a string that starts with a digit does not change
    what is left once the leading zeros are stripped. *)
Lemma stripLeadingZeros_zero s :
  digitAt 0 s = true ->
  stripLeadingZeros (String "0" s) = stripLeadingZeros s.
Proof.
  intros Hd. unfold stripLeadingZeros.
  change (leadingZeros (String "0" s)) with (S (leadingZeros s)).
  rewrite !matchZeros_closed
    by (cbn [leadingZeros]; change (byte_is "0"%char 48) with true;
        cbv iota; lia).
  rewrite digitAt_S.
  destruct (leadingZeros s) as [|z] eqn:Hz.
  - rewrite Hd. reflexivity.
  - destruct (digitAt (S z) s); [reflexivity|].
    destruct z; reflexivity.
Qed.

(** Without a leading zero nothing is stripped. *)
Lemma stripLeadingZeros_plain s :
  leadingZeros s = O -> stripLeadingZeros s = s.
Proof. unfold stripLeadingZeros. now intros ->. Qed.

(** Zeros in front of a digit other than zero are all stripped. *)
Lemma stripLeadingZeros_padded s :
  digitAt 0 s = true -> leadingZeros s = O ->
  forall k, stripLeadingZeros (repeatChar "0" k ++ s) = s.
Proof.
  intros Hd Hz. induction k as [|k IH].
  - now apply stripLeadingZeros_plain.
  - cbn [repeatChar append]. rewrite stripLeadingZeros_zero; [exact IH|].
    destruct k; [exact Hd|reflexivity].
Qed.

(** A digit is no white space, nor a byte of a multi-byte white space
    character in first or last position. *)
Lemma digit_not_space a :
  is_digit a = true ->
  ws1 a = false
  /\ (forall b, ws2 a b = false /\ ws2 b a = false)
  /\ (forall b c, ws3 a b c = false /\ ws3 c b a = false).
Proof.
  destruct a as [[] [] [] [] [] [] [] []]; cbn; intros H; try discriminate H;
    (split; [reflexivity|]); (split; [intros b|intros b c]);
    unfold ws2, ws3; cbn; rewrite ?andb_false_r; cbn; auto.
Qed.

Lemma stripWs_digit w2 w3 a l :
  ws1 a = false ->
  (forall b, w2 a b = false) -> (forall b c, w3 a b c = false) ->
  stripWs w2 w3 (a :: l) = a :: l.
Proof.
  intros H1 H2 H3. cbn [stripWs]. rewrite H1.
  destruct l as [|b l]; [reflexivity|]. rewrite H2.
  destruct l as [|c l]; [reflexivity|]. now rewrite H3.
Qed.

Lemma allDigits_list s :
  allDigits s = true -> Forall (fun a => is_digit a = true) (list_ascii_of_string s).
Proof.
  induction s as [|c s IH]; cbn [allDigits list_ascii_of_string]; intros H;
    [constructor|].
  apply andb_prop in H. destruct H as [Hc Hs]. constructor; auto.
Qed.

(** [trim] leaves a numeric-looking string alone. *)
Lemma trim_numeric s : numeric s = true -> trim s = s.
Proof.
  unfold numeric. intros H. apply andb_prop in H. destruct H as [Hne Hd].
  apply allDigits_list in Hd. unfold trim, trimStart, trimEnd.
  destruct (list_ascii_of_string s) as [|a l] eqn:El.
  - destruct s; [discriminate Hne|discriminate El].
  - assert (Ha : is_digit a = true) by (inversion Hd; assumption).
    destruct (digit_not_space a Ha) as (A1 & A2 & A3).
    rewrite stripWs_digit;
      [|exact A1|intros b; apply A2|intros b c; apply A3].
    assert (Hr : Forall (fun a => is_digit a = true) (rev (a :: l)))
      by (apply Forall_rev; exact Hd).
    destruct (rev (a :: l)) as [|z r] eqn:Er.
    + apply (f_equal (@List.length ascii)) in Er.
      rewrite length_rev in Er. discriminate Er.
    + assert (Hz : is_digit z = true) by (inversion Hr; assumption).
      destruct (digit_not_space z Hz) as (Z1 & Z2 & Z3).
      rewrite stripWs_digit;
        [|exact Z1|intros b; apply Z2|intros b c; apply Z3].
      rewrite <- Er, rev_involutive, <- El.
      apply string_of_list_ascii_of_string.
Qed.

Lemma numeric_padded s k :
  numeric s = true -> numeric (repeatChar "0" k ++ s) = true.
Proof.
  unfold numeric. intros H. apply andb_prop in H. destruct H as [Hne Hd].
  induction k as [|k IH]; cbn [repeatChar append].
  - now rewrite Hne, Hd.
  - apply andb_prop in IH. destruct IH as [_ IH].
    cbn [allDigits]. now rewrite IH.
Qed.

Lemma numeric_digitAt s : numeric s = true -> digitAt 0 s = true.
Proof.
  unfold numeric, digitAt. destruct s as [|c s]; [discriminate|].
  cbn. intros H. now apply andb_prop in H.
Qed.

End JSFacts.

(* ------------------------------------------------------------------ *)
(** ** Request ids *)

Module BusIds.

Import Bus.

Lemma pad_table :
  forallb
    (fun n => String.eqb (JS.padStart 3 "0"%char (JS.numberToString (Z.of_nat n)))
                         (threeDigits n))
    (seq 0 1000) = true.
Proof. vm_compute. reflexivity. Qed.

Lemma pad_three_digits (n : nat) :
  (n < 1000)%nat ->
  JS.padStart 3 "0"%char (JS.numberToString (Z.of_nat n)) = threeDigits n.
Proof.
  intros Hn.
  pose proof pad_table as T.
  rewrite forallb_forall in T.
  apply String.eqb_eq, T, in_seq. lia.
Qed.

Lemma counter_step (n : nat) :
  Z.rem (Z.of_nat (n mod 1000) + 1) 1000 = Z.of_nat (S n mod 1000).
Proof.
  assert (H : (n mod 1000 < 1000)%nat) by (apply Nat.mod_upper_bound; lia).
  rewrite Z.rem_mod_nonneg by lia.
  replace (Z.of_nat (n mod 1000) + 1) with (Z.of_nat (S (n mod 1000))) by lia.
  change 1000 with (Z.of_nat 1000). rewrite <- Nat2Z.inj_mod. f_equal.
  replace (S (n mod 1000)) with (n mod 1000 + 1)%nat by lia.
  replace (S n) with (n + 1)%nat by lia.
  now rewrite Nat.Div0.add_mod_idemp_l.
Qed.

Lemma nextRequestId_spec (st : State) (n : nat) :
  nextIdValue st = Z.of_nat (n mod 1000) ->
  fst (nextRequestId st) = threeDigits (n mod 1000)
  /\ nextIdValue (snd (nextRequestId st)) = Z.of_nat (S n mod 1000).
Proof.
  intros H. unfold nextRequestId. cbn [fst snd nextIdValue]. rewrite H.
  assert (Hlt : (n mod 1000 < 1000)%nat) by (apply Nat.mod_upper_bound; lia).
  split.
  - rewrite Z.rem_small by lia. now apply pad_three_digits.
  - apply counter_step.
Qed.

Lemma processQueue_accepted (st : State) :
  accepted (processQueue st) = accepted st.
Proof.
  unfold processQueue, accepted.
  destruct (current st); [reflexivity|].
  destruct (queue st) as [|next rest] eqn:Hq; cbn [sent queue].
  - now rewrite Hq.
  - now rewrite <- app_assoc.
Qed.

Lemma processQueue_nextIdValue (st : State) :
  nextIdValue (processQueue st) = nextIdValue st.
Proof.
  unfold processQueue.
  destruct (current st); [reflexivity|].
  destruct (queue st); reflexivity.
Qed.

Lemma processQueue_promises (st : State) :
  promises (processQueue st) = promises st.
Proof.
  unfold processQueue.
  destruct (current st); [reflexivity|].
  destruct (queue st); reflexivity.
Qed.

Lemma resolveCurrent_accepted error result st :
  accepted (resolveCurrent error result st) = accepted st.
Proof.
  unfold resolveCurrent. destruct (current st); [|reflexivity].
  now rewrite processQueue_accepted.
Qed.

Lemma resolveCurrent_nextIdValue error result st :
  nextIdValue (resolveCurrent error result st) = nextIdValue st.
Proof.
  unfold resolveCurrent. destruct (current st); [|reflexivity].
  now rewrite processQueue_nextIdValue.
Qed.

Lemma resolveCurrent_promises error result st :
  promises (resolveCurrent error result st) = promises st.
Proof.
  unfold resolveCurrent. destruct (current st); [|reflexivity].
  now rewrite processQueue_promises.
Qed.

Lemma handleMessage_cases m st :
  snd (handleMessage m st) = st
  \/ snd (handleMessage m st) = resolveCurrent None (Some m) st.
Proof.
  unfold handleMessage, Eff.bind, Eff.gets, Eff.lift, Eff.ret, Eff.modify.
  destruct (current st); [|now left].
  destruct (negb (JS.truthy (Some m)) || negb (JS.typeof_object m)); [now left|].
  destruct (normalizeId _) as [[r|]|]; [|now left|now left].
  destruct (normalizeId _) as [expected|]; [|now left].
  destruct (negb _); [now left|now right].
Qed.

Lemma handleTimeout_cases st :
  snd (handleTimeout st) = st
  \/ exists error, snd (handleTimeout st) = resolveCurrent (Some error) None st.
Proof.
  unfold handleTimeout, Eff.bind, Eff.gets, Eff.lift, Eff.ret, Eff.modify.
  destruct (current st) as [cur|]; [|now left].
  destruct (timeoutError cur) as [error|]; [right; now exists error|now left].
Qed.

(** Events other than [Request] leave the accepted requests, the id
    counter and the promise counter alone. *)
Lemma step_other_accepted st e :
  isRequest e = false ->
  accepted (step st e) = accepted st
  /\ nextIdValue (step st e) = nextIdValue st
  /\ promises (step st e) = promises st.
Proof.
  destruct e as [|payload timeout|m|p err|t]; cbn [isRequest step]; intros H;
    try discriminate.
  - repeat split.
  - destruct (initialized st); [|repeat split].
    destruct (handleMessage_cases m st) as [-> | ->]; [repeat split|].
    now rewrite resolveCurrent_accepted, resolveCurrent_nextIdValue,
      resolveCurrent_promises.
  - destruct (find _ _) as [next|]; [|repeat split].
    unfold sendSettled. destruct err as [e|].
    + now rewrite resolveCurrent_accepted, resolveCurrent_nextIdValue,
        resolveCurrent_promises.
    + repeat split.
  - destruct (existsb _ _); [|repeat split].
    destruct (handleTimeout_cases (fireTimer t st)) as [-> | (error & ->)];
      [repeat split|].
    now rewrite resolveCurrent_accepted, resolveCurrent_nextIdValue,
      resolveCurrent_promises.
Qed.

Lemma request_lacking_id payload timeout st (n : nat) :
  JS.nullish (JS.get "id" payload) = true ->
  nextIdValue st = Z.of_nat (n mod 1000) ->
  let st' := fst (request payload timeout st) in
  nextIdValue st' = Z.of_nat (S n mod 1000)
  /\ map id (accepted st') = map id (accepted st) ++ [rotatingId n].
Proof.
  intros Hid Hn.
  destruct (nextRequestId_spec st n Hn) as [Hfresh Hnext].
  unfold request, packetIdOf.
  assert (E : match JS.get "id" payload with
              | Some v =>
                  if JS.nullish (Some v)
                  then let '(fresh, st') := nextRequestId st in (JS.JStr fresh, st')
                  else (v, st)
              | None => let '(fresh, st') := nextRequestId st in (JS.JStr fresh, st')
              end = (JS.JStr (fst (nextRequestId st)), snd (nextRequestId st))).
  { destruct (JS.get "id" payload) as [v|]; [rewrite Hid|];
      destruct (nextRequestId st); reflexivity. }
  rewrite E. cbn [fst].
  rewrite processQueue_nextIdValue, processQueue_accepted.
  unfold accepted. cbn [nextIdValue sent queue].
  split; [exact Hnext|].
  rewrite app_assoc, map_app. cbn [map id]. rewrite Hfresh.
  unfold nextRequestId. reflexivity.
Qed.

Lemma rotating_ids_invariant evs : forall st n,
  Forall (fun e => lacksId e = true) evs ->
  nextIdValue st = Z.of_nat (n mod 1000) ->
  map id (accepted st) = map rotatingId (seq 0 n) ->
  map id (accepted (run st evs)) = map rotatingId (seq 0 (n + requestCount evs)).
Proof.
  induction evs as [|e evs IH]; intros st n Hall Hn Hids.
  - cbn. now rewrite Nat.add_0_r.
  - inversion Hall as [|? ? He Hrest]; subst.
    unfold run. cbn [fold_left]. fold (run (step st e) evs).
    destruct (isRequest e) eqn:Hr.
    + destruct e as [|payload timeout| | |]; try discriminate.
      cbn [lacksId] in He.
      destruct (request_lacking_id payload timeout st n He Hn) as [Hn' Hids'].
      unfold requestCount. cbn [filter isRequest List.length].
      rewrite Nat.add_succ_r, <- Nat.add_succ_l.
      apply IH; [assumption|exact Hn'|].
      cbn [step]. rewrite Hids', Hids, seq_S, map_app. reflexivity.
    + destruct (step_other_accepted st e Hr) as (Ha & Hv & _).
      unfold requestCount. cbn [filter]. rewrite Hr.
      apply IH; [assumption| |]; congruence.
Qed.

End BusIds.

(** C6.  Whatever else happens to a fresh manager in between, when every
    request it is handed lacks an id, the ids it assigns, in the order of
    the calls, are "000", "001", ..., "999", then "000" again: the k-th
    request (from zero) gets the three decimal digits of k mod 1000. *)
Theorem assigned_ids_rotate (evs : list Bus.Event) :
  Forall (fun e => Bus.lacksId e = true) evs ->
  map Bus.id (Bus.sent (Bus.run Bus.new evs) ++ Bus.queue (Bus.run Bus.new evs))
  = map Bus.rotatingId (seq 0 (Bus.requestCount evs)).
Proof.
  intros H.
  apply (BusIds.rotating_ids_invariant evs Bus.new 0%nat H); reflexivity.
Qed.

Lemma assigned_ids_rotate_witness :
  let evs := [Bus.Init;
              Bus.Request [("cmd", JS.JStr "ping")]%string None;
              Bus.Message (JS.JObj [("replyTo", JS.JStr "7")]%string);
              Bus.Request [("cmd", JS.JStr "who"); ("id", JS.JNull)]%string (Some 100)] in
  map Bus.id (Bus.sent (Bus.run Bus.new evs) ++ Bus.queue (Bus.run Bus.new evs))
  = [JS.JStr "000"; JS.JStr "001"]%string.
Proof.
  intros evs.
  apply (assigned_ids_rotate evs).
  repeat constructor.
Defined.

(** The first, the last and the thousand-and-first id of the rotation. *)
Example rotation_ends :
  Bus.rotatingId 0 = JS.JStr "000"
  /\ Bus.rotatingId 999 = JS.JStr "999"
  /\ Bus.rotatingId 1000 = JS.JStr "000".
Proof. repeat split. Qed.

(* ------------------------------------------------------------------ *)
(** ** Reply correlation *)

Module BusReplies.

Import Bus.

Lemma processQueue_settled st : settled (processQueue st) = settled st.
Proof.
  unfold processQueue. destruct (current st); [reflexivity|].
  destruct (queue st); reflexivity.
Qed.

Lemma processQueue_timers st : timers (processQueue st) = timers st.
Proof.
  unfold processQueue. destruct (current st); [reflexivity|].
  destruct (queue st); reflexivity.
Qed.

Lemma processQueue_busy st cur : current st = Some cur -> processQueue st = st.
Proof. unfold processQueue. now intros ->. Qed.

(** The chain of [??] in [handleMessage] picks the first alias that is
    present. *)
Lemma alias_chain m :
  normalizeId
    (prop "replyTo" m ?? prop "id" m ?? prop "reply_to" m ?? prop "responseTo" m)
  = correlationId m.
Proof.
  unfold correlationId, aliases. cbn [firstPresent]. unfold JS.coalesce.
  destruct (prop "replyTo" m) as [[]|]; cbn [JS.nullish]; try reflexivity;
    (destruct (prop "id" m) as [[]|]; cbn [JS.nullish]; try reflexivity;
     (destruct (prop "reply_to" m) as [[]|]; cbn [JS.nullish]; try reflexivity;
      (destruct (prop "responseTo" m) as [[]|]; cbn [JS.nullish]; reflexivity))).
Qed.

(** What [handleMessage] does while a request is current, outcome and
    state. *)
Lemma handleMessage_outcome m st cur :
  current st = Some cur ->
  handleMessage m st
  = match correlationId m with
    | Eff.Thrown e => (Eff.Thrown e, st)
    | Eff.Returned None => (Eff.Returned tt, st)
    | Eff.Returned (Some r) =>
        match normalizeId (Some (id cur)) with
        | Eff.Thrown e => (Eff.Thrown e, st)
        | Eff.Returned expected =>
            if option_string_eqb (Some r) expected
            then (Eff.Returned tt, resolveCurrent None (Some m) st)
            else (Eff.Returned tt, st)
        end
    end.
Proof.
  intros Hcur.
  unfold handleMessage, Eff.bind, Eff.gets, Eff.lift, Eff.ret, Eff.modify.
  rewrite Hcur.
  destruct m as [|b|n|s|items|fields].
  - reflexivity.
  - cbn. destruct b; reflexivity.
  - cbn. destruct (n =? 0); reflexivity.
  - cbn. destruct (String.eqb s EmptyString); reflexivity.
  - reflexivity.
  - change (negb (JS.truthy (Some (JS.JObj fields)))
            || negb (JS.typeof_object (JS.JObj fields))) with false.
    cbv iota. rewrite alias_chain.
    destruct (correlationId (JS.JObj fields)) as [[r|]|e]; try reflexivity.
    destruct (normalizeId (Some (id cur))) as [expected|e]; [|reflexivity].
    destruct (option_string_eqb (Some r) expected); reflexivity.
Qed.

Lemma handleMessage_spec m st cur :
  current st = Some cur ->
  snd (handleMessage m st)
  = if isReplyTo cur m then resolveCurrent None (Some m) st else st.
Proof.
  intros Hcur. rewrite (handleMessage_outcome m st cur Hcur). unfold isReplyTo.
  destruct (correlationId m) as [[r|]|e]; try reflexivity.
  destruct (normalizeId (Some (id cur))) as [expected|e]; [|reflexivity].
  destruct (option_string_eqb (Some r) expected); reflexivity.
Qed.

Lemma resolveCurrent_settled error result st cur :
  current st = Some cur ->
  settled (resolveCurrent error result st)
  = settled st ++ [(promise cur,
                    match error with
                    | Some e => Rejected e
                    | None => Resolved result
                    end)].
Proof.
  intros Hcur. unfold resolveCurrent. rewrite Hcur.
  now rewrite processQueue_settled.
Qed.

Lemma option_string_eqb_eq a b : option_string_eqb a b = true <-> a = b.
Proof.
  destruct a as [x|], b as [y|]; cbn; try (split; congruence).
  rewrite String.eqb_eq. split; congruence.
Qed.

Lemma isReplyTo_true cur m :
  isReplyTo cur m = true
  <-> exists r, correlationId m = Eff.Returned (Some r)
                /\ normalizeId (Some (id cur)) = Eff.Returned (Some r).
Proof.
  unfold isReplyTo. destruct (correlationId m) as [[r|]|e].
  - destruct (normalizeId (Some (id cur))) as [expected|e].
    + rewrite option_string_eqb_eq. split.
      * intros H. exists r. split; congruence.
      * intros (r' & H1 & H2). congruence.
    + split; [discriminate|]. intros (r' & _ & H). discriminate.
  - split; [discriminate|]. intros (r & H & _). discriminate.
  - split; [discriminate|]. intros (r & H & _). discriminate.
Qed.

Lemma packetIdOf_frame payload st :
  let st' := snd (packetIdOf payload st) in
  initialized st' = initialized st /\ queue st' = queue st
  /\ current st' = current st /\ promises st' = promises st
  /\ settled st' = settled st /\ sent st' = sent st
  /\ sending st' = sending st /\ timers st' = timers st
  /\ timerCount st' = timerCount st.
Proof.
  unfold packetIdOf, nextRequestId.
  destruct (JS.get "id" payload) as [v|]; [destruct (JS.nullish (Some v))|];
    cbn; repeat split.
Qed.

(** A quiet event changes nothing but the queue, which can only grow,
    and the counters of ids and promises. *)
Lemma quiet_step st cur e :
  current st = Some cur -> quiet cur e = true ->
  current (step st e) = Some cur
  /\ settled (step st e) = settled st /\ sent (step st e) = sent st
  /\ sending (step st e) = sending st /\ timers (step st e) = timers st
  /\ timerCount (step st e) = timerCount st
  /\ exists q, queue (step st e) = queue st ++ q.
Proof.
  intros Hcur Hq.
  destruct e as [|payload timeout|m|p err|t]; cbn [quiet] in Hq;
    try discriminate; cbn [step].
  - cbn. repeat split; try assumption. exists []. now rewrite app_nil_r.
  - unfold request.
    pose proof (packetIdOf_frame payload st) as F.
    destruct (packetIdOf payload st) as [pid st1]. cbn [snd] in F.
    destruct F as (_ & Fq & Fc & _ & Fs & Fsent & Fsend & Ft & Ftc).
    cbn [fst].
    rewrite (processQueue_busy _ cur) by (cbn; congruence).
    cbn. repeat split; try congruence.
    rewrite Fq. eauto.
  - assert (E : snd (handleMessage m st) = st).
    { rewrite (handleMessage_spec m st cur Hcur).
      now destruct (isReplyTo cur m). }
    destruct (initialized st); rewrite ?E; repeat split; try assumption;
      exists []; now rewrite app_nil_r.
Qed.

Lemma quiet_run evs : forall st cur,
  current st = Some cur ->
  Forall (fun e => quiet cur e = true) evs ->
  current (run st evs) = Some cur
  /\ settled (run st evs) = settled st /\ sent (run st evs) = sent st
  /\ sending (run st evs) = sending st /\ timers (run st evs) = timers st
  /\ timerCount (run st evs) = timerCount st
  /\ exists q, queue (run st evs) = queue st ++ q.
Proof.
  induction evs as [|e evs IH]; intros st cur Hcur Hall.
  - cbn. repeat split; try assumption. exists []. now rewrite app_nil_r.
  - inversion Hall as [|? ? He Hrest]; subst.
    destruct (quiet_step st cur e Hcur He)
      as (C & S1 & S2 & S3 & S4 & S5 & (q & Q)).
    destruct (IH (step st e) cur C Hrest)
      as (C' & T1 & T2 & T3 & T4 & T5 & (q' & Q')).
    unfold run in *. cbn [fold_left].
    repeat split; try congruence.
    exists (q ++ q'). rewrite Q', Q. now rewrite app_assoc.
Qed.

(** A numeric-looking id normalizes to its digits without the leading
    zeros. *)
Lemma normalizeId_padded s k :
  JS.numeric s = true -> JS.leadingZeros s = O ->
  normalizeId (Some (JS.JStr (JS.repeatChar "0" k ++ s)))
  = Eff.Returned (Some s).
Proof.
  intros Hn Hz. unfold normalizeId. cbn [JS.toString].
  rewrite JSFacts.trim_numeric by now apply JSFacts.numeric_padded.
  assert (Hne : String.eqb (JS.repeatChar "0" k ++ s) EmptyString = false).
  { pose proof (JSFacts.numeric_padded s k Hn) as H. unfold JS.numeric in H.
    apply andb_prop in H. destruct H as [H _]. now apply negb_true_iff in H. }
  rewrite Hne.
  rewrite JSFacts.stripLeadingZeros_padded;
    [reflexivity|now apply JSFacts.numeric_digitAt|exact Hz].
Qed.

Lemma existsb_timer_last t d ts :
  existsb (fun e : nat * Z => Nat.eqb (fst e) t) (ts ++ [(t, d)]) = true.
Proof.
  rewrite existsb_app. cbn. rewrite Nat.eqb_refl. now rewrite orb_true_r.
Qed.

End BusReplies.

(** C4.  An inbound message is dropped, leaving the manager exactly as it
    was, when no request is current, when none of the alias fields
    replyTo, id, reply_to, responseTo (tried in this order) yields an id,
    and when the normalized id it yields differs from the normalized id
    of the current request; only a message whose id matches resolves the
    current request.  When an id cannot be converted to a string,
    [handleMessage] throws and the manager is as it was, too.  A dropped
    message is not kept: what happens later is what would have happened
    without it.  Where ids are compared, the numbers in the message and
    in the id are taken to print in decimal. *)
Theorem inbound_message_correlation (st : Bus.State) (m : JS.value) :
  (Bus.current st = None -> Bus.handleMessage m st = (Eff.Returned tt, st))
  /\ (forall cur, Bus.current st = Some cur ->
        JS.decimals m = true -> JS.decimals (Bus.id cur) = true ->
        (Bus.correlationId m = Eff.Returned None ->
         Bus.handleMessage m st = (Eff.Returned tt, st))
        /\ (forall r expected,
              Bus.correlationId m = Eff.Returned (Some r) ->
              Bus.normalizeId (Some (Bus.id cur)) = Eff.Returned expected ->
              expected <> Some r ->
              Bus.handleMessage m st = (Eff.Returned tt, st))
        /\ (forall r,
              Bus.correlationId m = Eff.Returned (Some r) ->
              Bus.normalizeId (Some (Bus.id cur)) = Eff.Returned (Some r) ->
              Bus.handleMessage m st
              = (Eff.Returned tt, Bus.resolveCurrent None (Some m) st))
        /\ (forall e,
              Bus.correlationId m = Eff.Thrown e
              \/ (exists r, Bus.correlationId m = Eff.Returned (Some r)
                            /\ Bus.normalizeId (Some (Bus.id cur)) = Eff.Thrown e) ->
              Bus.handleMessage m st = (Eff.Thrown e, st)))
  /\ (snd (Bus.handleMessage m st) = st ->
      forall evs, Bus.run st (Bus.Message m :: evs) = Bus.run st evs).
Proof.
  split; [|split].
  - intros H. unfold Bus.handleMessage, Eff.bind, Eff.gets. now rewrite H.
  - intros cur Hcur _ _.
    rewrite (BusReplies.handleMessage_outcome m st cur Hcur).
    split; [|split; [|split]].
    + now intros ->.
    + intros r expected -> -> Hne.
      destruct (Bus.option_string_eqb (Some r) expected) eqn:E; [|reflexivity].
      apply BusReplies.option_string_eqb_eq in E. congruence.
    + intros r -> ->. cbn [Bus.option_string_eqb]. now rewrite String.eqb_refl.
    + intros e [-> | (r & -> & ->)]; reflexivity.
  - intros H evs. unfold Bus.run. cbn [fold_left Bus.step].
    destruct (Bus.initialized st); [now rewrite H|reflexivity].
Qed.

Lemma inbound_message_correlation_witness :
  let st := Bus.run Bus.new [Bus.Init; Bus.Request [("cmd", JS.JStr "ping")]%string None] in
  let m := JS.JObj [("replyTo", JS.JStr "7")]%string in
  Bus.handleMessage m st = (Eff.Returned tt, st).
Proof.
  intros st m.
  destruct (inbound_message_correlation st m) as (_ & H & _).
  destruct (H {| Bus.id := JS.JStr "000";
                 Bus.payload := [("cmd", JS.JStr "ping"); ("id", JS.JStr "000")]%string;
                 Bus.timeoutMs := 500; Bus.promise := 0; Bus.timer := None |}
              eq_refl eq_refl eq_refl) as (_ & Hne & _).
  apply (Hne "7"%string (Some "0"%string)); [reflexivity|reflexivity|discriminate].
Defined.

(* ------------------------------------------------------------------ *)
(** ** The link transport *)

Module RS485Facts.

Import RS485 Eff Eff.Notations.

Lemma bind_run {S A B} (m : M S A) (k : A -> M S B) s a s' :
  m s = (Returned a, s') -> bind m k s = k a s'.
Proof. intros H. unfold bind. now rewrite H. Qed.

Lemma tryFinally_run {S A} (body : M S A) (fin : M S unit) s r s' s'' :
  body s = (r, s') -> fin s' = (Returned tt, s'') ->
  tryFinally body fin s = (r, s'').
Proof. intros H1 H2. unfold tryFinally. now rewrite H1, H2. Qed.

Lemma writes_app es es' : writes (es ++ es') = writes es ++ writes es'.
Proof.
  induction es as [|e es IH]; [reflexivity|].
  destruct e; cbn; now rewrite IH.
Qed.

Lemma driveTransceiver_run t h :
  exists h',
    driveTransceiver t h = (Returned tt, h')
    /\ port h' = port h /\ options h' = options h
    /\ reconnectTimer h' = reconnectTimer h /\ destroyed h' = destroyed h
    /\ status h' = status h
    /\ driverEnableGpio h' = option_map (writeSync (deLevel t)) (driverEnableGpio h)
    /\ legacyEnableGpio h' =
         (if isSome (driverEnableGpio h) then legacyEnableGpio h
          else option_map (writeSync (deLevel t)) (legacyEnableGpio h))
    /\ receiverEnableGpio h' =
         option_map (writeSync (reLevel (options h) t)) (receiverEnableGpio h)
    /\ effects h' =
         effects h
         ++ match driverEnableGpio h, legacyEnableGpio h with
            | Some g, _ => [GpioWrite (pin g) (deLevel t)]
            | None, Some g => [GpioWrite (pin g) (deLevel t)]
            | None, None => []
            end
         ++ match receiverEnableGpio h with
            | Some g => [GpioWrite (pin g) (reLevel (options h) t)]
            | None => []
            end.
Proof.
  destruct h as [p leg drv rcv rt dead st o es].
  destruct drv as [d|], leg as [l|], rcv as [r|];
    destruct t; cbn; (eexists; split; [reflexivity|]);
    cbn; rewrite <- ?app_assoc, ?app_nil_r; repeat split.
Qed.

Lemma driveTransceiver_writes t h :
  writes (effects (snd (driveTransceiver t h))) = writes (effects h).
Proof.
  destruct (driveTransceiver_run t h) as (h' & E & _ & _ & _ & _ & _ & _ & _ & _ & He).
  rewrite E. cbn [snd]. rewrite He, !writes_app.
  destruct (driverEnableGpio h), (legacyEnableGpio h), (receiverEnableGpio h);
    cbn; now rewrite ?app_nil_r.
Qed.

Lemma openPort_ok w h :
  portIsOpen h = false -> openErr w = None ->
  exists h' es,
    openPort w h = (Returned tt, h')
    /\ portIsOpen h' = true
    /\ lines h' = lines h /\ options h' = options h
    /\ reconnectTimer h' = reconnectTimer h /\ destroyed h' = destroyed h
    /\ status h' = connected
    /\ effects h' = effects h ++ es /\ writes es = [].
Proof.
  intros Hclosed Hw. unfold openPort, bind, gets. rewrite Hclosed.
  destruct h as [p leg drv rcv rt dead st o es]. cbn. rewrite Hw. cbn.
  destruct st; cbn; do 2 eexists; (split; [reflexivity|]); cbn;
    rewrite <- ?app_assoc; repeat split; try reflexivity.
Qed.

Lemma ensurePortReady_ok w h :
  portReady w h ->
  exists h' es,
    ensurePortReady w h = (Returned tt, h')
    /\ portIsOpen h' = true
    /\ lines h' = lines h /\ options h' = options h
    /\ effects h' = effects h ++ es /\ writes es = [].
Proof.
  intros Hr. unfold ensurePortReady, bind, gets.
  destruct (portIsOpen h) eqn:Ho.
  - exists h, []. rewrite app_nil_r. now repeat split.
  - destruct Hr as [Hr|Hr]; [congruence|].
    destruct (openPort_ok w h Ho Hr)
      as (h' & es & E & H1 & H2 & H3 & _ & _ & _ & H4 & H5).
    exists h', es. now repeat split.
Qed.

Lemma transmit_run w buffer h :
  exists h',
    (portWrite w buffer ;; portDrain w ;; emit (OnTx buffer)) h
    = (writeOutcome w, h')
    /\ lines h' = lines h /\ options h' = options h
    /\ (exists es, effects h' = effects h ++ PortWrite buffer :: es)
    /\ writes (effects h') = writes (effects h) ++ [buffer].
Proof.
  destruct h as [p leg drv rcv rt dead st o es].
  unfold writeOutcome.
  unfold portWrite, portDrain, emit, effect, bind, modify, ret, throw.
  destruct (writeErr w) eqn:Ew, (drainErr w) eqn:Ed; cbn;
    (eexists; split; [reflexivity|]); cbn; rewrite <- ?app_assoc;
    repeat split; try (eexists; reflexivity);
    rewrite writes_app; cbn; reflexivity.
Qed.

Lemma release_run h :
  exists h',
    (driveTransceiver false ;;
     delay <- gets (fun h => turnaroundDelayMs (options h)) ;;
     if delay >? 0 then sleep delay else ret tt) h = (Returned tt, h')
    /\ options h' = options h
    /\ lines h' = lines (snd (driveTransceiver false h))
    /\ effects h' = effects h ++ receiveWrites h ++ turnaround h.
Proof.
  destruct (driveTransceiver_run false h)
    as (h1 & E & _ & Ho & _ & _ & _ & Hd & Hl & Hr & He).
  rewrite (bind_run _ _ _ _ _ E). rewrite E. cbn [snd].
  unfold bind, gets, sleep, effect, modify, ret, turnaround.
  rewrite Ho.
  destruct (turnaroundDelayMs (options h) >? 0).
  - eexists; split; [reflexivity|]. cbn. repeat split; try assumption.
    rewrite He. unfold receiveWrites. rewrite <- ?app_assoc. reflexivity.
  - eexists; split; [reflexivity|]. repeat split; try assumption.
    rewrite He, app_nil_r. unfold receiveWrites. rewrite <- ?app_assoc.
    reflexivity.
Qed.

(** What [driveTransceiver] leaves on the lines depends on the lines and
    on the options only. *)
Lemma driveTransceiver_lines_congr t h h' :
  lines h' = lines h -> options h' = options h ->
  lines (snd (driveTransceiver t h')) = lines (snd (driveTransceiver t h)).
Proof.
  intros Hl Ho.
  destruct (driveTransceiver_run t h)
    as (k & E & _ & _ & _ & _ & _ & Kd & Kl & Kr & _).
  destruct (driveTransceiver_run t h')
    as (k' & E' & _ & _ & _ & _ & _ & Kd' & Kl' & Kr' & _).
  rewrite E, E'. cbn [snd]. unfold lines in *.
  injection Hl as H1 H2 H3.
  rewrite Kd, Kl, Kr, Kd', Kl', Kr', Ho, H1, H2, H3. reflexivity.
Qed.

(** Switching to receive undoes switching to transmit. *)
Lemma drive_true_false h :
  lines (snd (driveTransceiver false (snd (driveTransceiver true h))))
  = lines (snd (driveTransceiver false h)).
Proof.
  destruct (driveTransceiver_run true h)
    as (k & E & _ & Ko & _ & _ & _ & Kd & Kl & Kr & _).
  destruct (driveTransceiver_run false h)
    as (k0 & E0 & _ & _ & _ & _ & _ & Kd0 & Kl0 & Kr0 & _).
  destruct (driveTransceiver_run false k)
    as (k' & E' & _ & _ & _ & _ & _ & Kd' & Kl' & Kr' & _).
  rewrite E. cbn [snd]. rewrite E', E0. cbn [snd]. unfold lines.
  rewrite Kd', Kl', Kr', Kd0, Kl0, Kr0, Kd, Kl, Kr, Ko.
  destruct (driverEnableGpio h), (legacyEnableGpio h), (receiverEnableGpio h);
    reflexivity.
Qed.

Lemma drive_false_receive h :
  inReceiveState (snd (driveTransceiver false h)).
Proof.
  destruct (driveTransceiver_run false h)
    as (k & E & _ & Ko & _ & _ & _ & Kd & Kl & Kr & _).
  rewrite E. cbn [snd]. unfold inReceiveState. rewrite Kd, Kl, Kr, Ko.
  destruct (driverEnableGpio h), (legacyEnableGpio h), (receiverEnableGpio h);
    cbn; auto.
Qed.

Lemma inReceiveState_congr h h' :
  lines h' = lines h -> options h' = options h ->
  inReceiveState h -> inReceiveState h'.
Proof.
  unfold inReceiveState, lines. intros L O.
  injection L as A1 A2 A3. now rewrite A1, A2, A3, O.
Qed.

(** [sendRaw] with something to send, on a port that is or can be
    opened. *)
Lemma sendRaw_run w payload h :
  emptyPayload payload = false ->
  portReady w h ->
  exists h',
    sendRaw w payload h = (writeOutcome w, h')
    /\ options h' = options h
    /\ lines h' = lines (snd (driveTransceiver false h))
    /\ inReceiveState h'
    /\ (exists pre mid,
          effects h'
          = pre ++ PortWrite (payloadBytes payload) :: mid
                ++ receiveWrites h ++ turnaround h)
    /\ writes (effects h') = writes (effects h) ++ [payloadBytes payload].
Proof.
  intros Hne Hready. unfold sendRaw. rewrite Hne.
  destruct (ensurePortReady_ok w h Hready)
    as (h1 & es1 & E1 & _ & L1 & O1 & F1 & W1).
  rewrite (bind_run _ _ _ _ _ E1).
  destruct (driveTransceiver_run true h1)
    as (h2 & E2 & _ & O2 & _ & _ & _ & D2 & G2 & R2 & F2).
  rewrite (bind_run _ _ _ _ _ E2).
  destruct (transmit_run w (payloadBytes payload) h2)
    as (h3 & E3 & L3 & O3 & (mid & M3) & W3).
  destruct (release_run h3) as (h4 & E4 & O4 & L4 & F4).
  rewrite (tryFinally_run _ _ _ _ _ _ E3 E4).
  assert (Hlines : lines h4 = lines (snd (driveTransceiver false h))).
  { rewrite L4.
    rewrite (driveTransceiver_lines_congr false h2 h3 L3 O3).
    replace h2 with (snd (driveTransceiver true h1)) by now rewrite E2.
    rewrite drive_true_false.
    now apply driveTransceiver_lines_congr. }
  assert (Hopts : options h4 = options h) by congruence.
  assert (Hrw : receiveWrites h3 = receiveWrites h).
  { unfold receiveWrites. unfold lines in L3, L1.
    injection L3 as A1 A2 A3. injection L1 as B1 B2 B3.
    rewrite A1, A2, A3, O3, D2, G2, R2, O2, B1, B2, B3, O1.
    destruct (driverEnableGpio h), (legacyEnableGpio h), (receiverEnableGpio h);
      reflexivity. }
  exists h4. split; [reflexivity|].
  split; [|split; [|split; [|split]]].
  - exact Hopts.
  - exact Hlines.
  - apply (inReceiveState_congr (snd (driveTransceiver false h)) h4 Hlines);
      [|apply drive_false_receive].
    destruct (driveTransceiver_run false h) as (k & E & _ & Ko & _).
    rewrite E. cbn [snd]. congruence.
  - exists (effects h2), mid. rewrite F4, Hrw, M3. unfold turnaround.
    rewrite O3, O2, O1, <- !app_assoc. reflexivity.
  - assert (Hw3 : writes (effects h3) = writes (effects h) ++ [payloadBytes payload]).
    { rewrite W3. f_equal.
      replace h2 with (snd (driveTransceiver true h1)) by now rewrite E2.
      rewrite driveTransceiver_writes, F1, writes_app, W1. apply app_nil_r. }
    rewrite <- Hw3, F4, !writes_app.
    assert (writes (receiveWrites h3) = []) as ->.
    { unfold receiveWrites.
      destruct (driverEnableGpio h3), (legacyEnableGpio h3), (receiverEnableGpio h3);
        reflexivity. }
    assert (writes (turnaround h3) = []) as ->.
    { unfold turnaround. destruct (_ >? 0); reflexivity. }
    now rewrite !app_nil_r.
Qed.

(** When the port cannot be opened. *)
Lemma openPort_fails w h err :
  portIsOpen h = false -> openErr w = Some err ->
  exists h',
    openPort w h = (Thrown err, h')
    /\ status h' = fail
    /\ lines h' = lines h /\ options h' = options h /\ destroyed h' = destroyed h
    /\ reconnectTimer h' =
         (reconnectTimer h || (negb (destroyed h) && autoReconnect (options h)))
    /\ effects h' =
         effects h
         ++ [PortOpen; Emit (OnStatus fail); Emit (OnError err)]
         ++ (if negb (reconnectTimer h) && negb (destroyed h)
                && autoReconnect (options h)
             then [SetReconnectTimer (reconnectIntervalMs (options h))]
             else []).
Proof.
  intros Hclosed Hw. unfold openPort, bind, gets. rewrite Hclosed.
  destruct h as [p leg drv rcv rt dead st o es]. cbn. rewrite Hw.
  unfold setStatus, bind, gets, modify, emit, effect, scheduleReconnect, throw.
  cbn. rewrite andb_false_r. cbn.
  destruct dead, (autoReconnect o), rt; cbn;
    (eexists; split; [reflexivity|]); cbn; rewrite <- ?app_assoc;
    repeat split.
Qed.

(** The port object of a failed attempt exists but is not open. *)
Lemma openPort_fails_closed w h err :
  portIsOpen h = false -> openErr w = Some err ->
  portIsOpen (snd (openPort w h)) = false.
Proof.
  intros Hclosed Hw. unfold openPort, bind, gets. rewrite Hclosed.
  destruct h as [p leg drv rcv rt dead st o es]. cbn. rewrite Hw.
  unfold setStatus, bind, gets, modify, emit, effect, scheduleReconnect, throw.
  cbn. rewrite andb_false_r. cbn.
  destruct dead, (autoReconnect o), rt; reflexivity.
Qed.

End RS485Facts.

(** C2.  A call of [sendRaw] with something to send, on a port that is
    open or opens, ends the same way whether [write] succeeds, [write]
    fails or [drain] fails: it returns or throws what the write gave, the
    direction lines are back in receive state, the last things done are
    the switch to receive followed, when [turnaroundDelayMs] is positive,
    by a pause of that length, and the lines are left exactly as they
    would be for any other outcome of the write. *)
Theorem sendRaw_restores_receive_direction
    (w : RS485.World) (payload : RS485.Payload) (h : RS485.Handler) :
  RS485.emptyPayload payload = false ->
  RS485.portReady w h ->
  let h' := snd (RS485.sendRaw w payload h) in
  fst (RS485.sendRaw w payload h) = RS485.writeOutcome w
  /\ RS485.inReceiveState h'
  /\ (exists pre mid,
        RS485.effects h'
        = pre ++ RS485.PortWrite (RS485.payloadBytes payload) :: mid
              ++ RS485.receiveWrites h
              ++ (if RS485.turnaroundDelayMs (RS485.options h) >? 0
                  then [RS485.Sleep (RS485.turnaroundDelayMs (RS485.options h))]
                  else []))
  /\ (forall w', RS485.portReady w' h ->
        RS485.lines (snd (RS485.sendRaw w' payload h)) = RS485.lines h').
Proof.
  intros Hne Hready h'.
  destruct (RS485Facts.sendRaw_run w payload h Hne Hready)
    as (k & E & _ & L & R & F & _).
  subst h'. rewrite E. cbn [fst snd].
  split; [reflexivity|]. split; [exact R|]. split; [exact F|].
  intros w' Hready'.
  destruct (RS485Facts.sendRaw_run w' payload h Hne Hready')
    as (k' & E' & _ & L' & _).
  rewrite E'. cbn [snd]. congruence.
Qed.

Lemma sendRaw_restores_receive_direction_witness :
  let h := snd (RS485.init RS485.calm (RS485.new RS485.DEFAULT_OPTIONS)) in
  let w := {| RS485.openErr := None;
              RS485.writeErr := Some (JS.mkError "EIO");
              RS485.drainErr := None; RS485.closeErr := None;
              RS485.platformLinux := true;
              RS485.gpioAvailable := fun _ => true;
              RS485.writeSyncErr := fun _ => None |} in
  fst (RS485.sendRaw w (RS485.PString "ping") h) = Eff.Thrown (JS.mkError "EIO")
  /\ RS485.inReceiveState (snd (RS485.sendRaw w (RS485.PString "ping") h)).
Proof.
  intros h w.
  destruct (sendRaw_restores_receive_direction w (RS485.PString "ping") h)
    as (H1 & H2 & _).
  - reflexivity.
  - left. reflexivity.
  - split; [exact H1|exact H2].
Defined.

(** C10.  A call of [sendRaw] with an empty payload (the empty string,
    the one falsy string, or a buffer of length zero) returns at once and
    leaves the handler as it was: the port is not opened, no line is
    written, no byte is sent and nothing is waited for. *)
Theorem sendRaw_empty_is_noop
    (w : RS485.World) (payload : RS485.Payload) (h : RS485.Handler) :
  RS485.emptyPayload payload = true ->
  RS485.sendRaw w payload h = (Eff.Returned tt, h).
Proof.
  intros He. unfold RS485.sendRaw. now rewrite He.
Qed.

Lemma sendRaw_empty_is_noop_witness :
  let h := RS485.new RS485.DEFAULT_OPTIONS in
  let w := RS485.unplugged (JS.mkError "ENOENT") in
  RS485.sendRaw w (RS485.PBuffer EmptyString) h = (Eff.Returned tt, h)
  /\ RS485.sendRaw w (RS485.PString EmptyString) h = (Eff.Returned tt, h).
Proof.
  intros h w.
  split; apply sendRaw_empty_is_noop; reflexivity.
Defined.

(** C9.  When opening the port fails on a handler that has not been
    destroyed, the status becomes fail, the status change and the error
    are emitted as events, and, when auto-reconnect is enabled, a
    reconnect timer is armed (unless one is armed already).  The failure
    is never fatal: it is handed to the caller that awaits the attempt,
    [init] after it has set up the lines or [sendRaw] before it touches
    them; and when the attempt is made by the callback of the reconnect
    timer, the callback catches the error, emits it as an error event
    and returns normally, with the timer armed again. *)
Theorem openPort_failure_is_contained
    (w : RS485.World) (h : RS485.Handler) (err : JS.Error) :
  RS485.portIsOpen h = false ->
  RS485.openErr w = Some err ->
  RS485.destroyed h = false ->
  let schedule (armed : bool) :=
    if RS485.autoReconnect (RS485.options h) && negb armed
    then [RS485.SetReconnectTimer (RS485.reconnectIntervalMs (RS485.options h))]
    else [] in
  let h' := snd (RS485.openPort w h) in
  let k := snd (RS485.reconnectTick w h) in
  (fst (RS485.openPort w h) = Eff.Thrown err
   /\ RS485.status h' = RS485.fail
   /\ RS485.portIsOpen h' = false
   /\ RS485.effects h'
      = RS485.effects h
        ++ [RS485.PortOpen; RS485.Emit (RS485.OnStatus RS485.fail);
            RS485.Emit (RS485.OnError err)]
        ++ schedule (RS485.reconnectTimer h)
   /\ RS485.reconnectTimer h'
      = (RS485.reconnectTimer h || RS485.autoReconnect (RS485.options h))
   /\ (RS485.autoReconnect (RS485.options h) = true ->
       RS485.reconnectTimer h' = true))
  /\ (fst (RS485.reconnectTick w h) = Eff.Returned tt
      /\ RS485.status k = RS485.fail
      /\ RS485.portIsOpen k = false
      /\ RS485.effects k
         = RS485.effects h
           ++ [RS485.PortOpen; RS485.Emit (RS485.OnStatus RS485.fail);
               RS485.Emit (RS485.OnError err)]
           ++ schedule false
           ++ [RS485.Emit (RS485.OnError err)]
      /\ RS485.reconnectTimer k = RS485.autoReconnect (RS485.options h))
  /\ (forall payload,
        RS485.emptyPayload payload = false ->
        RS485.sendRaw w payload h = (Eff.Thrown err, h'))
  /\ (forall h0,
        RS485.destroyed h0 = false ->
        RS485.ensureControlPins w h0 = (Eff.Returned tt, h) ->
        RS485.init w h0 = (Eff.Thrown err, h')).
Proof.
  intros Hclosed Hw Hd schedule h' k.
  destruct (RS485Facts.openPort_fails w h err Hclosed Hw)
    as (k1 & E & Hs & _ & _ & _ & Ht & He).
  pose proof (RS485Facts.openPort_fails_closed w h err Hclosed Hw) as Hp.
  assert (Hh' : h' = k1) by (subst h'; now rewrite E).
  fold h' in Hp. rewrite Hd in Ht, He. cbn [negb andb] in Ht, He.
  split; [|split; [|split]].
  - rewrite E. cbn [fst]. rewrite Hh'.
    split; [reflexivity|]. split; [exact Hs|]. split; [now rewrite <- Hh'|].
    split; [|split].
    + rewrite He. subst schedule. cbv beta.
      now rewrite andb_true_r, andb_comm.
    + exact Ht.
    + intros Ha. rewrite Ht, Ha. apply orb_true_r.
  - set (h1 := RS485.set_reconnectTimer false h).
    assert (Hc1 : RS485.portIsOpen h1 = false) by exact Hclosed.
    destruct (RS485Facts.openPort_fails w h1 err Hc1 Hw)
      as (k2 & E2 & Hs2 & _ & _ & _ & Ht2 & He2).
    pose proof (RS485Facts.openPort_fails_closed w h1 err Hc1 Hw) as Hp2.
    rewrite E2 in Hp2. cbn [snd] in Hp2.
    assert (Ek : RS485.reconnectTick w h
                 = RS485.emit (RS485.OnError err) k2).
    { unfold RS485.reconnectTick, Eff.bind, Eff.modify, Eff.tryCatch.
      fold h1. now rewrite E2. }
    subst k. rewrite Ek.
    unfold RS485.emit, RS485.effect, Eff.modify.
    cbn [fst snd RS485.status RS485.effects RS485.reconnectTimer].
    split; [reflexivity|]. split; [exact Hs2|]. split; [exact Hp2|].
    split.
    + rewrite He2. subst h1 schedule.
      cbn [RS485.set_reconnectTimer RS485.effects RS485.reconnectTimer
           RS485.destroyed RS485.options].
      rewrite Hd. cbn [negb andb]. rewrite andb_true_r.
      now rewrite <- !app_assoc.
    + rewrite Ht2. subst h1.
      cbn [RS485.set_reconnectTimer RS485.reconnectTimer RS485.destroyed
           RS485.options].
      now rewrite Hd.
  - intros payload Hne. unfold RS485.sendRaw. rewrite Hne.
    unfold RS485.ensurePortReady, Eff.bind, Eff.gets.
    rewrite Hclosed, E. now rewrite Hh'.
  - intros h0 Hd0 E0. unfold RS485.init, Eff.bind, Eff.gets.
    rewrite Hd0, E0, E. now rewrite Hh'.
Qed.

Lemma openPort_failure_is_contained_witness :
  let h := RS485.new RS485.DEFAULT_OPTIONS in
  let err := JS.mkError "ENOENT" in
  let w := RS485.unplugged err in
  RS485.status (snd (RS485.openPort w h)) = RS485.fail
  /\ RS485.reconnectTimer (snd (RS485.openPort w h)) = true
  /\ RS485.effects (snd (RS485.reconnectTick w h))
     = [RS485.PortOpen; RS485.Emit (RS485.OnStatus RS485.fail);
        RS485.Emit (RS485.OnError err); RS485.SetReconnectTimer 5000;
        RS485.Emit (RS485.OnError err)].
Proof.
  intros h err w.
  destruct (openPort_failure_is_contained w h err eq_refl eq_refl eq_refl)
    as ((_ & Hs & _ & _ & _ & Ht) & (_ & _ & _ & He & _) & _).
  split; [exact Hs|]. split; [apply Ht; reflexivity|exact He].
Defined.

(** C5.  Ids are compared after both sides are normalized, and normalizing
    strips the zeros in front of a digit and nothing else: a string
    without a leading zero is left as it is, and a numeric-looking string
    (decimal digits that begin with a digit other than zero) with any
    number of zeros put in front normalizes to itself.  So "005" and "5"
    both normalize to "5", as does the number 5, and "000" normalizes to
    "0".  A reply whose replyTo is the id of the current request up to
    leading zeros resolves it, "5" for "005" in particular; a reply
    whose replyTo is another number is dropped. *)
Theorem zero_padded_reply_matches :
  (forall s, JS.digitAt 0 s = true ->
     JS.stripLeadingZeros (String "0" s) = JS.stripLeadingZeros s)
  /\ (forall s, JS.leadingZeros s = O -> JS.stripLeadingZeros s = s)
  /\ (forall s k, JS.numeric s = true -> JS.leadingZeros s = O ->
        Bus.normalizeId (Some (JS.JStr (JS.repeatChar "0" k ++ s)))
        = Eff.Returned (Some s))
  /\ Bus.normalizeId (Some (JS.JStr "005")) = Eff.Returned (Some "5"%string)
  /\ Bus.normalizeId (Some (JS.JStr "5")) = Eff.Returned (Some "5"%string)
  /\ Bus.normalizeId (Some (JS.JNum 5)) = Eff.Returned (Some "5"%string)
  /\ Bus.normalizeId (Some (JS.JStr "000")) = Eff.Returned (Some "0"%string)
  /\ (forall st cur fields s s' k k',
        Bus.current st = Some cur ->
        JS.numeric s = true -> JS.leadingZeros s = O ->
        JS.numeric s' = true -> JS.leadingZeros s' = O ->
        Bus.id cur = JS.JStr (JS.repeatChar "0" k ++ s) ->
        JS.get "replyTo" fields
        = Some (JS.JStr (JS.repeatChar "0" k' ++ s')) ->
        let m := JS.JObj fields in
        (s' = s ->
         Bus.handleMessage m st
         = (Eff.Returned tt, Bus.resolveCurrent None (Some m) st)
         /\ Bus.settled (snd (Bus.handleMessage m st))
            = Bus.settled st ++ [(Bus.promise cur, Bus.Resolved (Some m))])
        /\ (s' <> s -> Bus.handleMessage m st = (Eff.Returned tt, st)))
  /\ (forall st cur fields,
        Bus.current st = Some cur ->
        Bus.id cur = JS.JStr "005" ->
        JS.get "replyTo" fields = Some (JS.JStr "5") ->
        let m := JS.JObj fields in
        Bus.handleMessage m st
        = (Eff.Returned tt, Bus.resolveCurrent None (Some m) st)
        /\ Bus.settled (snd (Bus.handleMessage m st))
           = Bus.settled st ++ [(Bus.promise cur, Bus.Resolved (Some m))]).
Proof.
  assert (General : forall st cur fields s s' k k',
        Bus.current st = Some cur ->
        JS.numeric s = true -> JS.leadingZeros s = O ->
        JS.numeric s' = true -> JS.leadingZeros s' = O ->
        Bus.id cur = JS.JStr (JS.repeatChar "0" k ++ s) ->
        JS.get "replyTo" fields
        = Some (JS.JStr (JS.repeatChar "0" k' ++ s')) ->
        Bus.handleMessage (JS.JObj fields) st
        = if String.eqb s' s
          then (Eff.Returned tt,
                Bus.resolveCurrent None (Some (JS.JObj fields)) st)
          else (Eff.Returned tt, st)).
  { intros st cur fields s s' k k' Hcur Hn Hz Hn' Hz' Hid Hget.
    rewrite (BusReplies.handleMessage_outcome _ st cur Hcur).
    unfold Bus.correlationId, Bus.aliases.
    cbn [Bus.firstPresent Bus.prop]. rewrite Hget. cbn [JS.nullish].
    rewrite (BusReplies.normalizeId_padded s' k' Hn' Hz'), Hid.
    rewrite (BusReplies.normalizeId_padded s k Hn Hz).
    reflexivity. }
  split; [exact JSFacts.stripLeadingZeros_zero|].
  split; [exact JSFacts.stripLeadingZeros_plain|].
  split; [exact BusReplies.normalizeId_padded|].
  split; [reflexivity|]. split; [reflexivity|]. split; [reflexivity|].
  split; [reflexivity|]. split.
  - intros st cur fields s s' k k' Hcur Hn Hz Hn' Hz' Hid Hget m. subst m.
    rewrite (General st cur fields s s' k k' Hcur Hn Hz Hn' Hz' Hid Hget).
    split.
    + intros ->. rewrite String.eqb_refl. split; [reflexivity|].
      now apply BusReplies.resolveCurrent_settled.
    + intros Hne. apply String.eqb_neq in Hne. now rewrite Hne.
  - intros st cur fields Hcur Hid Hget m. subst m.
    rewrite (General st cur fields "5"%string "5"%string 2%nat 0%nat Hcur
               eq_refl eq_refl eq_refl eq_refl Hid Hget).
    split; [reflexivity|]. now apply BusReplies.resolveCurrent_settled.
Qed.

Lemma zero_padded_reply_matches_witness :
  let st := Bus.run Bus.new
              [Bus.Init;
               Bus.Request [("cmd", JS.JStr "who"); ("id", JS.JStr "005")]%string None;
               Bus.SendDone 0 None] in
  let m := JS.JObj [("replyTo", JS.JStr "5"); ("name", JS.JStr "ctrl-1")]%string in
  let other := JS.JObj [("replyTo", JS.JStr "50")]%string in
  JS.stripLeadingZeros "007" = JS.stripLeadingZeros "07"
  /\ Bus.settled (snd (Bus.handleMessage m st)) = [(0%nat, Bus.Resolved (Some m))]
  /\ Bus.handleMessage other st = (Eff.Returned tt, st).
Proof.
  intros st m other.
  destruct zero_padded_reply_matches as (Hz & _ & _ & _ & _ & _ & _ & Hg & Hm).
  pose (cur := {| Bus.id := JS.JStr "005";
                  Bus.payload := [("cmd", JS.JStr "who"); ("id", JS.JStr "005")]%string;
                  Bus.timeoutMs := 500; Bus.promise := 0;
                  Bus.timer := Some 0%nat |}).
  split; [|split].
  - apply (Hz "07"%string). reflexivity.
  - apply (Hm st cur
             [("replyTo", JS.JStr "5"); ("name", JS.JStr "ctrl-1")]%string);
      reflexivity.
  - apply (Hg st cur [("replyTo", JS.JStr "50")]%string
             "5"%string "50"%string 2%nat 0%nat
             eq_refl eq_refl eq_refl eq_refl eq_refl eq_refl eq_refl).
    discriminate.
Defined.

(** C3.  The first request of a fresh manager, with payload
    {cmd: ping}, hands the transport the packet that serializes to
    {'cmd':'ping','id':'000'} (with double quotes); [sendCommand], on a
    port that is open or opens, with the newline delimiter and a write
    that succeeds, writes exactly that line followed by a newline; and the
    message {replyTo: '000', pong: true}, received after the transmission
    completed or before, resolves the promise of that request with the
    whole message. *)
Theorem ping_round_trip (timeout : option Z) :
  let ping := [("cmd", JS.JStr "ping")]%string in
  let pong := JS.JObj [("replyTo", JS.JStr "000"); ("pong", JS.JBool true)]%string in
  let line := (JS.fromSingleQuotes "{'cmd':'ping','id':'000'}" ++ JS.newline)%string in
  let st := Bus.run Bus.new [Bus.Init; Bus.Request ping timeout] in
  snd (Bus.request ping timeout (Bus.init Bus.new)) = 0%nat
  /\ (exists packet,
        map Bus.payload (Bus.sent st) = [packet]
        /\ map Bus.payload (Bus.sending st) = [packet]
        /\ forall w h,
             RS485.portReady w h ->
             RS485.writeErr w = None -> RS485.drainErr w = None ->
             RS485.delimiter (RS485.options h) = Some JS.newline ->
             fst (RS485.sendCommand w (JS.JObj packet) h) = Eff.Returned tt
             /\ RS485.writes (RS485.effects (snd (RS485.sendCommand w (JS.JObj packet) h)))
                = RS485.writes (RS485.effects h) ++ [line])
  /\ Bus.settled (Bus.run st [Bus.SendDone 0 None; Bus.Message pong])
     = [(0%nat, Bus.Resolved (Some pong))]
  /\ Bus.settled (Bus.run st [Bus.Message pong])
     = [(0%nat, Bus.Resolved (Some pong))].
Proof.
  intros ping pong line st.
  split; [reflexivity|]. split; [|split; reflexivity].
  exists [("cmd", JS.JStr "ping"); ("id", JS.JStr "000")]%string.
  split; [reflexivity|]. split; [reflexivity|].
  intros w h Hready Hw Hd Hdelim.
  unfold RS485.sendCommand, Eff.bind, Eff.gets, RS485.delimiterBuffer.
  rewrite Hdelim.
  match goal with
  | |- context [RS485.sendRaw w ?p h] =>
      destruct (RS485Facts.sendRaw_run w p h eq_refl Hready)
        as (h' & E & _ & _ & _ & _ & W)
  end.
  rewrite E. cbn [fst snd].
  split.
  - unfold RS485.writeOutcome. now rewrite Hw, Hd.
  - rewrite W. reflexivity.
Qed.

Lemma ping_round_trip_witness :
  let h := snd (RS485.init RS485.calm (RS485.new RS485.DEFAULT_OPTIONS)) in
  let packet := JS.JObj [("cmd", JS.JStr "ping"); ("id", JS.JStr "000")]%string in
  RS485.writes (RS485.effects (snd (RS485.sendCommand RS485.calm packet h)))
  = [(JS.fromSingleQuotes "{'cmd':'ping','id':'000'}" ++ JS.newline)%string].
Proof.
  intros h packet.
  destruct (ping_round_trip None) as (_ & (p & Hs & _ & H) & _).
  injection Hs as <-.
  destruct (H RS485.calm h (or_introl eq_refl) eq_refl eq_refl eq_refl) as (_ & W).
  exact W.
Defined.

(** C7.  Take a request that is current and whose transmission is
    pending, with an id that converts to a string, [name] (every string
    and every number does), and numbers that print in decimal.  When the
    transmission succeeds a timeout of [timeoutMs] is armed for it.  If
    that timeout expires while nothing but further requests and messages
    that are no reply to it have come in, the callback returns normally,
    the promise of the request is rejected with the error
    "RS485 request <name> timed out after <timeoutMs>ms", nothing else is
    settled, and the queue advances: the oldest queued request, if any,
    becomes current and its payload is the one thing handed to the
    transport. *)
Theorem unanswered_request_times_out
    (st : Bus.State) (cur : Bus.PendingRequest) (evs : list Bus.Event)
    (name : string) :
  Bus.current st = Some cur ->
  find (fun r => Nat.eqb (Bus.promise r) (Bus.promise cur)) (Bus.sending st)
    = Some cur ->
  Forall (fun e => Bus.quiet cur e = true) evs ->
  JS.toString (Bus.id cur) = Some name ->
  JS.decimals (Bus.id cur) = true ->
  JS.decimal (Bus.timeoutMs cur) = true ->
  let t := Bus.timerCount st in
  let st1 := Bus.step st (Bus.SendDone (Bus.promise cur) None) in
  let st2 := Bus.run st1 evs in
  let st3 := Bus.step st2 (Bus.Timeout t) in
  Bus.timers st1 = Bus.timers st ++ [(t, Bus.timeoutMs cur)]
  /\ Bus.handleTimeout (Bus.fireTimer t st2) = (Eff.Returned tt, st3)
  /\ Bus.settled st3
     = Bus.settled st
       ++ [(Bus.promise cur,
            Bus.Rejected
              (JS.mkError
                 ("RS485 request " ++ name ++ " timed out after "
                    ++ JS.numberToString (Bus.timeoutMs cur) ++ "ms")%string))]
  /\ Bus.current st3 = hd_error (Bus.queue st2)
  /\ Bus.queue st3 = tl (Bus.queue st2)
  /\ Bus.sent st3 = Bus.sent st ++ firstn 1 (Bus.queue st2)
  /\ Bus.sending st3 = Bus.sending st1 ++ firstn 1 (Bus.queue st2).
Proof.
  intros Hcur Hfind Hquiet Hname _ _ t st1 st2 st3.
  set (cur' := {| Bus.id := Bus.id cur; Bus.payload := Bus.payload cur;
                  Bus.timeoutMs := Bus.timeoutMs cur;
                  Bus.promise := Bus.promise cur; Bus.timer := Some t |}).
  assert (H1 : Bus.current st1 = Some cur'
               /\ Bus.timers st1 = Bus.timers st ++ [(t, Bus.timeoutMs cur)]
               /\ Bus.settled st1 = Bus.settled st
               /\ Bus.sent st1 = Bus.sent st).
  { subst st1. cbn [Bus.step]. rewrite Hfind. unfold Bus.sendSettled.
    cbn. rewrite Hcur. cbn. rewrite Nat.eqb_refl. repeat split. }
  destruct H1 as (C1 & T1 & S1 & N1).
  assert (Hquiet' : Forall (fun e => Bus.quiet cur' e = true) evs) by exact Hquiet.
  destruct (BusReplies.quiet_run evs st1 cur' C1 Hquiet')
    as (C2 & S2 & N2 & G2 & T2 & _ & _).
  fold st2 in C2, S2, N2, G2, T2.
  split; [exact T1|].
  assert (Hfire : Bus.step st2 (Bus.Timeout t)
                  = snd (Bus.handleTimeout (Bus.fireTimer t st2))).
  { cbn [Bus.step]. rewrite T2, T1.
    now rewrite BusReplies.existsb_timer_last. }
  assert (Hrun : Bus.handleTimeout (Bus.fireTimer t st2)
                 = (Eff.Returned tt,
                    Bus.resolveCurrent
                      (Some (JS.mkError
                               ("RS485 request " ++ name ++ " timed out after "
                                  ++ JS.numberToString (Bus.timeoutMs cur)
                                  ++ "ms")%string))
                      None (Bus.fireTimer t st2))).
  { unfold Bus.handleTimeout, Eff.bind, Eff.gets, Eff.lift, Eff.modify.
    cbn [Bus.fireTimer Bus.current]. rewrite C2.
    unfold Bus.timeoutError. cbn [cur' Bus.id Bus.timeoutMs].
    rewrite Hname. reflexivity. }
  subst st3. rewrite Hfire, Hrun. cbn [snd]. clear Hfire Hrun.
  split; [reflexivity|]. clearbody st2 st1.
  unfold Bus.resolveCurrent, Bus.fireTimer, Bus.processQueue.
  cbn [Bus.initialized Bus.queue Bus.current Bus.nextIdValue Bus.promises
       Bus.settled Bus.sent Bus.sending Bus.timers Bus.timerCount].
  rewrite C2.
  cbn [Bus.initialized Bus.queue Bus.current Bus.nextIdValue Bus.promises
       Bus.settled Bus.sent Bus.sending Bus.timers Bus.timerCount].
  rewrite S2, S1, N2, N1, G2.
  destruct (Bus.queue st2) as [|next rest];
    cbn [Bus.initialized Bus.queue Bus.current Bus.nextIdValue Bus.promises
         Bus.settled Bus.sent Bus.sending Bus.timers Bus.timerCount
         hd_error tl firstn];
    rewrite ?app_nil_r; repeat split; reflexivity.
Qed.

Lemma unanswered_request_times_out_witness :
  let who := [("cmd", JS.JStr "who")]%string in
  let st := Bus.run Bus.new [Bus.Init; Bus.Request who (Some 100)] in
  let evs := [Bus.Message (JS.JObj [("hello", JS.JStr "ctrl-1")]%string);
              Bus.Message (JS.JObj [("replyTo", JS.JStr "7")]%string)] in
  Bus.settled
    (Bus.step (Bus.run (Bus.step st (Bus.SendDone 0 None)) evs) (Bus.Timeout 0))
  = [(0%nat,
      Bus.Rejected (JS.mkError "RS485 request 000 timed out after 100ms"))].
Proof.
  intros who st evs.
  destruct (unanswered_request_times_out st
              {| Bus.id := JS.JStr "000";
                 Bus.payload := [("cmd", JS.JStr "who"); ("id", JS.JStr "000")]%string;
                 Bus.timeoutMs := 100; Bus.promise := 0; Bus.timer := None |}
              evs "000"%string eq_refl eq_refl)
    as (_ & _ & H & _).
  - repeat constructor.
  - reflexivity.
  - reflexivity.
  - reflexivity.
  - exact H.
Defined.

(* ------------------------------------------------------------------ *)
(** ** Order of service *)

Module BusOrder.

Import Bus.

Lemma request_accepted payload timeout st :
  let st' := fst (request payload timeout st) in
  map promise (accepted st') = map promise (accepted st) ++ [promises st]
  /\ promises st' = S (promises st).
Proof.
  unfold request.
  pose proof (BusReplies.packetIdOf_frame payload st) as F.
  destruct (packetIdOf payload st) as [pid st1]. cbn [snd] in F.
  destruct F as (_ & Fq & _ & Fp & _ & Fsent & _).
  cbn [fst].
  rewrite BusIds.processQueue_accepted, BusIds.processQueue_promises.
  unfold accepted. cbn [sent queue promises].
  rewrite Fq, Fsent, Fp, app_assoc, map_app. now split.
Qed.

(** Requests reach the transport in the order of the calls of
    [request]: the promises of the requests sent so far, then of those
    still queued, are 0, 1, 2, ... *)
Lemma fifo_order evs :
  forall st,
    map promise (accepted st) = seq 0 (promises st) ->
    map promise (accepted (run st evs)) = seq 0 (promises (run st evs)).
Proof.
  induction evs as [|e evs IH]; intros st H; [exact H|].
  unfold run. cbn [fold_left]. apply IH.
  destruct (isRequest e) eqn:Hr.
  - destruct e as [|payload timeout| | |]; try discriminate.
    cbn [step].
    destruct (request_accepted payload timeout st) as [Ha Hp].
    rewrite Ha, Hp, H, seq_S. reflexivity.
  - destruct (BusIds.step_other_accepted st e Hr) as (Ha & _ & Hp).
    now rewrite Ha, Hp.
Qed.

Lemma orderly_new : orderly new.
Proof. split; [constructor|]. cbn. auto. Qed.

(** Taking the next request once the current one is gone. *)
Lemma orderly_advance st :
  Forall (fun r => timer r = None) (queue st) ->
  current st = None -> sending st = [] -> timers st = [] ->
  orderly (processQueue st).
Proof.
  intros Hq Hc Hs Ht. unfold processQueue. rewrite Hc.
  destruct (queue st) as [|next rest] eqn:Q.
  - split; [now rewrite Q|]. rewrite Hc. auto.
  - inversion Hq as [|? ? Hn Hrest]; subst.
    split; [exact Hrest|]. cbn. left. rewrite Hs, Ht. auto.
Qed.

Lemma orderly_resolve error result st cur :
  Forall (fun r => timer r = None) (queue st) ->
  current st = Some cur -> sending st = [] ->
  cancelTimer (timer cur) (timers st) = [] ->
  orderly (resolveCurrent error result st).
Proof.
  intros Hq Hcur Hs Ht.
  unfold resolveCurrent. rewrite Hcur.
  apply orderly_advance; cbn; assumption || reflexivity.
Qed.

Lemma orderly_step st e :
  orderly st -> earlyReply st e = false -> orderly (step st e).
Proof.
  intros Hord Hearly. pose proof Hord as [Hq Ho].
  destruct e as [|payload timeout|m|p err|t]; cbn [step].
  - exact Hord.
  - unfold request.
    pose proof (BusReplies.packetIdOf_frame payload st) as F.
    destruct (packetIdOf payload st) as [pid st1]. cbn [snd] in F.
    destruct F as (_ & Fq & Fc & _ & _ & _ & Fsend & Ft & _).
    cbn [fst].
    destruct (current st) as [cur|] eqn:Hcur.
    + rewrite (BusReplies.processQueue_busy _ cur) by (cbn; congruence).
      split; cbn.
      * rewrite Fq. apply Forall_app. split; [exact Hq|]. now repeat constructor.
      * rewrite Fc, Fsend, Ft. exact Ho.
    + destruct Ho as (Hs & Ht & Hqe).
      apply orderly_advance; cbn; try congruence.
      rewrite Fq, Hqe. now repeat constructor.
  - destruct (initialized st); [|exact Hord].
    destruct (current st) as [cur|] eqn:Hcur.
    + rewrite (BusReplies.handleMessage_spec m st cur Hcur).
      destruct (isReplyTo cur m) eqn:Hr; [|exact Hord].
      assert (Hs : sending st = []).
      { unfold earlyReply in Hearly. rewrite Hcur, Hr in Hearly.
        destruct (sending st); [reflexivity|discriminate]. }
      apply (orderly_resolve None (Some m) st cur Hq Hcur Hs).
      destruct Ho as [(Hs' & _) | (_ & t & Ht & [Hts|Hts])]; [congruence| |];
        rewrite Ht, Hts; cbn; now rewrite ?Nat.eqb_refl.
    + destruct (BusIds.handleMessage_cases m st) as [-> | ->]; [exact Hord|].
      unfold resolveCurrent. rewrite Hcur. exact Hord.
  - destruct (find _ (sending st)) as [next|] eqn:Hfind; [|exact Hord].
    destruct (current st) as [cur|] eqn:Hcur.
    + destruct Ho as [(Hs & Ht & Hts) | (Hs & _)].
      * rewrite Hs in Hfind. cbn in Hfind.
        destruct (Nat.eqb (promise cur) p) eqn:Hp; [|discriminate].
        injection Hfind as <-.
        unfold sendSettled. rewrite Hs. cbn [filter]. rewrite Nat.eqb_refl.
        cbn [negb].
        destruct err as [e|].
        -- apply (orderly_resolve (Some e) None _ cur); cbn; try assumption;
             try reflexivity.
           now rewrite Ht, Hts.
        -- split; [exact Hq|]. cbn. rewrite Hcur. cbn. rewrite Nat.eqb_refl.
           right. split; [reflexivity|]. exists (timerCount st). cbn.
           rewrite Hts. split; [reflexivity|now left].
      * rewrite Hs in Hfind. discriminate.
    + destruct Ho as (Hs & _). rewrite Hs in Hfind. discriminate.
  - destruct (existsb _ (timers st)) eqn:Hex; [|exact Hord].
    destruct (current st) as [cur|] eqn:Hcur.
    + destruct Ho as [(_ & _ & Hts) | (Hs & t' & Ht & [Hts|Hts])].
      * rewrite Hts in Hex. discriminate.
      * rewrite Hts in Hex. cbn in Hex. rewrite orb_false_r in Hex.
        apply Nat.eqb_eq in Hex. subst t'.
        destruct (BusIds.handleTimeout_cases (fireTimer t st))
          as [-> | (error & ->)].
        -- split; [exact Hq|]. cbn [fireTimer current sending timers].
           rewrite Hcur. right. split; [exact Hs|]. exists t.
           split; [exact Ht|]. right. rewrite Hts. cbn.
           now rewrite Nat.eqb_refl.
        -- apply (orderly_resolve _ _ _ cur); cbn; try assumption.
           rewrite Ht, Hts. cbn. rewrite Nat.eqb_refl. reflexivity.
      * rewrite Hts in Hex. discriminate.
    + destruct Ho as (_ & Hts & _). rewrite Hts in Hex. discriminate.
Qed.

(** As long as no reply comes too early, at most one transmission is in
    flight, and it is that of the current request. *)
Lemma one_transmission_at_a_time evs :
  forall st,
    orderly st -> noEarlyReply st evs ->
    orderly (run st evs)
    /\ (List.length (sending (run st evs)) <= 1)%nat
    /\ (forall r, In r (sending (run st evs)) -> current (run st evs) = Some r).
Proof.
  induction evs as [|e evs IH]; intros st Hord Hno.
  - cbn. split; [exact Hord|].
    destruct Hord as [_ Ho].
    destruct (current st) as [cur|].
    + destruct Ho as [(Hs & _) | (Hs & _)]; rewrite Hs; cbn; split;
        try lia; intros r [<-|[]]; reflexivity || contradiction.
    + destruct Ho as (Hs & _). rewrite Hs. cbn. split; [lia|]. intros r [].
  - destruct Hno as [He Hrest].
    unfold run. cbn [fold_left].
    apply IH; [now apply orderly_step|exact Hrest].
Qed.

End BusOrder.

(** C1.  At most one request is current (the manager has one [current]
    field) and requests are taken from the queue oldest first, but
    transmissions can overlap: a reply to the current request that
    arrives while its [sendCommand] is still pending resolves it and
    starts the next request's [sendCommand] at once, so two
    transmissions are in flight.  The first one then arms its timeout
    for a request that is already settled; when that timeout expires it
    rejects whichever request is current then, and if the first
    transmission fails instead, its error rejects that request. *)
Theorem early_reply_overlaps_transmissions :
  let a := [("cmd", JS.JStr "a")]%string in
  let b := [("cmd", JS.JStr "b")]%string in
  let reply := JS.JObj [("replyTo", JS.JStr "000")]%string in
  let err := JS.mkError "EIO" in
  let st := Bus.run Bus.new
              [Bus.Init; Bus.Request a None; Bus.Request b None;
               Bus.Message reply] in
  map Bus.promise (Bus.sending st) = [0; 1]%nat
  /\ option_map Bus.promise (Bus.current st) = Some 1%nat
  /\ Bus.settled st = [(0%nat, Bus.Resolved (Some reply))]
  /\ Bus.timers (Bus.run st [Bus.SendDone 0 None]) = [(0%nat, 500)]
  /\ Bus.settled (Bus.run st [Bus.SendDone 0 None; Bus.SendDone 1 None; Bus.Timeout 0])
     = [(0%nat, Bus.Resolved (Some reply));
        (1%nat, Bus.Rejected (JS.mkError "RS485 request 001 timed out after 500ms"))]
  /\ Bus.settled (Bus.run st [Bus.SendDone 0 (Some err)])
     = [(0%nat, Bus.Resolved (Some reply)); (1%nat, Bus.Rejected err)].
Proof. vm_compute. repeat split. Qed.

(* ------------------------------------------------------------------ *)
(** ** The connection monitor *)

Module MonitorFacts.

Import Monitor.

Lemma markRemoteDisconnected_connected now why overrideError d :
  connected (remote d) = true ->
  let d' := fst (markRemoteDisconnected now why overrideError d) in
  snd (markRemoteDisconnected now why overrideError d) = true
  /\ connected (remote d') = false
  /\ disconnectedAt (remote d') = Some now
  /\ reason (remote d') = why
  /\ status d' = match status d with
                 | RS485.connected => RS485.disconnected
                 | s => s
                 end
  /\ statusUpdates d' = statusUpdates d
  /\ heartbeatMonitorTimer d' = heartbeatMonitorTimer d.
Proof.
  intros Hc. unfold markRemoteDisconnected. rewrite Hc. cbn. repeat split.
Qed.

Lemma hello_refreshes now name fields d :
  JS.get "hello" fields = Some (JS.JStr name) ->
  let d' := handleRemotePayload now (JS.JObj fields) d in
  connected (remote d') = true
  /\ lastHeartbeat (remote d') = Some now
  /\ device (remote d') = Some name
  /\ status d' = RS485.connected.
Proof.
  intros Hget. unfold handleRemotePayload. cbn. rewrite Hget.
  destruct (option_string_eqb (device (remote d)) (Some name)) eqn:E.
  - repeat split.
    destruct (device (remote d)) as [x|]; cbn in E; [|discriminate].
    apply String.eqb_eq in E. now subst.
  - repeat split.
Qed.

End MonitorFacts.

(** C8.  The monitor, once started with a positive heartbeat timeout,
    ticks every max(1000, timeout / 2) milliseconds, the half being
    rounded down.  A tick that finds the remote connected with a last
    heartbeat (a time stamp, hence not zero) older than the timeout marks
    it disconnected, records the time, sets the reason to "Remote
    heartbeat timeout", turns a link status of connected into
    disconnected and leaves any other status alone; a tick that finds the
    heartbeat recent enough changes nothing.  In particular, after a
    hello from "ctrl-1" the remote is connected, and a tick later than
    the timeout marks it disconnected with that reason. *)
Theorem heartbeat_staleness (T : Z) :
  (forall d,
     Monitor.heartbeatMonitorTimer d = None -> 0 < T ->
     Monitor.heartbeatMonitorTimer (Monitor.startHeartbeatMonitor T d)
     = Some (Z.max 1000 (T / 2)))
  /\ (forall d now stamp hb,
        Monitor.connected (Monitor.remote d) = true ->
        Monitor.lastHeartbeat (Monitor.remote d) = Some hb ->
        hb <> 0 ->
        now - hb > T ->
        let d' := Monitor.heartbeatTick T now stamp d in
        Monitor.connected (Monitor.remote d') = false
        /\ Monitor.disconnectedAt (Monitor.remote d') = Some stamp
        /\ Monitor.reason (Monitor.remote d') = Some "Remote heartbeat timeout"%string
        /\ Monitor.status d'
           = match Monitor.status d with
             | RS485.connected => RS485.disconnected
             | s => s
             end)
  /\ (forall d now stamp hb,
        Monitor.lastHeartbeat (Monitor.remote d) = Some hb ->
        now - hb <= T ->
        Monitor.heartbeatTick T now stamp d = d)
  /\ (forall d t0 now stamp fields,
        JS.get "hello" fields = Some (JS.JStr "ctrl-1") ->
        t0 <> 0 ->
        now - t0 > T ->
        let d1 := Monitor.handleRemotePayload t0 (JS.JObj fields) d in
        let d2 := Monitor.heartbeatTick T now stamp d1 in
        Monitor.connected (Monitor.remote d1) = true
        /\ Monitor.connected (Monitor.remote d2) = false
        /\ Monitor.reason (Monitor.remote d2) = Some "Remote heartbeat timeout"%string
        /\ Monitor.status d2 = RS485.disconnected).
Proof.
  assert (Stale : forall d now stamp hb,
        Monitor.connected (Monitor.remote d) = true ->
        Monitor.lastHeartbeat (Monitor.remote d) = Some hb ->
        hb <> 0 ->
        now - hb > T ->
        Monitor.heartbeatTick T now stamp d
        = Monitor.broadcastStatusUpdate
            (fst (Monitor.markRemoteDisconnected stamp
                    (Some "Remote heartbeat timeout"%string) true d))).
  { intros d now stamp hb Hc Hl Hz Hage.
    unfold Monitor.heartbeatTick. rewrite Hl, Hc. cbn [Monitor.nonZero negb].
    destruct (Z.eqb_spec hb 0) as [|_]; [contradiction|]. cbn [negb].
    destruct (Z.gtb_spec (now - hb) T) as [_|]; [|lia].
    destruct (MonitorFacts.markRemoteDisconnected_connected stamp
                (Some "Remote heartbeat timeout"%string) true d Hc) as (Hs & _).
    destruct (Monitor.markRemoteDisconnected _ _ _ d) as [d' changed].
    cbn [snd] in Hs. subst changed. reflexivity. }
  split; [|split; [|split]].
  - intros d Hnone Hpos. unfold Monitor.startHeartbeatMonitor.
    rewrite Hnone. cbn [Monitor.isSome orb].
    destruct (Z.leb_spec T 0); [lia|]. reflexivity.
  - intros d now stamp hb Hc Hl Hz Hage d'. subst d'.
    rewrite (Stale d now stamp hb Hc Hl Hz Hage).
    destruct (MonitorFacts.markRemoteDisconnected_connected stamp
                (Some "Remote heartbeat timeout"%string) true d Hc)
      as (_ & H1 & H2 & H3 & H4 & _).
    cbn [Monitor.broadcastStatusUpdate Monitor.remote Monitor.status].
    auto.
  - intros d now stamp hb Hl Hage. unfold Monitor.heartbeatTick.
    rewrite Hl. destruct (negb (Monitor.nonZero (Some hb))); [reflexivity|].
    destruct (negb (Monitor.connected (Monitor.remote d))); [reflexivity|].
    destruct (Z.gtb_spec (now - hb) T); [lia|reflexivity].
  - intros d t0 now stamp fields Hget Hz Hage d1 d2.
    destruct (MonitorFacts.hello_refreshes t0 "ctrl-1"%string fields d Hget)
      as (Hc & Hl & _ & Hs).
    fold d1 in Hc, Hl, Hs.
    split; [exact Hc|]. subst d2.
    rewrite (Stale d1 now stamp t0 Hc Hl Hz Hage).
    destruct (MonitorFacts.markRemoteDisconnected_connected stamp
                (Some "Remote heartbeat timeout"%string) true d1 Hc)
      as (_ & H1 & _ & H3 & H4 & _).
    cbn [Monitor.broadcastStatusUpdate Monitor.remote Monitor.status].
    rewrite Hs in H4. auto.
Qed.

Lemma heartbeat_staleness_witness :
  let d1 := Monitor.handleRemotePayload 1700000000000
              (JS.JObj [("hello", JS.JStr "ctrl-1")]%string) Monitor.new in
  let d2 := Monitor.heartbeatTick 15000 1700000015001 1700000015001 d1 in
  Monitor.heartbeatMonitorTimer (Monitor.startHeartbeatMonitor 15000 Monitor.new)
  = Some 7500
  /\ Monitor.connected (Monitor.remote d1) = true
  /\ Monitor.connected (Monitor.remote d2) = false
  /\ Monitor.reason (Monitor.remote d2) = Some "Remote heartbeat timeout"%string.
Proof.
  intros d1 d2.
  destruct (heartbeat_staleness 15000) as (Hi & _ & _ & Hh).
  split.
  - apply (Hi Monitor.new); [reflexivity|lia].
  - destruct (Hh Monitor.new 1700000000000 1700000015001 1700000015001
                [("hello", JS.JStr "ctrl-1")]%string)
      as (H1 & H2 & H3 & _); [reflexivity|lia|lia|].
    repeat split; assumption.
Defined.

(* ================================================================== *)
(** * Further properties of the code *)

(* ------------------------------------------------------------------ *)
(** ** The transaction manager: bookkeeping *)

Module BusTrack.
Import Bus.

Lemma processQueue_whereabouts st :
  whereabouts (processQueue st) = whereabouts st.
Proof.
  unfold processQueue, whereabouts.
  destruct (current st) eqn:Hc; [now rewrite Hc|].
  destruct (queue st) as [|next rest] eqn:Hq; cbn [settled current queue].
  - now rewrite Hc, Hq.
  - reflexivity.
Qed.

Lemma resolveCurrent_whereabouts error result st :
  whereabouts (resolveCurrent error result st) = whereabouts st.
Proof.
  unfold resolveCurrent. destruct (current st) as [cur|] eqn:Hc; [|reflexivity].
  rewrite processQueue_whereabouts. unfold whereabouts.
  cbn [settled current queue]. rewrite Hc, map_app, <- app_assoc. reflexivity.
Qed.

Lemma setTimer_promise p t r :
  match setTimer p t r with Some cur => [promise cur] | None => [] end
  = match r with Some cur => [promise cur] | None => [] end.
Proof.
  unfold setTimer. destruct r as [cur|]; [|reflexivity].
  destruct (Nat.eqb (promise cur) p); reflexivity.
Qed.

Lemma step_other_whereabouts st e :
  isRequest e = false -> whereabouts (step st e) = whereabouts st.
Proof.
  destruct e as [|payload timeout|m|p err|t]; cbn [isRequest step]; intros H;
    try discriminate.
  - reflexivity.
  - destruct (initialized st); [|reflexivity].
    destruct (BusIds.handleMessage_cases m st) as [-> | ->]; [reflexivity|].
    apply resolveCurrent_whereabouts.
  - destruct (find _ _) as [next|]; [|reflexivity].
    unfold sendSettled. destruct err as [e|].
    + now rewrite resolveCurrent_whereabouts.
    + unfold whereabouts. cbn [settled current queue]. now rewrite setTimer_promise.
  - destruct (existsb _ _); [|reflexivity].
    destruct (BusIds.handleTimeout_cases (fireTimer t st))
      as [-> | (error & ->)]; [reflexivity|].
    now rewrite resolveCurrent_whereabouts.
Qed.

Lemma request_whereabouts payload timeout st :
  let st' := fst (request payload timeout st) in
  whereabouts st' = whereabouts st ++ [promises st].
Proof.
  unfold request.
  pose proof (BusReplies.packetIdOf_frame payload st) as F.
  destruct (packetIdOf payload st) as [pid st1]. cbn [snd] in F.
  destruct F as (_ & Fq & Fc & Fp & Fs & _).
  cbn [fst]. rewrite processQueue_whereabouts. unfold whereabouts.
  cbn [settled current queue]. rewrite Fq, Fc, Fp, Fs, map_app, !app_assoc.
  reflexivity.
Qed.

Lemma whereabouts_run evs : forall st,
  whereabouts st = seq 0 (promises st) ->
  whereabouts (run st evs) = seq 0 (promises (run st evs)).
Proof.
  induction evs as [|e evs IH]; intros st H; [exact H|].
  unfold run. cbn [fold_left]. apply IH.
  destruct (isRequest e) eqn:Hr.
  - destruct e as [|payload timeout| | |]; try discriminate.
    cbn [step]. rewrite request_whereabouts.
    destruct (BusOrder.request_accepted payload timeout st) as [_ Hp].
    rewrite Hp, H, seq_S. reflexivity.
  - rewrite (step_other_whereabouts st e Hr).
    destruct (BusIds.step_other_accepted st e Hr) as (_ & _ & Hp).
    now rewrite Hp.
Qed.
End BusTrack.


Module BusIdle.
Import Bus.

Lemma lastSent_snoc st' st next :
  sent st' = sent st ++ [next] -> lastSent st' = Some (promise next).
Proof. intros H. unfold lastSent. now rewrite H, rev_app_distr. Qed.

Lemma attentive_processQueue st :
  (forall cur, current st = Some cur -> lastSent st = Some (promise cur)) ->
  attentive (processQueue st).
Proof.
  intros H. unfold processQueue, attentive.
  destruct (current st) as [cur|] eqn:Hc.
  - rewrite Hc. now apply H.
  - destruct (queue st) as [|next rest] eqn:Hq; cbn [current queue].
    + now rewrite Hc.
    + now apply (lastSent_snoc _ st next).
Qed.

Lemma attentive_frame st st' :
  current st' = current st -> queue st' = queue st -> sent st' = sent st ->
  attentive st -> attentive st'.
Proof.
  unfold attentive, lastSent. intros -> -> ->. auto.
Qed.

Lemma attentive_resolveCurrent error result st :
  attentive st -> attentive (resolveCurrent error result st).
Proof.
  intros H. unfold resolveCurrent.
  destruct (current st) as [cur|] eqn:Hc; [|exact H].
  apply attentive_processQueue. cbn. discriminate.
Qed.

Lemma attentive_step st e : attentive st -> attentive (step st e).
Proof.
  intros H.
  destruct e as [|payload timeout|m|p err|t]; cbn [step].
  - exact H.
  - unfold request.
    pose proof (BusReplies.packetIdOf_frame payload st) as F.
    destruct (packetIdOf payload st) as [pid st1]. cbn [snd] in F.
    destruct F as (_ & _ & Fc & _ & _ & Fsent & _).
    cbn [fst]. apply attentive_processQueue. cbn [current]. intros cur Hcur.
    unfold attentive in H. rewrite Fc in Hcur. rewrite Hcur in H.
    unfold lastSent in *. cbn [sent]. now rewrite Fsent.
  - destruct (initialized st); [|exact H].
    destruct (BusIds.handleMessage_cases m st) as [-> | ->]; [exact H|].
    now apply attentive_resolveCurrent.
  - destruct (find _ _) as [next|]; [|exact H].
    unfold sendSettled. destruct err as [e|].
    + apply attentive_resolveCurrent.
      now apply (attentive_frame st).
    + unfold attentive, lastSent in *. cbn [current queue sent]. unfold setTimer.
      destruct (current st) as [cur|]; [|exact H].
      destruct (Nat.eqb (promise cur) (promise next)); exact H.
  - destruct (existsb _ _); [|exact H].
    assert (Hf : attentive (fireTimer t st)) by now apply (attentive_frame st).
    destruct (BusIds.handleTimeout_cases (fireTimer t st))
      as [-> | (error & ->)]; [exact Hf|].
    now apply attentive_resolveCurrent.
Qed.

Lemma attentive_run evs : forall st, attentive st -> attentive (run st evs).
Proof.
  induction evs as [|e evs IH]; intros st H; [exact H|].
  unfold run. cbn [fold_left]. apply IH. now apply attentive_step.
Qed.

End BusIdle.

Module JSMore.
Import JS.

Lemma get_spreadSet k k' v o :
  get k (spreadSet k' v o) = if String.eqb k' k then Some v else get k o.
Proof.
  induction o as [|[k0 v0] o IH]; cbn [spreadSet get].
  - destruct (String.eqb k' k); reflexivity.
  - destruct (String.eqb k0 k') eqn:E0; cbn [get].
    + apply String.eqb_eq in E0. subst k0.
      destruct (String.eqb k' k); reflexivity.
    + destruct (String.eqb k0 k) eqn:E1; [|exact IH].
      apply String.eqb_eq in E1. subst k0. now rewrite String.eqb_sym, E0.
Qed.

Lemma spreadSet_same k v o : get k o = Some v -> spreadSet k v o = o.
Proof.
  induction o as [|[k0 v0] o IH]; cbn [spreadSet get]; [discriminate|].
  destruct (String.eqb k0 k); intros H.
  - now injection H as ->.
  - now rewrite IH.
Qed.

Lemma drop_drop j k s : drop j (drop k s) = drop (k + j) s.
Proof.
  revert s. induction k as [|k IH]; intros s; [reflexivity|].
  destruct s as [|c s]; cbn [drop Nat.add].
  - now destruct j.
  - apply IH.
Qed.

Lemma digitAt_drop j k s : digitAt j (drop k s) = digitAt (k + j) s.
Proof. unfold digitAt. now rewrite drop_drop. Qed.

Lemma leadingZeros_drop s : forall k,
  (k <= leadingZeros s)%nat ->
  leadingZeros (drop k s) = (leadingZeros s - k)%nat.
Proof.
  induction s as [|c s IH]; intros k Hk.
  - now destruct k.
  - destruct k as [|k]; [cbn [drop]; lia|].
    cbn [leadingZeros] in *. destruct (byte_is c 48); [|lia].
    cbn [drop]. rewrite IH by lia. lia.
Qed.

Lemma stripLeadingZeros_none s :
  leadingZeros s = O -> stripLeadingZeros s = s.
Proof. intros H. unfold stripLeadingZeros. now rewrite H. Qed.

Lemma stripLeadingZeros_idempotent s :
  stripLeadingZeros (stripLeadingZeros s) = stripLeadingZeros s.
Proof.
  destruct (leadingZeros s) as [|k] eqn:Hz.
  - now rewrite !(stripLeadingZeros_none s Hz).
  - assert (E : stripLeadingZeros s =
                if digitAt (S k) s then drop (S k) s
                else match k with O => s | S _ => drop k s end).
    { unfold stripLeadingZeros.
      rewrite (JSFacts.matchZeros_closed s (leadingZeros s)) by lia.
      rewrite Hz. destruct (digitAt (S k) s); [reflexivity|].
      destruct k; reflexivity. }
    rewrite E. destruct (digitAt (S k) s) eqn:Hd.
    + apply stripLeadingZeros_none. rewrite leadingZeros_drop by lia. lia.
    + destruct k as [|k']; [exact E|].
      assert (L : leadingZeros (drop (S k') s) = 1%nat)
        by (rewrite leadingZeros_drop by lia; lia).
      unfold stripLeadingZeros. rewrite L. cbn [matchZeros].
      rewrite digitAt_drop.
      replace (S k' + 1)%nat with (S (S k')) by lia. now rewrite Hd.
Qed.
End JSMore.

Module BusPacket.
Import Bus.

Lemma request_entry body timeout st :
  let st' := fst (request body timeout st) in
  exists entry,
    accepted st' = accepted st ++ [entry]
    /\ promise entry = promises st
    /\ promise entry = snd (request body timeout st)
    /\ timer entry = None
    /\ timeoutMs entry = match timeout with Some t => t | None => 500 end
    /\ id entry = fst (packetIdOf body st)
    /\ payload entry = JS.spreadSet "id" (id entry) body
    /\ nextIdValue st' = nextIdValue (snd (packetIdOf body st)).
Proof.
  unfold request.
  pose proof (BusReplies.packetIdOf_frame body st) as F.
  destruct (packetIdOf body st) as [pid st1]. cbn [snd fst] in *.
  destruct F as (_ & Fq & _ & Fp & _ & Fsent & _).
  eexists. rewrite BusIds.processQueue_accepted, BusIds.processQueue_nextIdValue.
  unfold accepted. cbn [sent queue nextIdValue].
  split; [now rewrite Fq, Fsent, app_assoc|].
  cbn. repeat split; assumption.
Qed.

Lemma packetIdOf_given body st v :
  JS.get "id" body = Some v -> JS.nullish (Some v) = false ->
  packetIdOf body st = (v, st).
Proof. intros H N. unfold packetIdOf. now rewrite H, N. Qed.

Lemma request_packet
    (body : JS.object) (timeout : option Z) (st : Bus.State) :
  let st' := fst (Bus.request body timeout st) in
  exists entry,
    Bus.sent st' ++ Bus.queue st' = (Bus.sent st ++ Bus.queue st) ++ [entry]
    /\ Bus.promise entry = snd (Bus.request body timeout st)
    /\ Bus.timeoutMs entry = match timeout with Some t => t | None => 500 end
    /\ JS.get "id" (Bus.payload entry) = Some (Bus.id entry)
    /\ (forall k, k <> "id"%string ->
          JS.get k (Bus.payload entry) = JS.get k body)
    /\ (forall v, JS.get "id" body = Some v -> JS.nullish (Some v) = false ->
          Bus.id entry = v /\ Bus.payload entry = body
          /\ Bus.nextIdValue st' = Bus.nextIdValue st).
Proof.
  intros st'.
  destruct (request_entry body timeout st)
    as (entry & Ha & _ & Hp & _ & Ht & Hi & Hb & Hn).
  exists entry. split; [exact Ha|]. split; [exact Hp|]. split; [exact Ht|].
  split; [|split].
  - rewrite Hb, JSMore.get_spreadSet. now rewrite String.eqb_refl.
  - intros k Hk. rewrite Hb, JSMore.get_spreadSet.
    destruct (String.eqb_spec "id" k); [congruence|reflexivity].
  - intros v Hv Hnn.
    rewrite (packetIdOf_given body st v Hv Hnn) in Hi, Hn.
    cbn [fst snd] in Hi, Hn. subst st'.
    split; [exact Hi|]. split; [|exact Hn].
    rewrite Hb, Hi. now apply JSMore.spreadSet_same.
Qed.

End BusPacket.


Module BusCount.

Import Bus.

Lemma accepted_length evs : forall st,
  List.length (accepted (run st evs))
  = (List.length (accepted st) + requestCount evs)%nat.
Proof.
  induction evs as [|e evs IH]; intros st; [cbn; lia|].
  unfold run. cbn [fold_left]. fold (run (step st e) evs). rewrite IH.
  unfold requestCount. cbn [filter].
  destruct (isRequest e) eqn:Hr.
  - destruct e as [|body timeout| | |]; try discriminate. cbn [step].
    destruct (BusOrder.request_accepted body timeout st) as [Ha _].
    cbv zeta in Ha. apply (f_equal (@List.length nat)) in Ha.
    rewrite length_map, length_app, length_map in Ha.
    cbn [List.length] in *. lia.
  - destruct (BusIds.step_other_accepted st e Hr) as (Ha & _).
    now rewrite Ha.
Qed.

Lemma app_eq_same_length {A} (l1 l1' l2 l2' : list A) :
  l1 ++ l2 = l1' ++ l2' -> List.length l1 = List.length l1' ->
  l1 = l1' /\ l2 = l2'.
Proof.
  revert l1'. induction l1 as [|a l1 IH]; intros [|a' l1'] H L;
    try discriminate; [now split|].
  cbn in H, L. injection H as -> H. injection L as L.
  destruct (IH l1' H L) as [-> ->]. now split.
Qed.

End BusCount.

(** X1.  Whatever happens to a manager, requests are handed to the
    transport in the order [request] was called: the promises of the
    requests sent so far are 0, 1, 2, ... without a gap, and those still
    queued follow in order. *)
Theorem requests_reach_transport_in_call_order (evs : list Bus.Event) :
  let st := Bus.run Bus.new evs in
  map Bus.promise (Bus.sent st) = seq 0 (List.length (Bus.sent st))
  /\ map Bus.promise (Bus.queue st)
     = seq (List.length (Bus.sent st)) (List.length (Bus.queue st))
  /\ Bus.promises st = (List.length (Bus.sent st) + List.length (Bus.queue st))%nat.
Proof.
  intros st.
  assert (H : map Bus.promise (Bus.accepted st) = seq 0 (Bus.promises st))
    by (apply BusOrder.fifo_order; reflexivity).
  unfold Bus.accepted in H. rewrite map_app in H.
  assert (Hn : Bus.promises st
               = (List.length (Bus.sent st) + List.length (Bus.queue st))%nat).
  { apply (f_equal (@List.length nat)) in H.
    now rewrite length_app, !length_map, length_seq in H. }
  rewrite Hn, seq_app in H.
  apply BusCount.app_eq_same_length in H.
  - destruct H as [H1 H2]. now repeat split.
  - now rewrite length_map, length_seq.
Qed.

(** X2.  As long as no reply to the current request arrives before its
    transmission has completed, at most one transmission is in flight,
    it is that of the current request, and at most one timeout is
    armed. *)
Theorem transmissions_do_not_overlap (evs : list Bus.Event) :
  Bus.noEarlyReply Bus.new evs ->
  let st := Bus.run Bus.new evs in
  (List.length (Bus.sending st) <= 1)%nat
  /\ (forall r, In r (Bus.sending st) -> Bus.current st = Some r)
  /\ (List.length (Bus.timers st) <= 1)%nat
  /\ (Bus.sending st <> [] -> Bus.timers st = []).
Proof.
  intros Hno st.
  destruct (BusOrder.one_transmission_at_a_time evs Bus.new BusOrder.orderly_new Hno)
    as ((_ & Ho) & Hl & Hc).
  fold st in Ho, Hl, Hc.
  split; [exact Hl|]. split; [exact Hc|].
  destruct (Bus.current st) as [cur|].
  - destruct Ho as [(Hs & _ & Ht) | (Hs & t & _ & [Ht|Ht])]; rewrite Ht, ?Hs;
      cbn; split; try lia; intros; congruence.
  - destruct Ho as (Hs & Ht & _). rewrite Ht. cbn. split; [lia|reflexivity].
Qed.

Lemma transmissions_do_not_overlap_witness :
  let evs := [Bus.Init;
              Bus.Request [("cmd", JS.JStr "a")]%string None;
              Bus.Request [("cmd", JS.JStr "b")]%string None;
              Bus.SendDone 0 None;
              Bus.Message (JS.JObj [("replyTo", JS.JStr "000")]%string)] in
  (List.length (Bus.sending (Bus.run Bus.new evs)) <= 1)%nat.
Proof.
  intros evs.
  apply (transmissions_do_not_overlap evs).
  cbn. repeat split.
Defined.

(** X3.  Promises are settled in the order they were issued, each at
    most once, and none is lost: at any time the promises settled so
    far, then that of the current request, then those of the queued
    requests are exactly 0, 1, 2, ... up to the number issued. *)
Theorem promises_settle_in_call_order (evs : list Bus.Event) :
  let st := Bus.run Bus.new evs in
  Bus.whereabouts st = seq 0 (Bus.promises st)
  /\ NoDup (map fst (Bus.settled st))
  /\ (forall p, In p (map fst (Bus.settled st)) -> (p < Bus.promises st)%nat).
Proof.
  intros st.
  assert (H : Bus.whereabouts st = seq 0 (Bus.promises st))
    by (apply BusTrack.whereabouts_run; reflexivity).
  split; [exact H|].
  pose proof (seq_NoDup (Bus.promises st) 0) as N. rewrite <- H in N.
  unfold Bus.whereabouts in *.
  split.
  - now apply NoDup_app_remove_r in N.
  - intros p Hp.
    assert (Hin : In p (seq 0 (Bus.promises st))).
    { rewrite <- H. apply in_or_app. now left. }
    apply in_seq in Hin. lia.
Qed.

Lemma promises_settle_in_call_order_witness :
  let evs := [Bus.Init;
              Bus.Request [("cmd", JS.JStr "a")]%string None;
              Bus.Request [("cmd", JS.JStr "b")]%string None;
              Bus.SendDone 0 None;
              Bus.Timeout 0] in
  In 0%nat (map fst (Bus.settled (Bus.run Bus.new evs)))
  /\ (0 < Bus.promises (Bus.run Bus.new evs))%nat.
Proof.
  intros evs.
  assert (Hin : In 0%nat (map fst (Bus.settled (Bus.run Bus.new evs))))
    by (left; reflexivity).
  destruct (promises_settle_in_call_order evs) as (_ & _ & H).
  split; [exact Hin|exact (H 0%nat Hin)].
Defined.

(** X4.  A manager is never idle while a request waits: when nothing is
    current the queue is empty; and the current request is always the
    one whose payload was handed to the transport last. *)
Theorem manager_never_idle_with_work (evs : list Bus.Event) :
  let st := Bus.run Bus.new evs in
  (Bus.current st = None -> Bus.queue st = [])
  /\ (forall cur, Bus.current st = Some cur ->
        Bus.lastSent st = Some (Bus.promise cur)).
Proof.
  intros st.
  assert (H : Bus.attentive st)
    by (apply BusIdle.attentive_run; reflexivity).
  unfold Bus.attentive in H.
  split.
  - intros Hc. now rewrite Hc in H.
  - intros cur Hc. now rewrite Hc in H.
Qed.

Lemma manager_never_idle_with_work_witness :
  let st := Bus.run Bus.new
              [Bus.Init;
               Bus.Request [("cmd", JS.JStr "a")]%string None;
               Bus.Request [("cmd", JS.JStr "b")]%string None;
               Bus.SendDone 0 (Some (JS.mkError "EIO"))] in
  Bus.lastSent st = Some 1%nat.
Proof.
  intros st.
  destruct (manager_never_idle_with_work
              [Bus.Init;
               Bus.Request [("cmd", JS.JStr "a")]%string None;
               Bus.Request [("cmd", JS.JStr "b")]%string None;
               Bus.SendDone 0 (Some (JS.mkError "EIO"))]) as (_ & H).
  apply (H {| Bus.id := JS.JStr "001";
              Bus.payload := [("cmd", JS.JStr "b"); ("id", JS.JStr "001")]%string;
              Bus.timeoutMs := 500; Bus.promise := 1; Bus.timer := None |}).
  reflexivity.
Defined.

(** X5.  The packet a request hands on is the payload with its id set:
    every other field reads as in the payload.  A payload that brings an
    id other than null keeps it, is handed on unchanged, and leaves the
    rotating counter where it was. *)
Theorem request_packet_keeps_payload
    (body : JS.object) (timeout : option Z) (st : Bus.State) :
  let st' := fst (Bus.request body timeout st) in
  exists entry,
    Bus.sent st' ++ Bus.queue st' = (Bus.sent st ++ Bus.queue st) ++ [entry]
    /\ Bus.promise entry = snd (Bus.request body timeout st)
    /\ Bus.timeoutMs entry = match timeout with Some t => t | None => 500 end
    /\ JS.get "id" (Bus.payload entry) = Some (Bus.id entry)
    /\ (forall k, k <> "id"%string ->
          JS.get k (Bus.payload entry) = JS.get k body)
    /\ (forall v, JS.get "id" body = Some v -> JS.nullish (Some v) = false ->
          Bus.id entry = v /\ Bus.payload entry = body
          /\ Bus.nextIdValue st' = Bus.nextIdValue st).
Proof. apply BusPacket.request_packet. Qed.

Lemma request_packet_keeps_payload_witness :
  let body := [("id", JS.JStr "abc"); ("cmd", JS.JStr "who")]%string in
  Bus.nextIdValue (fst (Bus.request body None Bus.new)) = 0.
Proof.
  intros body.
  destruct (request_packet_keeps_payload body None Bus.new)
    as (entry & _ & _ & _ & _ & _ & H).
  destruct (H (JS.JStr "abc") eq_refl eq_refl) as (_ & _ & Hn).
  exact Hn.
Defined.

(** X6.  While a request is current, further calls of [request] and
    messages that are no reply to it only make the queue longer, by one
    per call: nothing is handed to the transport, nothing is settled, no
    timeout is armed or cleared, and the current request stays. *)
Theorem busy_manager_only_queues
    (st : Bus.State) (cur : Bus.PendingRequest) (evs : list Bus.Event) :
  Bus.current st = Some cur ->
  Forall (fun e => Bus.quiet cur e = true) evs ->
  let st' := Bus.run st evs in
  Bus.current st' = Some cur
  /\ Bus.sent st' = Bus.sent st /\ Bus.sending st' = Bus.sending st
  /\ Bus.settled st' = Bus.settled st /\ Bus.timers st' = Bus.timers st
  /\ List.length (Bus.queue st')
     = (List.length (Bus.queue st) + Bus.requestCount evs)%nat.
Proof.
  intros Hcur Hq st'.
  destruct (BusReplies.quiet_run evs st cur Hcur Hq)
    as (C & S1 & S2 & S3 & S4 & _ & _).
  fold st' in C, S1, S2, S3, S4.
  repeat split; try assumption.
  pose proof (BusCount.accepted_length evs st) as L. fold st' in L.
  unfold Bus.accepted in L. rewrite !length_app, S2 in L. lia.
Qed.

Lemma busy_manager_only_queues_witness :
  let st := Bus.run Bus.new [Bus.Init; Bus.Request [("cmd", JS.JStr "a")]%string None] in
  let evs := [Bus.Request [("cmd", JS.JStr "b")]%string None;
              Bus.Message (JS.JObj [("replyTo", JS.JStr "9")]%string);
              Bus.Request [("cmd", JS.JStr "c")]%string None] in
  List.length (Bus.sent (Bus.run st evs)) = 1%nat
  /\ List.length (Bus.queue (Bus.run st evs)) = 2%nat.
Proof.
  intros st evs.
  destruct (busy_manager_only_queues st
              {| Bus.id := JS.JStr "000";
                 Bus.payload := [("cmd", JS.JStr "a"); ("id", JS.JStr "000")]%string;
                 Bus.timeoutMs := 500; Bus.promise := 0; Bus.timer := None |}
              evs eq_refl)
    as (_ & Hs & _ & _ & _ & Hq).
  - repeat constructor.
  - split; [now rewrite Hs|exact Hq].
Defined.

(** X7.  Stripping leading zeros is stable: applied to its own result,
    the replacement of [normalizeId] changes nothing. *)
Theorem stripLeadingZeros_is_idempotent (s : string) :
  JS.stripLeadingZeros (JS.stripLeadingZeros s) = JS.stripLeadingZeros s.
Proof. apply JSMore.stripLeadingZeros_idempotent. Qed.

Module DaemonFacts.

Import Daemon.

Lemma packetId_not_nullish uuid fields :
  JS.nullish (Some (packetId uuid fields)) = false.
Proof.
  unfold packetId, JS.coalesce.
  destruct (JS.get "id" fields) as [[]|]; cbn [JS.nullish]; try reflexivity;
    destruct (JS.get "uuid" fields) as [[]|]; reflexivity.
Qed.

End DaemonFacts.

(** X8.  A command that comes in over the socket never takes an id from
    the rotating counter: it goes to the manager under its own id, else
    under its uuid, else under a fresh uuid, with the default timeout of
    500 ms and with its other fields untouched.  What is not a command
    (no string [cmd]) does not reach the manager. *)
Theorem socket_commands_keep_their_ids
    (uuid : string) (msg : JS.value) (st : Bus.State) :
  (Daemon.isCommandMessage msg = false ->
   Daemon.onSocketMessage uuid msg st = st)
  /\ (forall fields,
        msg = JS.JObj fields ->
        Daemon.isCommandMessage msg = true ->
        let st' := Daemon.onSocketMessage uuid msg st in
        Bus.nextIdValue st' = Bus.nextIdValue st
        /\ exists entry,
             Bus.sent st' ++ Bus.queue st' = (Bus.sent st ++ Bus.queue st) ++ [entry]
             /\ Bus.id entry = Daemon.packetId uuid fields
             /\ JS.nullish (Some (Bus.id entry)) = false
             /\ Bus.timeoutMs entry = 500
             /\ (forall k, k <> "id"%string ->
                   JS.get k (Bus.payload entry) = JS.get k fields)).
Proof.
  split.
  - intros H. unfold Daemon.onSocketMessage. now rewrite H.
  - intros fields -> Hcmd st'. subst st'.
    unfold Daemon.onSocketMessage. rewrite Hcmd.
    set (pid := Daemon.packetId uuid fields).
    set (packet := JS.spreadSet "id" pid fields).
    assert (Hget : JS.get "id" packet = Some pid).
    { unfold packet. rewrite JSMore.get_spreadSet. now rewrite String.eqb_refl. }
    pose proof (DaemonFacts.packetId_not_nullish uuid fields) as Hnn.
    fold pid in Hnn.
    destruct (BusPacket.request_packet packet None st)
      as (entry & Ha & _ & Ht & _ & Hk & Hv).
    destruct (Hv pid Hget Hnn) as (Hi & _ & Hn).
    split; [exact Hn|].
    exists entry. split; [exact Ha|]. split; [exact Hi|].
    split; [now rewrite Hi|]. split; [exact Ht|].
    intros k Hk'. rewrite (Hk k Hk'). unfold packet.
    rewrite JSMore.get_spreadSet.
    destruct (String.eqb_spec "id" k); [congruence|reflexivity].
Qed.

Lemma socket_commands_keep_their_ids_witness :
  let msg := JS.JObj [("cmd", JS.JStr "who"); ("uuid", JS.JStr "u-1")]%string in
  Bus.nextIdValue (Daemon.onSocketMessage "fresh" msg Bus.new) = 0.
Proof.
  intros msg.
  destruct (socket_commands_keep_their_ids "fresh" msg Bus.new) as (_ & H).
  destruct (H [("cmd", JS.JStr "who"); ("uuid", JS.JStr "u-1")]%string
              eq_refl eq_refl) as (Hn & _).
  exact Hn.
Defined.

(* ------------------------------------------------------------------ *)
(** ** The link transport: traces, reconnection and teardown *)

Module RS485Trace.
Import RS485 Eff Eff.Notations RS485Facts.

Lemma transmit_exact w buffer h :
  exists h',
    (portWrite w buffer ;; portDrain w ;; emit (OnTx buffer)) h
    = (writeOutcome w, h')
    /\ port h' = port h /\ lines h' = lines h /\ options h' = options h
    /\ status h' = status h /\ reconnectTimer h' = reconnectTimer h
    /\ destroyed h' = destroyed h
    /\ effects h' = effects h ++ wireTraffic w buffer.
Proof.
  destruct h as [p leg drv rcv rt dead st o es].
  unfold writeOutcome, wireTraffic.
  unfold portWrite, portDrain, emit, effect, bind, modify, ret, throw.
  destruct (writeErr w) eqn:Ew, (drainErr w) eqn:Ed; cbn;
    (eexists; split; [reflexivity|]); cbn; rewrite <- ?app_assoc;
    repeat split.
Qed.

Lemma release_exact h :
  exists h',
    (driveTransceiver false ;;
     delay <- gets (fun h => turnaroundDelayMs (options h)) ;;
     if delay >? 0 then sleep delay else ret tt) h = (Returned tt, h')
    /\ port h' = port h /\ options h' = options h
    /\ status h' = status h /\ reconnectTimer h' = reconnectTimer h
    /\ destroyed h' = destroyed h
    /\ effects h' = effects h ++ receiveWrites h ++ turnaround h.
Proof.
  destruct (driveTransceiver_run false h)
    as (h1 & E & Hp & Ho & Ht & Hd & Hs & _ & _ & _ & He).
  rewrite (bind_run _ _ _ _ _ E).
  unfold bind, gets, sleep, effect, modify, ret, turnaround.
  rewrite Ho.
  destruct (turnaroundDelayMs (options h) >? 0).
  - eexists; split; [reflexivity|]. cbn. repeat split; try assumption.
    rewrite He. unfold receiveWrites. rewrite <- ?app_assoc. reflexivity.
  - eexists; split; [reflexivity|]. repeat split; try assumption.
    rewrite He, app_nil_r. unfold receiveWrites. rewrite <- ?app_assoc.
    reflexivity.
Qed.

Lemma sendRaw_open_exact w payload h :
  emptyPayload payload = false ->
  portIsOpen h = true ->
  exists h',
    sendRaw w payload h = (writeOutcome w, h')
    /\ port h' = port h /\ status h' = status h
    /\ reconnectTimer h' = reconnectTimer h /\ destroyed h' = destroyed h
    /\ effects h' =
         effects h ++ transmitWrites h
           ++ wireTraffic w (payloadBytes payload)
           ++ receiveWrites h ++ turnaround h.
Proof.
  intros Hne Hopen. unfold sendRaw. rewrite Hne.
  assert (E1 : ensurePortReady w h = (Returned tt, h)).
  { unfold ensurePortReady, bind, gets. now rewrite Hopen. }
  rewrite (bind_run _ _ _ _ _ E1).
  destruct (driveTransceiver_run true h)
    as (h2 & E2 & P2 & O2 & T2 & D2 & S2 & Gd & Gl & Gr & F2).
  rewrite (bind_run _ _ _ _ _ E2).
  destruct (transmit_exact w (payloadBytes payload) h2)
    as (h3 & E3 & P3 & L3 & O3 & S3 & T3 & D3 & F3).
  destruct (release_exact h3) as (h4 & E4 & P4 & O4 & S4 & T4 & D4 & F4).
  rewrite (tryFinally_run _ _ _ _ _ _ E3 E4).
  exists h4. split; [reflexivity|].
  repeat split; try congruence.
  assert (Hrw : receiveWrites h3 = receiveWrites h).
  { unfold receiveWrites. unfold lines in L3. injection L3 as A1 A2 A3.
    rewrite A1, A2, A3, O3, Gd, Gl, Gr, O2.
    destruct (driverEnableGpio h), (legacyEnableGpio h), (receiverEnableGpio h);
      reflexivity. }
  rewrite F4, F3, F2, Hrw. unfold turnaround, transmitWrites.
  rewrite O3, O2, <- !app_assoc. reflexivity.
Qed.

End RS485Trace.

Module JSPrint.
Import JS.

Lemma noControl_app a b :
  noControl (a ++ b) = noControl a && noControl b.
Proof.
  induction a as [|c a IH]; [reflexivity|].
  cbn [append noControl]. now rewrite IH, andb_assoc.
Qed.

Lemma noControl_join sep parts :
  noControl sep = true ->
  Forall (fun p => noControl p = true) parts ->
  noControl (join sep parts) = true.
Proof.
  intros Hs H. induction H as [|p parts Hp Hrest IH]; [reflexivity|].
  cbn [join]. destruct parts as [|q parts]; [exact Hp|].
  now rewrite !noControl_app, Hp, Hs, IH.
Qed.

Lemma noControl_uint d : noControl (NilEmpty.string_of_uint d) = true.
Proof. induction d; cbn; auto. Qed.

Lemma noControl_number n : noControl (numberToString n) = true.
Proof.
  unfold numberToString, NilZero.string_of_int, NilZero.string_of_uint.
  destruct (Z.to_int n) as [d|d].
  - destruct d; try reflexivity; apply noControl_uint.
  - cbn [noControl]. destruct d; try reflexivity; apply noControl_uint.
Qed.

Lemma noControl_escapeChar c : noControl (escapeChar c) = true.
Proof. destruct c as [[] [] [] [] [] [] [] []]; reflexivity. Qed.

Lemma noControl_escape s : noControl (escape s) = true.
Proof.
  induction s as [|c s IH]; [reflexivity|].
  cbn [escape]. now rewrite noControl_app, noControl_escapeChar, IH.
Qed.

Lemma noControl_quote s : noControl (quote s) = true.
Proof.
  unfold quote. now rewrite !noControl_app, noControl_escape.
Qed.

(** Serialized JSON has no control character in it: whatever the strings
    of the value hold, line breaks included, comes out escaped. *)
Lemma noControl_stringify : forall v, noControl (stringify v) = true.
Proof.
  fix IH 1. intros [|b|n|s|items|fields]; cbn [stringify].
  - reflexivity.
  - now destruct b.
  - apply noControl_number.
  - apply noControl_quote.
  - rewrite !noControl_app. cbn [noControl printable]. 
    rewrite noControl_join; [reflexivity|reflexivity|].
    induction items as [|x items IHi]; constructor; [apply IH|exact IHi].
  - rewrite !noControl_app. cbn [noControl].
    rewrite noControl_join; [reflexivity|reflexivity|].
    induction fields as [|[k x] fields IHf]; constructor; [|exact IHf].
    cbn [fst snd]. now rewrite !noControl_app, noControl_quote, IH.
Qed.

Lemma stringify_nonempty v : stringify v <> EmptyString.
Proof.
  destruct v as [|b|n|s|items|fields]; cbn [stringify]; try discriminate.
  - destruct b; discriminate.
  - unfold numberToString, NilZero.string_of_int, NilZero.string_of_uint.
    destruct (Z.to_int n) as [d|d]; [|discriminate].
    destruct d; discriminate.
Qed.

End JSPrint.

Module RS485Life.
Import RS485 Eff Eff.Notations RS485Facts.

Lemma reconnectsScheduled_app es es' :
  reconnectsScheduled (es ++ es')
  = (reconnectsScheduled es + reconnectsScheduled es')%nat.
Proof.
  induction es as [|e es IH]; [reflexivity|].
  destruct e; cbn; now rewrite IH.
Qed.

(** One expiry of the reconnect timer when the port cannot be opened. *)
Lemma reconnectTick_fails w h err :
  portIsOpen h = false -> openErr w = Some err ->
  destroyed h = false -> autoReconnect (options h) = true ->
  exists h',
    reconnectTick w h = (Returned tt, h')
    /\ portIsOpen h' = false /\ destroyed h' = false
    /\ options h' = options h /\ lines h' = lines h
    /\ reconnectTimer h' = true /\ status h' = fail
    /\ effects h' =
         effects h
         ++ [PortOpen; Emit (OnStatus fail); Emit (OnError err);
             SetReconnectTimer (reconnectIntervalMs (options h));
             Emit (OnError err)].
Proof.
  intros Hclosed Hw Hd Ha.
  destruct h as [p leg drv rcv rt dead st o es].
  cbn in Hd, Ha. subst dead.
  unfold reconnectTick, openPort, tryCatch, bind, modify, gets.
  cbn [set_reconnectTimer port legacyEnableGpio driverEnableGpio
       receiverEnableGpio reconnectTimer destroyed status options effects].
  replace (portIsOpen _) with false by (symmetry; exact Hclosed).
  rewrite Hw.
  unfold setStatus, bind, gets, modify, emit, effect, scheduleReconnect,
    throw, ret.
  cbn. rewrite andb_false_r. cbn. rewrite Ha. cbn.
  eexists; split; [reflexivity|]. cbn. rewrite <- ?app_assoc.
  repeat split.
Qed.

Lemma retry_fails w err n : forall h,
  portIsOpen h = false -> openErr w = Some err ->
  destroyed h = false -> autoReconnect (options h) = true ->
  reconnectTimer h = true ->
  let h' := retry w n h in
  portIsOpen h' = false /\ reconnectTimer h' = true
  /\ destroyed h' = false /\ lines h' = lines h
  /\ reconnectsScheduled (effects h')
     = (reconnectsScheduled (effects h) + n)%nat
  /\ (n <> O -> status h' = fail).
Proof.
  induction n as [|n IH]; intros h Hc Hw Hd Ha Ht.
  - cbn. rewrite Nat.add_0_r. repeat split; try assumption. congruence.
  - cbn [retry]. rewrite Ht.
    destruct (reconnectTick_fails w h err Hc Hw Hd Ha)
      as (h1 & E & C1 & D1 & O1 & L1 & T1 & S1 & F1).
    rewrite E. cbn [snd].
    assert (Ha1 : autoReconnect (options h1) = true) by congruence.
    destruct (IH h1 C1 Hw D1 Ha1 T1) as (C & T & D & L & R & S).
    repeat split; try assumption; try congruence.
    + rewrite R, F1, reconnectsScheduled_app. cbn. lia.
    + intros _. destruct n as [|n']; [exact S1|]. apply S. discriminate.
Qed.

(** One expiry of the reconnect timer when the port opens. *)
Lemma reconnectTick_ok w h :
  portIsOpen h = false -> openErr w = None ->
  exists h',
    reconnectTick w h = (Returned tt, h')
    /\ portIsOpen h' = true /\ status h' = connected
    /\ reconnectTimer h' = false /\ destroyed h' = destroyed h
    /\ options h' = options h /\ lines h' = lines h
    /\ effects h' =
         effects h
         ++ PortOpen
            :: (if Status_eqb (status h) connected then []
                else [Emit (OnStatus connected)]).
Proof.
  intros Hc Hw.
  destruct h as [p leg drv rcv rt dead st o es].
  unfold reconnectTick, openPort, tryCatch, bind, modify, gets.
  cbn [set_reconnectTimer port legacyEnableGpio driverEnableGpio
       receiverEnableGpio reconnectTimer destroyed status options effects].
  replace (portIsOpen _) with false by (symmetry; exact Hc).
  rewrite Hw.
  unfold setStatus, attachSerialListeners, bind, gets, modify, emit, effect, ret.
  destruct st; cbn; (eexists; split; [reflexivity|]); cbn;
    rewrite <- ?app_assoc; repeat split.
Qed.

(** The port closes under a handler that is alive and reconnects. *)
Lemma portClosed_run h :
  portIsOpen h = true -> destroyed h = false ->
  autoReconnect (options h) = true -> reconnectTimer h = false ->
  exists h',
    portClosed h = (Returned tt, h')
    /\ portIsOpen h' = false /\ reconnectTimer h' = true
    /\ destroyed h' = false /\ options h' = options h /\ lines h' = lines h
    /\ status h' = disconnected
    /\ effects h' =
         effects h
         ++ (if Status_eqb (status h) disconnected then []
             else [Emit (OnStatus disconnected)])
         ++ [SetReconnectTimer (reconnectIntervalMs (options h))].
Proof.
  intros Ho Hd Ha Ht.
  destruct h as [p leg drv rcv rt dead st o es].
  cbn in Hd, Ha, Ht. subst dead rt.
  destruct p as [[[|]]|]; try discriminate Ho.
  unfold portClosed, onPortClose, setStatus, scheduleReconnect, bind, gets,
    modify, emit, effect, ret.
  destruct st; cbn; rewrite Ha; cbn;
    (eexists; split; [reflexivity|]); cbn; rewrite <- ?app_assoc;
    repeat split.
Qed.

(** A second port error in a row: the error is emitted, nothing else. *)
Lemma handlePortError_run e h :
  exists h',
    handlePortError e h = (Returned tt, h')
    /\ status h' = fail /\ port h' = port h /\ lines h' = lines h
    /\ options h' = options h /\ destroyed h' = destroyed h
    /\ reconnectTimer h' =
         (reconnectTimer h || (negb (destroyed h) && autoReconnect (options h)))
    /\ effects h' =
         effects h ++ [Emit (OnError e)]
         ++ (if Status_eqb (status h) fail then [] else [Emit (OnStatus fail)])
         ++ (if negb (reconnectTimer h) && negb (destroyed h)
                && autoReconnect (options h)
             then [SetReconnectTimer (reconnectIntervalMs (options h))]
             else []).
Proof.
  destruct h as [p leg drv rcv rt dead st o es].
  unfold handlePortError, setStatus, scheduleReconnect, bind, gets,
    modify, emit, effect, ret.
  destruct st, dead, (autoReconnect o) eqn:Ha, rt; cbn; rewrite ?Ha; cbn;
    (eexists; split; [reflexivity|]); cbn; rewrite <- ?app_assoc, ?app_nil_r;
    repeat split.
Qed.

End RS485Life.

Module RS485End.
Import RS485 Eff Eff.Notations RS485Facts.

Lemma closePort_run w h :
  exists h',
    closePort w h = (Returned tt, h')
    /\ port h' = None /\ lines h' = lines h /\ options h' = options h
    /\ destroyed h' = destroyed h /\ reconnectTimer h' = reconnectTimer h
    /\ (portIsOpen h = true -> status h' = disconnected)
    /\ (portIsOpen h = false -> status h' = status h).
Proof.
  destruct h as [p leg drv rcv rt dead st o es].
  unfold closePort, setStatus, bind, gets, modify, emit, effect, ret.
  destruct p as [[[|]]|]; cbn.
  - destruct (closeErr w), st; cbn; (eexists; split; [reflexivity|]); cbn;
      repeat split; discriminate.
  - eexists; split; [reflexivity|]. cbn. repeat split; discriminate.
  - eexists; split; [reflexivity|]. cbn. repeat split; discriminate.
Qed.

Lemma destroy_run w h :
  exists h',
    destroy w h = (Returned tt, h')
    /\ released h' /\ port h' = None /\ options h' = options h
    /\ (portIsOpen h = true -> status h' = disconnected)
    /\ (portIsOpen h = false -> status h' = status h).
Proof.
  unfold destroy.
  set (h0 := set_destroyed true h).
  assert (E0 : modify (set_destroyed true) h = (Returned tt, h0)) by reflexivity.
  rewrite (bind_run _ _ _ _ _ E0).
  assert (E1 : exists h1, clearReconnectTimer h0 = (Returned tt, h1)
               /\ port h1 = port h /\ lines h1 = lines h
               /\ options h1 = options h /\ destroyed h1 = true
               /\ reconnectTimer h1 = false /\ status h1 = status h).
  { unfold clearReconnectTimer, bind, gets, modify, effect, ret. subst h0.
    destruct h as [p leg drv rcv rt dead st o es]. destruct rt; cbn;
      (eexists; split; [reflexivity|]); cbn; repeat split. }
  destruct E1 as (h1 & E1 & P1 & L1 & O1 & D1 & T1 & S1).
  rewrite (bind_run _ _ _ _ _ E1).
  destruct (closePort_run w h1) as (h2 & E2 & P2 & L2 & O2 & D2 & T2 & S2 & S2').
  rewrite (bind_run _ _ _ _ _ E2).
  assert (Hopen : portIsOpen h1 = portIsOpen h)
    by (unfold portIsOpen; now rewrite P1).
  rewrite Hopen in S2, S2'.
  destruct h2 as [p leg drv rcv rt dead st o es].
  cbn in P2, O2, D2, T2, S2, S2'. subst p dead rt.
  unfold releaseGpio, bind, gets, modify, effect, ret.
  destruct leg as [l|], drv as [d|], rcv as [r|]; cbn;
    (eexists; split; [reflexivity|]); unfold released; cbn;
    (split; [auto|]); (split; [reflexivity|]);
    (split; [congruence|]);
    (split; intros Hp; [auto|rewrite S2' by exact Hp; congruence]).
Qed.

Lemma released_drive t h :
  released h -> driveTransceiver t h = (Returned tt, h).
Proof.
  intros (_ & _ & L). destruct h as [p leg drv rcv rt dead st o es].
  cbn in L. injection L as -> -> ->. reflexivity.
Qed.

Lemma released_congr h h' :
  destroyed h' = destroyed h -> reconnectTimer h' = reconnectTimer h ->
  lines h' = lines h -> released h -> released h'.
Proof. unfold released. intros -> -> ->. auto. Qed.

Lemma released_sendRaw_open w payload h :
  portIsOpen h = true -> released h -> released (snd (sendRaw w payload h)).
Proof.
  intros Ho R.
  destruct (emptyPayload payload) eqn:He.
  - unfold sendRaw. now rewrite He.
  - destruct (sendRaw_run w payload h He (or_introl Ho))
      as (h' & E & _ & L & _).
    destruct (RS485Trace.sendRaw_open_exact w payload h He Ho) as (k & E' & _ & _ & T & D & _).
    rewrite E in E'. injection E' as <-. rewrite E. cbn [snd].
    apply (released_congr h); try assumption.
    rewrite L, (released_drive false h R). reflexivity.
Qed.

Lemma sendRaw_reopen w payload h h1 :
  portIsOpen h = false -> openPort w h = (Returned tt, h1) ->
  portIsOpen h1 = true ->
  emptyPayload payload = false ->
  sendRaw w payload h = sendRaw w payload h1.
Proof.
  intros Hc E Ho He. unfold sendRaw. rewrite He.
  assert (E1 : ensurePortReady w h = (Returned tt, h1)).
  { unfold ensurePortReady, bind, gets. now rewrite Hc. }
  assert (E2 : ensurePortReady w h1 = (Returned tt, h1)).
  { unfold ensurePortReady, bind, gets. now rewrite Ho. }
  now rewrite (bind_run _ _ _ _ _ E1), (bind_run _ _ _ _ _ E2).
Qed.

Lemma released_sendRaw w payload h :
  released h -> released (snd (sendRaw w payload h)).
Proof.
  intros R.
  destruct (portIsOpen h) eqn:Ho; [now apply released_sendRaw_open|].
  destruct (emptyPayload payload) eqn:He.
  { unfold sendRaw. now rewrite He. }
  destruct (openErr w) as [err|] eqn:Hw.
  - destruct (openPort_fails w h err Ho Hw) as (h1 & E & _ & L & _ & D & T & _).
    unfold sendRaw. rewrite He.
    unfold ensurePortReady, bind, gets. rewrite Ho, E. cbn [snd].
    apply (released_congr h); try assumption.
    destruct R as (Rd & Rt & _). now rewrite T, Rd, Rt.
  - destruct (openPort_ok w h Ho Hw) as (h1 & es & E & P & L & _ & T & D & _).
    rewrite (sendRaw_reopen w payload h h1 Ho E P He).
    apply released_sendRaw_open; [exact P|].
    now apply (released_congr h).
Qed.

Lemma released_portClosed h : released h -> released (snd (portClosed h)).
Proof.
  intros (Rd & Rt & L). destruct h as [p leg drv rcv rt dead st o es].
  cbn in Rd, Rt, L. subst. injection L as -> -> ->.
  unfold portClosed, onPortClose, setStatus, scheduleReconnect, bind, gets,
    modify, emit, effect, ret.
  destruct p as [[[|]]|], st; cbn; unfold released; cbn; auto.
Qed.

Lemma released_runOp o h : released h -> released (snd (runOp o h)).
Proof.
  intros R. destruct o as [w|w payload|w command|e| |w|w]; cbn [runOp].
  - unfold init, bind, gets. pose proof R as (Rd & _). rewrite Rd. exact R.
  - now apply released_sendRaw.
  - unfold sendCommand, bind, gets. now apply released_sendRaw.
  - destruct (RS485Life.handlePortError_run e h) as (h' & E & _ & _ & L & _ & D & T & _).
    rewrite E. cbn [snd]. apply (released_congr h); try assumption.
    destruct R as (Rd & Rt & _). now rewrite T, Rd, Rt.
  - now apply released_portClosed.
  - unfold bind, gets. pose proof R as (_ & Rt & _). rewrite Rt. exact R.
  - destruct (destroy_run w h) as (h' & E & R' & _). now rewrite E.
Qed.

End RS485End.

Module RS485Init.

Import RS485 Eff Eff.Notations RS485Facts.

Lemma ensureControlPins_new w o :
  exists h',
    ensureControlPins w (new o)
    = (match pinFailure w o with
       | Some err => Thrown err
       | None => Returned tt
       end, h')
    /\ inReceiveState h' /\ oneWiring h'
    /\ options h' = o /\ port h' = None /\ status h' = disconnected
    /\ reconnectTimer h' = false /\ destroyed h' = false
    /\ gpioWrites (effects h') = List.length (effects h').
Proof.
  unfold ensureControlPins, pinFailure, new, oneWiring, inReceiveState.
  destruct (platformLinux w); cbn [negb];
    [|eexists; split; [reflexivity|]; cbn; auto 10].
  unfold bind, gets, modify, firstWrite, toggleLegacy, toggleDriver,
    toggleReceiver, configurePin, effect, ret, throw.
  cbn [id options legacyEnableGpio driverEnableGpio receiverEnableGpio isSome].
  destruct (enablePin o) as [p|].
  - destruct (gpioAvailable w p); cbn; [destruct (writeSyncErr w p); cbn|];
      (eexists; split; [reflexivity|]); cbn; auto 10.
  - destruct (driverEnablePin o) as [d|], (receiverEnablePin o) as [r|].
    + destruct (d =? r).
      * destruct (gpioAvailable w d); cbn; [destruct (writeSyncErr w d); cbn|];
          (eexists; split; [reflexivity|]); cbn; auto 10.
      * destruct (gpioAvailable w d); cbn;
          [destruct (writeSyncErr w d); cbn|];
          try (eexists; split; [reflexivity|]; cbn; auto 10; fail);
          (destruct (gpioAvailable w r); cbn;
           [destruct (writeSyncErr w r); cbn|]);
          (eexists; split; [reflexivity|]); cbn; auto 10.
    + destruct (gpioAvailable w d); cbn; [destruct (writeSyncErr w d); cbn|];
        (eexists; split; [reflexivity|]); cbn; auto 10.
    + destruct (gpioAvailable w r); cbn; [destruct (writeSyncErr w r); cbn|];
        (eexists; split; [reflexivity|]); cbn; auto 10.
    + eexists; split; [reflexivity|]. cbn. auto 10.
Qed.

End RS485Init.

(** X9.  On an open port [sendRaw] itself does exactly this, in this
    order: it puts the lines in transmit direction, writes the buffer,
    drains if the write succeeded, emits [tx] if the drain succeeded
    too, puts the lines back in receive direction and sleeps the
    turnaround delay; a failed write or drain is handed to the caller
    after that.  When write and drain succeed, the link status, the port
    and the reconnect timer are as they were. *)
Theorem sendRaw_trace_on_open_port
    (w : RS485.World) (payload : RS485.Payload) (h : RS485.Handler) :
  RS485.emptyPayload payload = false ->
  RS485.portIsOpen h = true ->
  let h' := snd (RS485.sendRaw w payload h) in
  fst (RS485.sendRaw w payload h) = RS485.writeOutcome w
  /\ RS485.effects h'
     = RS485.effects h ++ RS485.transmitWrites h
         ++ RS485.wireTraffic w (RS485.payloadBytes payload)
         ++ RS485.receiveWrites h ++ RS485.turnaround h
  /\ (RS485.writeOutcome w = Eff.Returned tt ->
      RS485.status h' = RS485.status h
      /\ RS485.port h' = RS485.port h
      /\ RS485.reconnectTimer h' = RS485.reconnectTimer h).
Proof.
  intros He Ho h'.
  destruct (RS485Trace.sendRaw_open_exact w payload h He Ho)
    as (k & E & P & S & T & _ & F).
  subst h'. rewrite E. cbn [fst snd]. auto.
Qed.

Lemma sendRaw_trace_on_open_port_witness :
  let h := snd (RS485.init RS485.calm (RS485.new RS485.DEFAULT_OPTIONS)) in
  let w := {| RS485.openErr := None; RS485.writeErr := None;
              RS485.drainErr := Some (JS.mkError "EIO");
              RS485.closeErr := None; RS485.platformLinux := true;
              RS485.gpioAvailable := fun _ => true;
              RS485.writeSyncErr := fun _ => None |} in
  RS485.effects (snd (RS485.sendRaw w (RS485.PString "x") h))
  = RS485.effects h
    ++ [RS485.GpioWrite 18 1; RS485.GpioWrite 23 1;
        RS485.PortWrite "x"; RS485.PortDrain;
        RS485.GpioWrite 18 0; RS485.GpioWrite 23 0; RS485.Sleep 2].
Proof.
  intros h w.
  destruct (sendRaw_trace_on_open_port w (RS485.PString "x") h eq_refl eq_refl)
    as (_ & F & _).
  exact F.
Defined.

(** X10.  With separate driver-enable and receiver-enable lines,
    [driveTransceiver] never leaves both enabled nor both disabled:
    after it the driver is high and the receiver off its active level,
    or the driver is low and the receiver at its active level. *)
Theorem driver_and_receiver_are_never_enabled_together
    (transmit : bool) (h : RS485.Handler) :
  let h' := snd (RS485.driveTransceiver transmit h) in
  forall d r,
    RS485.driverEnableGpio h' = Some d ->
    RS485.receiverEnableGpio h' = Some r ->
    (transmit = true /\ RS485.level d = 1
     /\ RS485.level r <> RS485.receiverActiveLevel (RS485.options h'))
    \/ (transmit = false /\ RS485.level d = 0
        /\ RS485.level r = RS485.receiverActiveLevel (RS485.options h')).
Proof.
  intros h' d r.
  destruct (RS485Facts.driveTransceiver_run transmit h)
    as (k & E & _ & Ko & _ & _ & _ & Kd & _ & Kr & _).
  subst h'. rewrite E. cbn [snd]. rewrite Kd, Kr, Ko.
  destruct (RS485.driverEnableGpio h) as [d0|]; [|discriminate].
  destruct (RS485.receiverEnableGpio h) as [r0|]; [|discriminate].
  cbn. intros [= <-] [= <-]. cbn.
  unfold RS485.reLevel, RS485.receiverActiveLevel.
  destruct transmit; [left|right]; repeat split;
    destruct (RS485.receiverEnableActiveLow (RS485.options h)); cbn; discriminate.
Qed.

Lemma driver_and_receiver_are_never_enabled_together_witness :
  let h := snd (RS485.init RS485.calm (RS485.new RS485.DEFAULT_OPTIONS)) in
  let h' := snd (RS485.driveTransceiver true h) in
  exists d r,
    RS485.driverEnableGpio h' = Some d /\ RS485.receiverEnableGpio h' = Some r
    /\ RS485.level d = 1 /\ RS485.level r = 1.
Proof.
  intros h h'.
  exists {| RS485.pin := 18; RS485.level := 1 |},
         {| RS485.pin := 23; RS485.level := 1 |}.
  destruct (driver_and_receiver_are_never_enabled_together true h
              {| RS485.pin := 18; RS485.level := 1 |}
              {| RS485.pin := 23; RS485.level := 1 |} eq_refl eq_refl)
    as [(_ & Hd & _) | (Hf & _)]; [|discriminate].
  split; [reflexivity|]. split; [reflexivity|]. split; [exact Hd|reflexivity].
Defined.

(** X11.  While the port cannot be opened, a handler that is alive with
    auto-reconnect enabled keeps trying: every expiry of the reconnect
    timer ends normally with the timer armed again, so after [n]
    expiries [n] more timers have been scheduled, the port is still
    closed and the status is fail. *)
Theorem reconnect_keeps_retrying
    (w : RS485.World) (err : JS.Error) (n : nat) (h : RS485.Handler) :
  RS485.portIsOpen h = false ->
  RS485.openErr w = Some err ->
  RS485.destroyed h = false ->
  RS485.autoReconnect (RS485.options h) = true ->
  RS485.reconnectTimer h = true ->
  let h' := RS485.retry w n h in
  RS485.reconnectTimer h' = true
  /\ RS485.portIsOpen h' = false
  /\ RS485.reconnectsScheduled (RS485.effects h')
     = (RS485.reconnectsScheduled (RS485.effects h) + n)%nat
  /\ (n <> O -> RS485.status h' = RS485.fail)
  /\ fst (RS485.reconnectTick w h') = Eff.Returned tt.
Proof.
  intros Hc Hw Hd Ha Ht h'.
  destruct (RS485Life.retry_fails w err n h Hc Hw Hd Ha Ht)
    as (C & T & D & L & R & S).
  fold h' in C, T, D, L, R, S.
  repeat split; try assumption.
  assert (Ha' : RS485.autoReconnect (RS485.options h') = true).
  { clear - Hc Hw Hd Ha Ht. subst h'. revert h Hc Hd Ha Ht.
    induction n as [|n IH]; intros h Hc Hd Ha Ht; [exact Ha|].
    cbn [RS485.retry]. rewrite Ht.
    destruct (RS485Life.reconnectTick_fails w h err Hc Hw Hd Ha)
      as (h1 & E & C1 & D1 & O1 & _ & T1 & _).
    rewrite E. cbn [snd]. apply IH; congruence. }
  destruct (RS485Life.reconnectTick_fails w h' err C Hw D Ha') as (k & E & _).
  now rewrite E.
Qed.

Lemma reconnect_keeps_retrying_witness :
  let err := JS.mkError "ENOENT" in
  let w := RS485.unplugged err in
  let h := snd (RS485.init w (RS485.new RS485.DEFAULT_OPTIONS)) in
  RS485.reconnectTimer (RS485.retry w 5 h) = true
  /\ RS485.reconnectsScheduled (RS485.effects (RS485.retry w 5 h)) = 6%nat.
Proof.
  intros err w h.
  destruct (reconnect_keeps_retrying w err 5 h) as (T & _ & R & _);
    try reflexivity.
  split; [exact T|exact R].
Defined.

(** X12.  The link comes back and goes again: when the reconnect timer
    expires and the port opens, the status becomes connected and no
    timer stays armed; when the port then closes, the status becomes
    disconnected and one reconnect is scheduled after
    [reconnectIntervalMs]; the next expiry connects again. *)
Theorem link_reconnects_after_close (w : RS485.World) (h : RS485.Handler) :
  RS485.portIsOpen h = false ->
  RS485.openErr w = None ->
  RS485.destroyed h = false ->
  RS485.autoReconnect (RS485.options h) = true ->
  let h1 := snd (RS485.reconnectTick w h) in
  let h2 := snd (RS485.portClosed h1) in
  let h3 := snd (RS485.reconnectTick w h2) in
  (RS485.status h1 = RS485.connected /\ RS485.portIsOpen h1 = true
   /\ RS485.reconnectTimer h1 = false)
  /\ (RS485.status h2 = RS485.disconnected /\ RS485.portIsOpen h2 = false
      /\ RS485.reconnectTimer h2 = true
      /\ RS485.effects h2
         = RS485.effects h1
           ++ [RS485.Emit (RS485.OnStatus RS485.disconnected);
               RS485.SetReconnectTimer
                 (RS485.reconnectIntervalMs (RS485.options h))])
  /\ (RS485.status h3 = RS485.connected /\ RS485.portIsOpen h3 = true
      /\ RS485.reconnectTimer h3 = false
      /\ RS485.effects h3
         = RS485.effects h2
           ++ [RS485.PortOpen; RS485.Emit (RS485.OnStatus RS485.connected)]).
Proof.
  intros Hc Hw Hd Ha h1 h2 h3.
  destruct (RS485Life.reconnectTick_ok w h Hc Hw)
    as (k1 & E1 & P1 & S1 & T1 & D1 & O1 & _).
  assert (Hh1 : h1 = k1) by (subst h1; now rewrite E1).
  destruct (RS485Life.portClosed_run k1 P1) as
    (k2 & E2 & P2 & T2 & D2 & O2 & _ & S2 & F2); try congruence.
  assert (Hh2 : h2 = k2) by (subst h2; rewrite Hh1; now rewrite E2).
  destruct (RS485Life.reconnectTick_ok w k2 P2 Hw)
    as (k3 & E3 & P3 & S3 & T3 & _ & _ & _ & F3).
  assert (Hh3 : h3 = k3) by (subst h3; rewrite Hh2; now rewrite E3).
  rewrite Hh1, Hh2, Hh3.
  split; [auto|]. split.
  - repeat split; try assumption.
    rewrite F2, S1, O1. reflexivity.
  - repeat split; try assumption.
    rewrite F3, S2. reflexivity.
Qed.

Lemma link_reconnects_after_close_witness :
  let h := snd (RS485.init (RS485.unplugged (JS.mkError "ENOENT"))
                  (RS485.new RS485.DEFAULT_OPTIONS)) in
  let h1 := snd (RS485.reconnectTick RS485.calm h) in
  RS485.status h1 = RS485.connected
  /\ RS485.status (snd (RS485.portClosed h1)) = RS485.disconnected.
Proof.
  intros h h1.
  destruct (link_reconnects_after_close RS485.calm h)
    as ((S1 & _) & (S2 & _) & _); try reflexivity.
  split; [exact S1|exact S2].
Defined.

(** X13.  [destroy] ends the reconnect loop and the control of the
    lines for good, not the use of the port.  It always returns
    normally and leaves the handler destroyed, without port, without
    reconnect timer and without direction lines, with status
    disconnected if the port was open.  Whatever is done to the handler
    afterwards (sending, port errors, the port closing, a timer expiry,
    another [destroy]), it stays destroyed, no reconnect is ever
    scheduled again and no line exists to be driven; [init] is refused
    with an error and changes nothing.  A [sendRaw] after [destroy]
    still opens a new port: if that succeeds the payload is written
    and, when the write succeeds too, the call returns with the port
    open and the status connected again; if it fails the status is fail
    and no reconnect is scheduled. *)
Theorem destroy_is_final
    (w : RS485.World) (h : RS485.Handler) (ops : list RS485.Op) :
  let h0 := snd (RS485.destroy w h) in
  fst (RS485.destroy w h) = Eff.Returned tt
  /\ RS485.released h0 /\ RS485.port h0 = None
  /\ (RS485.portIsOpen h = true -> RS485.status h0 = RS485.disconnected)
  /\ RS485.released (RS485.runOps ops h0)
  /\ (forall w',
        RS485.init w' (RS485.runOps ops h0)
        = (Eff.Thrown (JS.mkError "Cannot initialize a destroyed RS485 handler"),
           RS485.runOps ops h0))
  /\ (forall w' payload,
        RS485.emptyPayload payload = false ->
        RS485.openErr w' = None ->
        let h1 := snd (RS485.sendRaw w' payload h0) in
        fst (RS485.sendRaw w' payload h0) = RS485.writeOutcome w'
        /\ RS485.writes (RS485.effects h1)
           = RS485.writes (RS485.effects h0) ++ [RS485.payloadBytes payload]
        /\ (RS485.writeOutcome w' = Eff.Returned tt ->
            RS485.portIsOpen h1 = true
            /\ RS485.status h1 = RS485.connected))
  /\ (forall w' payload err,
        RS485.emptyPayload payload = false ->
        RS485.openErr w' = Some err ->
        let h1 := snd (RS485.sendRaw w' payload h0) in
        fst (RS485.sendRaw w' payload h0) = Eff.Thrown err
        /\ RS485.portIsOpen h1 = false
        /\ RS485.status h1 = RS485.fail
        /\ RS485.reconnectTimer h1 = false
        /\ RS485.writes (RS485.effects h1) = RS485.writes (RS485.effects h0)).
Proof.
  intros h0.
  destruct (RS485End.destroy_run w h) as (k & E & R & P & _ & S & _).
  subst h0. rewrite E. cbn [fst snd].
  assert (Rops : RS485.released (RS485.runOps ops k)).
  { clear - R. revert k R. induction ops as [|o ops IH]; intros k R; [exact R|].
    cbn [RS485.runOps fold_left]. apply IH. now apply RS485End.released_runOp. }
  assert (Hc : RS485.portIsOpen k = false)
    by (unfold RS485.portIsOpen; now rewrite P).
  split; [reflexivity|]. split; [exact R|]. split; [exact P|].
  split; [exact S|]. split; [exact Rops|]. split; [|split].
  - intros w'. unfold RS485.init, Eff.bind, Eff.gets.
    destruct Rops as (Rd & _). now rewrite Rd.
  - intros w' payload He Hw.
    destruct (RS485Facts.openPort_ok w' k Hc Hw)
      as (k1 & es & E1 & P1 & _ & _ & _ & _ & S1 & _).
    destruct (RS485Facts.sendRaw_run w' payload k He (or_intror Hw))
      as (k2 & E2 & _ & _ & _ & _ & W2).
    pose proof (RS485End.sendRaw_reopen w' payload k k1 Hc E1 P1 He) as Ere.
    destruct (RS485Trace.sendRaw_open_exact w' payload k1 He P1)
      as (k3 & E3 & P3 & S3 & _).
    rewrite E2. cbn [fst snd]. rewrite E2, E3 in Ere. injection Ere as ->.
    split; [reflexivity|]. split; [exact W2|]. intros _.
    split; [|congruence].
    unfold RS485.portIsOpen in *. now rewrite P3.
  - intros w' payload err He Hw.
    destruct (RS485Facts.openPort_fails w' k err Hc Hw)
      as (k1 & E1 & S1 & _ & _ & _ & T1 & F1).
    assert (Es : RS485.sendRaw w' payload k = (Eff.Thrown err, k1)).
    { unfold RS485.sendRaw. rewrite He.
      unfold RS485.ensurePortReady, Eff.bind, Eff.gets. now rewrite Hc, E1. }
    rewrite Es. cbn [fst snd].
    destruct R as (Rd & Rt & _).
    split; [reflexivity|]. split; [|split; [exact S1|split]].
    + revert E1. unfold RS485.openPort, Eff.bind, Eff.gets. rewrite Hc, Hw.
      destruct k as [p leg drv rcv rt dead st oo es].
      unfold RS485.setStatus, RS485.scheduleReconnect, Eff.bind, Eff.gets,
        Eff.modify, RS485.emit, RS485.effect, Eff.throw, Eff.ret.
      cbn. rewrite andb_false_r. cbn.
      destruct (dead || negb (RS485.autoReconnect oo)), rt; cbn;
        intros [= <-]; reflexivity.
    + rewrite T1, Rd, Rt. reflexivity.
    + rewrite F1, Rd, Rt. cbn. rewrite !RS485Facts.writes_app. cbn.
      now rewrite app_nil_r.
Qed.

Lemma destroy_is_final_witness :
  let h := snd (RS485.init RS485.calm (RS485.new RS485.DEFAULT_OPTIONS)) in
  let h0 := snd (RS485.destroy RS485.calm h) in
  RS485.status h0 = RS485.disconnected
  /\ RS485.status (snd (RS485.sendRaw RS485.calm (RS485.PString "x") h0))
     = RS485.connected
  /\ RS485.reconnectTimer
       (snd (RS485.sendRaw (RS485.unplugged (JS.mkError "ENOENT"))
               (RS485.PString "x") h0)) = false.
Proof.
  intros h h0.
  destruct (destroy_is_final RS485.calm h []) as (_ & _ & _ & S & _ & _ & Hok & Hfail).
  split; [apply S; reflexivity|]. split.
  - destruct (Hok RS485.calm (RS485.PString "x") eq_refl eq_refl)
      as (_ & _ & Hs).
    apply Hs. reflexivity.
  - destruct (Hfail (RS485.unplugged (JS.mkError "ENOENT")) (RS485.PString "x")
                (JS.mkError "ENOENT") eq_refl eq_refl)
      as (_ & _ & _ & Ht & _).
    exact Ht.
Defined.

(** X14.  [init] on a fresh handler leaves the transceiver listening,
    whatever the options, the platform and the pins that can be
    configured, and however it ends: every line that was set up was
    last written its receive level, and only one of the two wirings
    (single line, or driver and receiver lines) is set up.  When the first write to a
    line it has configured throws, [init] rejects with that error before
    it opens the port: the status stays disconnected, there is no port
    and no reconnect timer, and all it has done is write to lines.
    Otherwise it returns normally with status connected when the port
    opens, and rejects with status fail, and a reconnect timer if
    auto-reconnect is enabled, when it does not. *)
Theorem init_leaves_transceiver_listening (w : RS485.World) (o : RS485.Options) :
  let h := snd (RS485.init w (RS485.new o)) in
  RS485.inReceiveState h
  /\ RS485.oneWiring h
  /\ match RS485.pinFailure w o, RS485.openErr w with
     | Some err, _ =>
         fst (RS485.init w (RS485.new o)) = Eff.Thrown err
         /\ RS485.status h = RS485.disconnected
         /\ RS485.port h = None
         /\ RS485.reconnectTimer h = false
         /\ RS485.gpioWrites (RS485.effects h) = List.length (RS485.effects h)
     | None, None =>
         fst (RS485.init w (RS485.new o)) = Eff.Returned tt
         /\ RS485.status h = RS485.connected
         /\ RS485.portIsOpen h = true
     | None, Some err =>
         fst (RS485.init w (RS485.new o)) = Eff.Thrown err
         /\ RS485.status h = RS485.fail
         /\ RS485.portIsOpen h = false
         /\ RS485.reconnectTimer h = RS485.autoReconnect o
     end.
Proof.
  intros h.
  destruct (RS485Init.ensureControlPins_new w o)
    as (h1 & E1 & R1 & W1 & O1 & P1 & S1 & T1 & D1 & G1).
  assert (Hc : RS485.portIsOpen h1 = false)
    by (unfold RS485.portIsOpen; now rewrite P1).
  assert (Einit : RS485.init w (RS485.new o)
                  = match RS485.pinFailure w o with
                    | Some err => (Eff.Thrown err, h1)
                    | None => RS485.openPort w h1
                    end).
  { unfold RS485.init, Eff.bind, Eff.gets. cbn [RS485.destroyed RS485.new].
    rewrite E1. now destruct (RS485.pinFailure w o). }
  subst h. rewrite Einit.
  assert (Wcongr : forall k, RS485.lines k = RS485.lines h1 -> RS485.oneWiring k).
  { intros k L. unfold RS485.oneWiring, RS485.lines in *.
    injection L as -> -> ->. exact W1. }
  destruct (RS485.pinFailure w o) as [gpioErr|].
  { cbn [fst snd]. split; [exact R1|]. split; [exact W1|]. auto. }
  destruct (RS485.openErr w) as [err|] eqn:Hw.
  - destruct (RS485Facts.openPort_fails w h1 err Hc Hw)
      as (k & E & S & L & O & D & T & _).
    rewrite E. cbn [fst snd].
    split; [apply (RS485Facts.inReceiveState_congr h1); assumption|].
    split; [now apply Wcongr|].
    repeat split; try assumption.
    + unfold RS485.portIsOpen.
      (* the port object exists but is not open *)
      revert E. unfold RS485.openPort, Eff.bind, Eff.gets. rewrite Hc, Hw.
      destruct h1 as [p leg drv rcv rt dead st oo es].
      unfold RS485.setStatus, RS485.scheduleReconnect, Eff.bind, Eff.gets,
        Eff.modify, RS485.emit, RS485.effect, Eff.throw, Eff.ret.
      cbn. rewrite andb_false_r. cbn.
      destruct (dead || negb (RS485.autoReconnect oo)), rt; cbn;
        intros [= <-]; reflexivity.
    + rewrite T, T1, D1, O1. reflexivity.
  - destruct (RS485Facts.openPort_ok w h1 Hc Hw)
      as (k & es & E & P & L & O & _ & _ & S & _).
    rewrite E. cbn [fst snd].
    split; [apply (RS485Facts.inReceiveState_congr h1); assumption|].
    split; [now apply Wcongr|]. auto.
Qed.

Lemma init_leaves_transceiver_listening_witness :
  let err := JS.mkError "EPERM" in
  let w := {| RS485.openErr := None; RS485.writeErr := None;
              RS485.drainErr := None; RS485.closeErr := None;
              RS485.platformLinux := true;
              RS485.gpioAvailable := fun _ => true;
              RS485.writeSyncErr := fun p => if p =? 23 then Some err else None |} in
  let h := snd (RS485.init w (RS485.new RS485.DEFAULT_OPTIONS)) in
  fst (RS485.init w (RS485.new RS485.DEFAULT_OPTIONS)) = Eff.Thrown err
  /\ RS485.status h = RS485.disconnected
  /\ RS485.effects h = [RS485.GpioWrite 18 0; RS485.GpioWrite 23 0].
Proof.
  intros err w h.
  destruct (init_leaves_transceiver_listening w RS485.DEFAULT_OPTIONS)
    as (_ & _ & H).
  change (RS485.pinFailure w RS485.DEFAULT_OPTIONS) with (Some err) in H.
  destruct H as (H1 & H2 & _).
  split; [exact H1|]. split; [exact H2|reflexivity].
Defined.

(** X15.  [sendCommand] writes one buffer: the serialized command
    followed by the delimiter.  The serialized command holds no control
    character, so with the newline delimiter the buffer is one line,
    whatever strings the command carries. *)
Theorem sendCommand_writes_one_line
    (w : RS485.World) (command : JS.value) (h : RS485.Handler) :
  RS485.portReady w h ->
  let h' := snd (RS485.sendCommand w command h) in
  fst (RS485.sendCommand w command h) = RS485.writeOutcome w
  /\ RS485.writes (RS485.effects h')
     = RS485.writes (RS485.effects h)
       ++ [(JS.stringify command ++ RS485.delimiterBuffer (RS485.options h))%string]
  /\ JS.noControl (JS.stringify command) = true.
Proof.
  intros Hready h'. subst h'.
  unfold RS485.sendCommand, Eff.bind, Eff.gets.
  assert (He : RS485.emptyPayload
                 (RS485.PBuffer
                    (JS.stringify command
                       ++ RS485.delimiterBuffer (RS485.options h))%string) = false).
  { pose proof (JSPrint.stringify_nonempty command) as Hn.
    destruct (JS.stringify command); [contradiction|reflexivity]. }
  destruct (RS485Facts.sendRaw_run w _ h He Hready)
    as (k & E & _ & _ & _ & _ & W).
  rewrite E. cbn [fst snd].
  split; [reflexivity|]. split; [exact W|apply JSPrint.noControl_stringify].
Qed.

Lemma sendCommand_writes_one_line_witness :
  let h := snd (RS485.init RS485.calm (RS485.new RS485.DEFAULT_OPTIONS)) in
  let command := JS.JObj [("cmd", JS.JStr (JS.char "010"%char))]%string in
  RS485.writes (RS485.effects (snd (RS485.sendCommand RS485.calm command h)))
  = [(JS.fromSingleQuotes "{'cmd':'\n'}" ++ JS.newline)%string].
Proof.
  intros h command.
  destruct (sendCommand_writes_one_line RS485.calm command h (or_introl eq_refl))
    as (_ & W & _).
  exact W.
Defined.

(** X16.  A second port error in a row only emits the error: the status
    is already fail, so no status event is emitted, and no second
    reconnect timer is scheduled. *)
Theorem second_port_error_only_emits
    (e1 e2 : JS.Error) (h : RS485.Handler) :
  let h1 := snd (RS485.handlePortError e1 h) in
  let h2 := snd (RS485.handlePortError e2 h1) in
  RS485.status h1 = RS485.fail
  /\ RS485.effects h2 = RS485.effects h1 ++ [RS485.Emit (RS485.OnError e2)]
  /\ RS485.status h2 = RS485.fail
  /\ RS485.reconnectTimer h2 = RS485.reconnectTimer h1.
Proof.
  intros h1 h2.
  destruct (RS485Life.handlePortError_run e1 h)
    as (k1 & E1 & S1 & _ & _ & O1 & D1 & T1 & _).
  assert (Hh1 : h1 = k1) by (subst h1; now rewrite E1).
  destruct (RS485Life.handlePortError_run e2 k1)
    as (k2 & E2 & S2 & _ & _ & _ & _ & T2 & F2).
  assert (Hh2 : h2 = k2) by (subst h2; rewrite Hh1; now rewrite E2).
  rewrite Hh1, Hh2. split; [exact S1|].
  rewrite F2, S1, T2, T1, D1, O1.
  destruct (RS485.reconnectTimer h), (RS485.destroyed h),
    (RS485.autoReconnect (RS485.options h)); cbn; auto.
Qed.

(* ------------------------------------------------------------------ *)
(** ** The connection monitor: what it keeps *)

Module MonitorMore.

Import Monitor.

Lemma markRemoteDisconnected_disconnects now why ov d :
  connected (remote (fst (markRemoteDisconnected now why ov d))) = false.
Proof.
  unfold markRemoteDisconnected.
  destruct (connected (remote d)) eqn:Hc; cbn; [reflexivity|].
  destruct (nonEmpty why); cbn; exact Hc.
Qed.

(** On a remote that is not connected only the reason can change. *)
Lemma markRemoteDisconnected_idle now why ov d :
  connected (remote d) = false ->
  let d' := fst (markRemoteDisconnected now why ov d) in
  snd (markRemoteDisconnected now why ov d) = false
  /\ status d' = status d /\ error d' = error d
  /\ statusUpdates d' = statusUpdates d
  /\ heartbeatMonitorTimer d' = heartbeatMonitorTimer d
  /\ connected (remote d') = false
  /\ disconnectedAt (remote d') = disconnectedAt (remote d)
  /\ connectedAt (remote d') = connectedAt (remote d)
  /\ lastHeartbeat (remote d') = lastHeartbeat (remote d)
  /\ device (remote d') = device (remote d)
  /\ reason (remote d') = (if nonEmpty why then why else reason (remote d)).
Proof.
  intros Hc. unfold markRemoteDisconnected. rewrite Hc. cbn.
  destruct (nonEmpty why); cbn; repeat split; assumption.
Qed.

Lemma heartbeatTick_cases T now stamp d :
  heartbeatTick T now stamp d = d
  \/ heartbeatTick T now stamp d
     = broadcastStatusUpdate
         (fst (markRemoteDisconnected stamp
                 (Some "Remote heartbeat timeout"%string) true d)).
Proof.
  unfold heartbeatTick.
  destruct (negb (nonZero (lastHeartbeat (remote d)))); [now left|].
  destruct (connected (remote d)) eqn:Hc; [|now left]. cbn [negb].
  destruct (_ >? T); [|now left].
  destruct (MonitorFacts.markRemoteDisconnected_connected stamp
              (Some "Remote heartbeat timeout"%string) true d Hc) as (Hs & _).
  destruct (markRemoteDisconnected _ _ _ d) as [d' changed].
  cbn [snd] in Hs. subst changed. now right.
Qed.

Lemma handleRemotePayload_cases now payload d :
  handleRemotePayload now payload d = d
  \/ exists dev spd,
       handleRemotePayload now payload d
       = broadcastStatusUpdate (refresh now dev spd d).
Proof.
  unfold handleRemotePayload.
  destruct (negb (JS.truthy (Some payload)) || negb (JS.typeof_object payload));
    [now left|].
  destruct (Bus.prop "hello" payload) as [[]|];
    try (right; eauto; fail);
    destruct (Bus.prop "heartbeat" payload) as [[]|];
    (now left) || (right; eauto).
Qed.

Lemma consistent_step T d e : consistent d -> consistent (step T d e).
Proof.
  intros H. destruct e as [now payload|now s|now err|now stamp]; cbn [step].
  - destruct (handleRemotePayload_cases now payload d) as [-> | (dev & spd & ->)];
      [exact H|].
    unfold consistent. cbn. intros _.
    repeat split.
    destruct (connected (remote d)) eqn:Hc; [|reflexivity].
    now apply H.
  - unfold onStatus. destruct s.
    + unfold consistent, startHeartbeatMonitor.
      destruct (isSome (heartbeatMonitorTimer _) || (T <=? 0)); cbn;
        intros Hc; destruct (H Hc) as (_ & _ & A & B & C & D); auto 10.
    + unfold consistent. cbn [broadcastStatusUpdate remote].
      now rewrite markRemoteDisconnected_disconnects.
    + unfold consistent. cbn [broadcastStatusUpdate remote].
      now rewrite markRemoteDisconnected_disconnects.
  - unfold onError, consistent. cbn [broadcastStatusUpdate remote].
    now rewrite markRemoteDisconnected_disconnects.
  - destruct (heartbeatTick_cases T now stamp d) as [-> | ->]; [exact H|].
    unfold consistent. cbn [broadcastStatusUpdate remote].
    now rewrite markRemoteDisconnected_disconnects.
Qed.

Lemma consistent_run T evs : forall d, consistent d -> consistent (run T d evs).
Proof.
  induction evs as [|e evs IH]; intros d H; [exact H|].
  unfold run. cbn [fold_left]. apply IH. now apply consistent_step.
Qed.

Lemma markRemoteDisconnected_lastHeartbeat now why ov d :
  lastHeartbeat (remote (fst (markRemoteDisconnected now why ov d)))
  = lastHeartbeat (remote d).
Proof.
  unfold markRemoteDisconnected.
  destruct (connected (remote d)); cbn; [reflexivity|].
  destruct (nonEmpty why); reflexivity.
Qed.

Lemma stamped_step T d e :
  clockStarted e -> stamped d -> stamped (step T d e).
Proof.
  intros Hc H. destruct e as [now payload|now s|now err|now stamp]; cbn [step].
  - destruct (handleRemotePayload_cases now payload d) as [-> | (dev & spd & ->)];
      [exact H|].
    unfold stamped. cbn. intros hb [= <-]. exact Hc.
  - unfold onStatus. destruct s.
    + unfold stamped, startHeartbeatMonitor.
      destruct (isSome (heartbeatMonitorTimer _) || (T <=? 0)); cbn; exact H.
    + unfold stamped. cbn [broadcastStatusUpdate remote].
      now rewrite markRemoteDisconnected_lastHeartbeat.
    + unfold stamped. cbn [broadcastStatusUpdate remote].
      now rewrite markRemoteDisconnected_lastHeartbeat.
  - unfold onError, stamped. cbn [broadcastStatusUpdate remote].
    now rewrite markRemoteDisconnected_lastHeartbeat.
  - destruct (heartbeatTick_cases T now stamp d) as [-> | ->]; [exact H|].
    unfold stamped. cbn [broadcastStatusUpdate remote].
    now rewrite markRemoteDisconnected_lastHeartbeat.
Qed.

Lemma stamped_run T evs : forall d,
  Forall clockStarted evs -> stamped d -> stamped (run T d evs).
Proof.
  induction evs as [|e evs IH]; intros d Hall H; [exact H|].
  inversion Hall; subst.
  unfold run. cbn [fold_left]. apply IH; [assumption|].
  now apply stamped_step.
Qed.

(** What an event other than a payload leaves alone on a remote that is
    not connected. *)
Lemma idle_step T d e :
  isPayload e = false -> connected (remote d) = false ->
  connected (remote (step T d e)) = false
  /\ disconnectedAt (remote (step T d e)) = disconnectedAt (remote d)
  /\ connectedAt (remote (step T d e)) = connectedAt (remote d)
  /\ lastHeartbeat (remote (step T d e)) = lastHeartbeat (remote d)
  /\ device (remote (step T d e)) = device (remote d).
Proof.
  intros Hp Hc. destruct e as [now payload|now s|now err|now stamp];
    try discriminate; cbn [step].
  - unfold onStatus. destruct s.
    + unfold startHeartbeatMonitor.
      destruct (isSome (heartbeatMonitorTimer _) || (T <=? 0)); cbn; auto.
    + cbn [broadcastStatusUpdate remote].
      match goal with
      | |- context [markRemoteDisconnected ?n ?w ?o ?x] =>
          destruct (markRemoteDisconnected_idle n w o x Hc)
            as (_ & _ & _ & _ & _ & A & B & C & D & E & _)
      end. auto.
    + cbn [broadcastStatusUpdate remote].
      match goal with
      | |- context [markRemoteDisconnected ?n ?w ?o ?x] =>
          destruct (markRemoteDisconnected_idle n w o x Hc)
            as (_ & _ & _ & _ & _ & A & B & C & D & E & _)
      end. auto.
  - unfold onError. cbn [broadcastStatusUpdate remote].
    match goal with
    | |- context [markRemoteDisconnected ?n ?w ?o ?x] =>
        destruct (markRemoteDisconnected_idle n w o x Hc)
          as (_ & _ & _ & _ & _ & A & B & C & D & E & _)
    end. auto.
  - unfold heartbeatTick. rewrite Hc.
    destruct (negb (nonZero _)); cbn; auto.
Qed.

Lemma stale_tick T now stamp hb d :
  connected (remote d) = true ->
  lastHeartbeat (remote d) = Some hb -> hb <> 0 -> now - hb > T ->
  heartbeatTick T now stamp d
  = broadcastStatusUpdate
      (fst (markRemoteDisconnected stamp
              (Some "Remote heartbeat timeout"%string) true d)).
Proof.
  intros Hc Hl Hz Hage.
  unfold heartbeatTick. rewrite Hl, Hc. cbn [nonZero negb].
  destruct (Z.eqb_spec hb 0) as [|_]; [contradiction|]. cbn [negb].
  destruct (Z.gtb_spec (now - hb) T) as [_|]; [|lia].
  destruct (MonitorFacts.markRemoteDisconnected_connected stamp
              (Some "Remote heartbeat timeout"%string) true d Hc) as (Hs & _).
  destruct (markRemoteDisconnected _ _ _ d) as [d' changed].
  cbn [snd] in Hs. subst changed. reflexivity.
Qed.

Lemma idle_tick T now stamp d :
  connected (remote d) = false -> heartbeatTick T now stamp d = d.
Proof.
  intros Hc. unfold heartbeatTick. rewrite Hc.
  now destruct (negb (nonZero _)).
Qed.

(** The error a link status other than connected leaves. *)
Lemma onStatus_error T now s d :
  s <> RS485.connected ->
  error (onStatus T now s d)
  = if connected (remote d) && negb (nonEmpty (error d))
    then Some ("RS485 link " ++ RS485.statusName s)%string
    else error d.
Proof.
  intros Hs. remember (nonEmpty (error d)) as ne eqn:Hne.
  unfold onStatus.
  destruct s; [contradiction| |];
    cbn [broadcastStatusUpdate status error remote];
    unfold markRemoteDisconnected;
    cbn [remote error status connected];
    destruct (connected (remote d));
    cbn [negb fst status error orb andb];
    try reflexivity;
    rewrite <- ?Hne; destruct ne; reflexivity.
Qed.

End MonitorMore.

(** X17.  Whatever the monitor has been through, a remote it shows as
    connected comes with link status connected, no error, no reason, no
    time of disconnection, and the times of connection and of the last
    heartbeat.  With payload clocks after the epoch, that last-heartbeat
    time is not zero, so a tick later than the timeout always marks a
    connected remote disconnected. *)
Theorem connected_remote_is_consistent (T : Z) (evs : list Monitor.Event) :
  Forall Monitor.clockStarted evs ->
  let d := Monitor.run T Monitor.new evs in
  Monitor.consistent d
  /\ (Monitor.connected (Monitor.remote d) = true ->
      Monitor.nonZero (Monitor.lastHeartbeat (Monitor.remote d)) = true)
  /\ (forall now stamp hb,
        Monitor.connected (Monitor.remote d) = true ->
        Monitor.lastHeartbeat (Monitor.remote d) = Some hb ->
        now - hb > T ->
        Monitor.connected (Monitor.remote (Monitor.heartbeatTick T now stamp d))
        = false).
Proof.
  intros Hall d.
  assert (C : Monitor.consistent d).
  { apply MonitorMore.consistent_run. unfold Monitor.consistent. discriminate. }
  assert (S : Monitor.stamped d).
  { apply MonitorMore.stamped_run; [exact Hall|].
    unfold Monitor.stamped. discriminate. }
  split; [exact C|]. split.
  - intros Hc. destruct (C Hc) as (_ & _ & _ & _ & Hl & _).
    destruct (Monitor.lastHeartbeat (Monitor.remote d)) as [hb|] eqn:E;
      [|discriminate].
    cbn. destruct (Z.eqb_spec hb 0) as [Hz|]; [|reflexivity].
    now apply (S hb) in Hz.
  - intros now stamp hb Hc Hl Hage.
    rewrite (MonitorMore.stale_tick T now stamp hb d Hc Hl (S hb Hl) Hage).
    cbn [Monitor.broadcastStatusUpdate Monitor.remote].
    apply MonitorMore.markRemoteDisconnected_disconnects.
Qed.

Lemma connected_remote_is_consistent_witness :
  let evs := [Monitor.LinkStatus 1700000000000 RS485.connected;
              Monitor.Payload 1700000000500
                (JS.JObj [("heartbeat", JS.JStr "ctrl-1")]%string)] in
  let d := Monitor.run 15000 Monitor.new evs in
  Monitor.connected
    (Monitor.remote (Monitor.heartbeatTick 15000 1700000020000 1700000020000 d))
  = false.
Proof.
  intros evs d.
  destruct (connected_remote_is_consistent 15000 evs) as (_ & _ & H).
  - repeat constructor. cbn. lia.
  - apply (H 1700000020000 1700000020000 1700000000500); [reflexivity|reflexivity|lia].
Defined.

(** X18.  The time of disconnection is that of the first event that
    disconnected the remote: until the next hello or heartbeat, link
    status changes, link errors and ticks leave the remote disconnected
    and keep its time of disconnection, its time of connection, its last
    heartbeat and its identity. *)
Theorem disconnection_time_is_kept
    (T : Z) (d : Monitor.Daemon) (evs : list Monitor.Event) :
  Monitor.connected (Monitor.remote d) = false ->
  Forall (fun e => Monitor.isPayload e = false) evs ->
  let d' := Monitor.run T d evs in
  Monitor.connected (Monitor.remote d') = false
  /\ Monitor.disconnectedAt (Monitor.remote d')
     = Monitor.disconnectedAt (Monitor.remote d)
  /\ Monitor.connectedAt (Monitor.remote d') = Monitor.connectedAt (Monitor.remote d)
  /\ Monitor.lastHeartbeat (Monitor.remote d')
     = Monitor.lastHeartbeat (Monitor.remote d)
  /\ Monitor.device (Monitor.remote d') = Monitor.device (Monitor.remote d).
Proof.
  intros Hc Hall. revert d Hc.
  induction Hall as [|e evs He Hrest IH]; intros d Hc d'; [subst d'; cbn; auto|].
  subst d'. unfold Monitor.run. cbn [fold_left].
  destruct (MonitorMore.idle_step T d e He Hc) as (A & B & C & D & E).
  destruct (IH (Monitor.step T d e) A) as (A' & B' & C' & D' & E').
  unfold Monitor.run in *. repeat split; congruence.
Qed.

Lemma disconnection_time_is_kept_witness :
  let d := Monitor.heartbeatTick 15000 1700000020000 1700000020001
             (Monitor.handleRemotePayload 1700000000000
                (JS.JObj [("hello", JS.JStr "ctrl-1")]%string) Monitor.new) in
  let evs := [Monitor.LinkError 1700000030000 (JS.mkError "EIO");
              Monitor.LinkStatus 1700000030001 RS485.fail;
              Monitor.Tick 1700000040000 1700000040000] in
  Monitor.disconnectedAt (Monitor.remote (Monitor.run 15000 d evs))
  = Some 1700000020001.
Proof.
  intros d evs.
  destruct (disconnection_time_is_kept 15000 d evs) as (_ & H & _).
  - reflexivity.
  - repeat constructor.
  - exact H.
Defined.

(** X19.  A link error always wins: after it the status is fail, the
    error is its message and the remote is disconnected.  A link status
    other than connected disconnects the remote but keeps an error that
    is already recorded; it records "RS485 link <status>" when there is
    none and the remote was connected, and only then: without an error
    and with a remote that was disconnected already, the error stays
    unset.  Status connected clears the error. *)
Theorem link_error_takes_precedence (T now : Z) (d : Monitor.Daemon) :
  (forall err,
     let d' := Monitor.onError now err d in
     Monitor.status d' = RS485.fail
     /\ Monitor.error d' = Some (JS.message err)
     /\ Monitor.connected (Monitor.remote d') = false)
  /\ (forall s,
        s <> RS485.connected ->
        let d' := Monitor.onStatus T now s d in
        Monitor.status d' = s
        /\ Monitor.connected (Monitor.remote d') = false
        /\ (Monitor.nonEmpty (Monitor.error d) = true ->
            Monitor.error d' = Monitor.error d)
        /\ (Monitor.nonEmpty (Monitor.error d) = false ->
            Monitor.connected (Monitor.remote d) = true ->
            Monitor.error d'
            = Some ("RS485 link " ++ RS485.statusName s)%string)
        /\ (Monitor.connected (Monitor.remote d) = false ->
            Monitor.error d' = Monitor.error d))
  /\ (Monitor.error (Monitor.onStatus T now RS485.connected d) = None
      /\ Monitor.status (Monitor.onStatus T now RS485.connected d)
         = RS485.connected
      /\ Monitor.remote (Monitor.onStatus T now RS485.connected d)
         = Monitor.remote d).
Proof.
  split; [|split].
  - intros err d'. subst d'. unfold Monitor.onError.
    cbn [Monitor.broadcastStatusUpdate Monitor.status Monitor.error Monitor.remote].
    split; [|split; [|apply MonitorMore.markRemoteDisconnected_disconnects]].
    + unfold Monitor.markRemoteDisconnected. cbn.
      destruct (Monitor.connected (Monitor.remote d)); reflexivity.
    + unfold Monitor.markRemoteDisconnected. cbn.
      destruct (Monitor.connected (Monitor.remote d)); cbn; [|reflexivity].
      match goal with |- context [if ?c then _ else _] => destruct c end;
        reflexivity.
  - intros s Hs d'. subst d'.
    rewrite (MonitorMore.onStatus_error T now s d Hs).
    split; [|split; [|split; [|split]]].
    + unfold Monitor.onStatus.
      destruct s; [contradiction| |];
        cbn [Monitor.broadcastStatusUpdate Monitor.status];
        unfold Monitor.markRemoteDisconnected;
        cbn [Monitor.remote Monitor.status Monitor.connected];
        destruct (Monitor.connected (Monitor.remote d)); reflexivity.
    + unfold Monitor.onStatus.
      destruct s; [contradiction| |];
        cbn [Monitor.broadcastStatusUpdate Monitor.remote];
        apply MonitorMore.markRemoteDisconnected_disconnects.
    + intros ->. now rewrite andb_false_r.
    + now intros -> ->.
    + now intros ->.
  - unfold Monitor.onStatus, Monitor.startHeartbeatMonitor.
    destruct (Monitor.isSome _ || (T <=? 0)); cbn; auto.
Qed.

Lemma link_error_takes_precedence_witness :
  let d := Monitor.onError 1700000000000 (JS.mkError "EIO") Monitor.new in
  Monitor.error (Monitor.onStatus 15000 1700000000001 RS485.disconnected d)
  = Some "EIO"%string
  /\ Monitor.error
       (Monitor.onStatus 15000 1700000000001 RS485.disconnected Monitor.new)
     = None.
Proof.
  intros d.
  destruct (link_error_takes_precedence 15000 1700000000001 d) as (_ & H & _).
  destruct (H RS485.disconnected) as (_ & _ & Hk & _); [discriminate|].
  destruct (link_error_takes_precedence 15000 1700000000001 Monitor.new)
    as (_ & H' & _).
  destruct (H' RS485.disconnected) as (_ & _ & _ & _ & Hk'); [discriminate|].
  split; [apply Hk; reflexivity|apply Hk'; reflexivity].
Defined.

(** X20.  A remote that timed out comes back with the next heartbeat: the
    tick records the error "Remote heartbeat timeout"; the heartbeat
    then makes the remote connected again with a new time of connection,
    clears the time of disconnection, the reason and the error, sets the
    link status to connected and keeps the identity learnt before. *)
Theorem heartbeat_recovers_after_timeout
    (T now stamp hb t2 : Z) (name : string) (fields : JS.object)
    (d : Monitor.Daemon) :
  Monitor.connected (Monitor.remote d) = true ->
  Monitor.lastHeartbeat (Monitor.remote d) = Some hb ->
  hb <> 0 -> now - hb > T ->
  JS.get "hello" fields = None ->
  JS.get "heartbeat" fields = Some (JS.JStr name) ->
  let d1 := Monitor.heartbeatTick T now stamp d in
  let d2 := Monitor.handleRemotePayload t2 (JS.JObj fields) d1 in
  (Monitor.connected (Monitor.remote d1) = false
   /\ Monitor.error d1 = Some "Remote heartbeat timeout"%string)
  /\ Monitor.connected (Monitor.remote d2) = true
  /\ Monitor.connectedAt (Monitor.remote d2) = Some t2
  /\ Monitor.lastHeartbeat (Monitor.remote d2) = Some t2
  /\ Monitor.disconnectedAt (Monitor.remote d2) = None
  /\ Monitor.reason (Monitor.remote d2) = None
  /\ Monitor.error d2 = None
  /\ Monitor.status d2 = RS485.connected
  /\ Monitor.device (Monitor.remote d2)
     = (if Monitor.nonEmpty (Monitor.device (Monitor.remote d))
        then Monitor.device (Monitor.remote d) else Some name)
  /\ Monitor.statusUpdates d2 = S (S (Monitor.statusUpdates d)).
Proof.
  intros Hc Hl Hz Hage Hhello Hbeat d1 d2.
  assert (E1 : d1 = Monitor.broadcastStatusUpdate
                      (fst (Monitor.markRemoteDisconnected stamp
                              (Some "Remote heartbeat timeout"%string) true d)))
    by (apply (MonitorMore.stale_tick T now stamp hb d); assumption).
  assert (F1 : Monitor.connected (Monitor.remote d1) = false
               /\ Monitor.error d1 = Some "Remote heartbeat timeout"%string
               /\ Monitor.device (Monitor.remote d1) = Monitor.device (Monitor.remote d)
               /\ Monitor.statusUpdates d1 = S (Monitor.statusUpdates d)).
  { rewrite E1. unfold Monitor.markRemoteDisconnected. rewrite Hc. cbn. auto. }
  destruct F1 as (C1 & R1 & D1 & U1).
  split; [auto|].
  subst d2. unfold Monitor.handleRemotePayload. cbn [JS.truthy JS.typeof_object negb orb Bus.prop].
  rewrite Hhello, Hbeat. clearbody d1.
  cbn. rewrite C1, D1, U1. auto 12.
Qed.

Lemma heartbeat_recovers_after_timeout_witness :
  let d := Monitor.handleRemotePayload 1700000000000
             (JS.JObj [("hello", JS.JStr "ctrl-1")]%string) Monitor.new in
  let d1 := Monitor.heartbeatTick 15000 1700000020000 1700000020000 d in
  let d2 := Monitor.handleRemotePayload 1700000030000
              (JS.JObj [("heartbeat", JS.JStr "other")]%string) d1 in
  Monitor.connectedAt (Monitor.remote d2) = Some 1700000030000
  /\ Monitor.device (Monitor.remote d2) = Some "ctrl-1"%string.
Proof.
  intros d d1 d2.
  destruct (heartbeat_recovers_after_timeout 15000 1700000020000 1700000020000
              1700000000000 1700000030000 "other"
              [("heartbeat", JS.JStr "other")]%string d)
    as (_ & _ & A & _ & _ & _ & _ & _ & D & _); try reflexivity; try lia.
  split; [exact A|exact D].
Defined.

(** X21.  A stale remote is reported once: the tick that finds it stale
    marks it disconnected and broadcasts one status update; the ticks
    that follow change nothing and broadcast nothing. *)
Theorem stale_remote_is_reported_once
    (T now stamp hb : Z) (later : list (Z * Z)) (d : Monitor.Daemon) :
  Monitor.connected (Monitor.remote d) = true ->
  Monitor.lastHeartbeat (Monitor.remote d) = Some hb ->
  hb <> 0 -> now - hb > T ->
  let d1 := Monitor.heartbeatTick T now stamp d in
  Monitor.run T d1 (map (fun p => Monitor.Tick (fst p) (snd p)) later) = d1
  /\ Monitor.statusUpdates d1 = S (Monitor.statusUpdates d).
Proof.
  intros Hc Hl Hz Hage d1.
  assert (E1 : d1 = Monitor.broadcastStatusUpdate
                      (fst (Monitor.markRemoteDisconnected stamp
                              (Some "Remote heartbeat timeout"%string) true d)))
    by (apply (MonitorMore.stale_tick T now stamp hb d); assumption).
  assert (C1 : Monitor.connected (Monitor.remote d1) = false).
  { rewrite E1. cbn [Monitor.broadcastStatusUpdate Monitor.remote].
    apply MonitorMore.markRemoteDisconnected_disconnects. }
  split.
  - clearbody d1. induction later as [|[n s] later IH]; [reflexivity|].
    unfold Monitor.run. cbn [map fold_left Monitor.step fst snd].
    rewrite (MonitorMore.idle_tick T n s d1 C1). exact IH.
  - rewrite E1. unfold Monitor.markRemoteDisconnected. rewrite Hc. reflexivity.
Qed.

Lemma stale_remote_is_reported_once_witness :
  let d := Monitor.handleRemotePayload 1700000000000
             (JS.JObj [("hello", JS.JStr "ctrl-1")]%string) Monitor.new in
  let d1 := Monitor.heartbeatTick 15000 1700000020000 1700000020000 d in
  Monitor.statusUpdates
    (Monitor.run 15000 d1 [Monitor.Tick 1700000027500 1700000027500;
                            Monitor.Tick 1700000035000 1700000035000])
  = 2%nat.
Proof.
  intros d d1.
  destruct (stale_remote_is_reported_once 15000 1700000020000 1700000020000
              1700000000000
              [(1700000027500, 1700000027500); (1700000035000, 1700000035000)] d
              eq_refl eq_refl ltac:(lia) ltac:(lia))
    as (R & U).
  cbn [map fst snd] in R. fold d1 in R, U. rewrite R. exact U.
Defined.

(** X22.  The monitor never ticks more often than once a second, and
    for a timeout of two seconds or more it ticks at least twice per
    timeout, so a stale remote is found no later than one and a half
    timeouts after its last heartbeat.  Starting the monitor a second
    time changes nothing, and with a timeout of zero or less it never
    starts. *)
Theorem tick_interval_bounds (T : Z) :
  1000 <= Monitor.tickInterval T
  /\ (2000 <= T -> 2 * Monitor.tickInterval T <= T)
  /\ (T < 2000 -> Monitor.tickInterval T = 1000)
  /\ (forall d,
        Monitor.startHeartbeatMonitor T (Monitor.startHeartbeatMonitor T d)
        = Monitor.startHeartbeatMonitor T d)
  /\ (forall d, T <= 0 -> Monitor.startHeartbeatMonitor T d = d).
Proof.
  unfold Monitor.tickInterval.
  split; [lia|]. split; [|split; [|split]].
  - intros H. assert (T / 2 >= 1000) by (apply Z.le_ge, Z.div_le_lower_bound; lia).
    rewrite Z.max_r by lia.
    pose proof (Z.mul_div_le T 2). lia.
  - intros H. assert (T / 2 < 1000) by (apply Z.div_lt_upper_bound; lia).
    lia.
  - intros d. unfold Monitor.startHeartbeatMonitor.
    destruct (Monitor.isSome (Monitor.heartbeatMonitorTimer d)) eqn:E;
      cbn [orb]; [now rewrite E|].
    destruct (T <=? 0) eqn:E'; [now rewrite E|reflexivity].
  - intros d H. unfold Monitor.startHeartbeatMonitor.
    destruct (Z.leb_spec T 0); [|lia]. now rewrite orb_true_r.
Qed.

Lemma tick_interval_bounds_witness :
  2 * Monitor.tickInterval 15000 <= 15000
  /\ Monitor.tickInterval 1500 = 1000.
Proof.
  destruct (tick_interval_bounds 15000) as (_ & H & _).
  destruct (tick_interval_bounds 1500) as (_ & _ & H' & _).
  split; [apply H; lia|apply H'; lia].
Defined.

(* ------------------------------------------------------------------ *)
(** ** The earlier reply matching *)

(** X23.  The reply matching of the earlier bus manager (strict
    comparison of [String(replyTo)] with the id) is kept by the current
    one: a reply the earlier version resolved the request with resolves
    it now as well, except when its [replyTo] is blank after trimming,
    which the current version ignores (for a [replyTo] whose numbers
    print in decimal).  A [replyTo] that cannot be converted to a string
    makes both versions throw and leave the manager as it was. *)
Theorem earlier_replies_still_accepted
    (m v : JS.value) (cur : Bus.PendingRequest) (st : Bus.State) :
  Bus.current st = Some cur ->
  JS.truthy (Some m) = true ->
  JS.typeof_object m = true ->
  Bus.prop "replyTo" m = Some v ->
  v <> JS.JNull ->
  (forall replyTo,
     JS.toString v = Some replyTo ->
     JS.decimals v = true ->
     BusV1.sameString replyTo (Bus.id cur) = true ->
     BusV1.handleMessage m st
     = (Eff.Returned tt, Bus.resolveCurrent None (Some m) st)
     /\ Bus.handleMessage m st
        = (Eff.Returned tt,
           if String.eqb (JS.trim replyTo) EmptyString then st
           else Bus.resolveCurrent None (Some m) st))
  /\ (JS.toString v = None ->
      BusV1.handleMessage m st = (Eff.Thrown JS.conversionError, st)
      /\ Bus.handleMessage m st = (Eff.Thrown JS.conversionError, st)).
Proof.
  intros Hcur Ht Ho Hp Hv.
  assert (Hchain : Bus.prop "replyTo" m ?? Bus.prop "id" m
                     ?? Bus.prop "reply_to" m ?? Bus.prop "responseTo" m
                   = Some v).
  { rewrite Hp. unfold JS.coalesce.
    destruct v; try contradiction; reflexivity. }
  assert (Hv1 : forall k : Eff.M Bus.State unit,
             match Some v with
             | None | Some JS.JNull => k
             | Some v0 =>
                 match JS.toString v0 with
                 | None => Eff.throw JS.conversionError
                 | Some replyTo =>
                     if negb (BusV1.sameString replyTo (Bus.id cur))
                     then BusV1.warnMismatch cur
                     else Eff.modify (Bus.resolveCurrent None (Some m))
                 end
             end
             = match JS.toString v with
               | None => Eff.throw JS.conversionError
               | Some replyTo =>
                   if negb (BusV1.sameString replyTo (Bus.id cur))
                   then BusV1.warnMismatch cur
                   else Eff.modify (Bus.resolveCurrent None (Some m))
               end).
  { intros k. destruct v; try contradiction; reflexivity. }
  assert (Hn : Bus.normalizeId (Some v)
               = match JS.toString v with
                 | None => Eff.Thrown JS.conversionError
                 | Some s =>
                     if String.eqb (JS.trim s) EmptyString
                     then Eff.Returned None
                     else Eff.Returned (Some (JS.stripLeadingZeros (JS.trim s)))
                 end).
  { unfold Bus.normalizeId. destruct v; try contradiction; reflexivity. }
  unfold BusV1.handleMessage, Bus.handleMessage, Eff.bind, Eff.gets, Eff.lift.
  rewrite Hcur, Ht, Ho, Hchain, Hp, Hn. cbn [negb orb]. rewrite Hv1.
  split.
  - intros replyTo Hs _ Hsame. rewrite Hs, Hsame. cbn [negb].
    split; [reflexivity|].
    destruct (Bus.id cur) as [| | |s| |] eqn:Hid; try discriminate.
    cbn [BusV1.sameString] in Hsame. apply String.eqb_eq in Hsame. subst s.
    destruct (String.eqb (JS.trim replyTo) EmptyString) eqn:Hb; [reflexivity|].
    unfold Bus.normalizeId. cbn [JS.toString]. rewrite Hb.
    cbn [Bus.option_string_eqb]. rewrite String.eqb_refl. reflexivity.
  - intros Hs. rewrite Hs. split; reflexivity.
Qed.

Lemma earlier_replies_still_accepted_witness :
  let m := JS.JObj [("replyTo", JS.JStr "007"); ("ok", JS.JBool true)]%string in
  let st := Bus.run Bus.new
              [Bus.Init; Bus.Request [("id", JS.JStr "007")]%string (Some 500);
               Bus.SendDone 0 None] in
  Bus.settled (snd (Bus.handleMessage m st)) = [(0%nat, Bus.Resolved (Some m))].
Proof.
  intros m st.
  eassert (Hc : Bus.current st = Some _) by reflexivity.
  destruct (earlier_replies_still_accepted m (JS.JStr "007") _ st Hc
              eq_refl eq_refl eq_refl ltac:(discriminate))
    as (H & _).
  destruct (H "007"%string eq_refl eq_refl eq_refl) as (_ & H').
  rewrite H'. reflexivity.
Defined.

(* ------------------------------------------------------------------ *)
(** ** An id that cannot be printed *)

Module BusStuck.

Import Bus.

Lemma normalizeId_unprintable v :
  JS.toString v = None -> normalizeId (Some v) = Eff.Thrown JS.conversionError.
Proof.
  intros H. unfold normalizeId. destruct v; try discriminate H; now rewrite H.
Qed.

Lemma isReplyTo_unprintable cur m :
  JS.toString (id cur) = None -> isReplyTo cur m = false.
Proof.
  intros H. unfold isReplyTo. rewrite (normalizeId_unprintable _ H).
  now destruct (correlationId m) as [[r|]|e].
Qed.

Lemma handleTimeout_unprintable st cur :
  current st = Some cur -> JS.toString (id cur) = None ->
  handleTimeout st = (Eff.Thrown JS.conversionError, st).
Proof.
  intros Hcur H.
  unfold handleTimeout, timeoutError, Eff.bind, Eff.gets, Eff.lift.
  now rewrite Hcur, H.
Qed.

(** Nothing but the failure of its transmission ends such a request. *)
Lemma stuck_step st cur e :
  current st = Some cur -> sending st = [] ->
  JS.toString (id cur) = None ->
  current (step st e) = Some cur /\ sending (step st e) = []
  /\ settled (step st e) = settled st /\ sent (step st e) = sent st.
Proof.
  intros Hcur Hs Hid.
  destruct e as [|body timeout|m|p err|t]; cbn [step].
  - cbn. auto.
  - unfold request.
    pose proof (BusReplies.packetIdOf_frame body st) as F.
    destruct (packetIdOf body st) as [pid st1]. cbn [snd] in F.
    destruct F as (_ & _ & Fc & _ & Fs & Fsent & Fsend & _).
    cbn [fst].
    rewrite (BusReplies.processQueue_busy _ cur) by (cbn; congruence).
    cbn. repeat split; congruence.
  - destruct (initialized st); [|auto].
    rewrite (BusReplies.handleMessage_spec m st cur Hcur).
    rewrite (isReplyTo_unprintable cur m Hid). auto.
  - rewrite Hs. cbn. auto.
  - destruct (existsb _ _); [|auto].
    rewrite (handleTimeout_unprintable (fireTimer t st) cur)
      by (cbn; assumption).
    cbn. auto.
Qed.

Lemma stuck_run evs : forall st cur,
  current st = Some cur -> sending st = [] ->
  JS.toString (id cur) = None ->
  current (run st evs) = Some cur
  /\ settled (run st evs) = settled st /\ sent (run st evs) = sent st.
Proof.
  induction evs as [|e evs IH]; intros st cur Hcur Hs Hid; [cbn; auto|].
  destruct (stuck_step st cur e Hcur Hs Hid) as (C & S1 & S2 & S3).
  destruct (IH (step st e) cur C S1 Hid) as (C' & S2' & S3').
  unfold run in *. cbn [fold_left]. repeat split; congruence.
Qed.

End BusStuck.

(** X24.  An id that cannot be converted to a string (an object with an
    own property [toString], which the daemon hands on as it comes from
    a client) blocks the manager.  Once the request with that id is
    current and transmitted, the callback of its timeout throws a
    [TypeError] before it settles anything, and no message is a reply to
    it; so whatever happens afterwards, as long as the process goes on,
    the request stays current, its promise is never settled, nothing
    more is handed to the transport and further requests only queue
    up. *)
Theorem unprintable_id_blocks_the_queue
    (st : Bus.State) (cur : Bus.PendingRequest) (evs : list Bus.Event) :
  Bus.current st = Some cur ->
  Bus.sending st = [] ->
  JS.toString (Bus.id cur) = None ->
  let st' := Bus.run st evs in
  Bus.handleTimeout st = (Eff.Thrown JS.conversionError, st)
  /\ (forall m, snd (Bus.handleMessage m st) = st)
  /\ Bus.current st' = Some cur
  /\ Bus.settled st' = Bus.settled st
  /\ Bus.sent st' = Bus.sent st
  /\ List.length (Bus.queue st')
     = (List.length (Bus.queue st) + Bus.requestCount evs)%nat.
Proof.
  intros Hcur Hs Hid st'.
  destruct (BusStuck.stuck_run evs st cur Hcur Hs Hid) as (C & S1 & S2).
  fold st' in C, S1, S2.
  split; [now apply (BusStuck.handleTimeout_unprintable st cur)|].
  split.
  { intros m. rewrite (BusReplies.handleMessage_spec m st cur Hcur).
    now rewrite (BusStuck.isReplyTo_unprintable cur m Hid). }
  repeat split; try assumption.
  pose proof (BusCount.accepted_length evs st) as L. fold st' in L.
  unfold Bus.accepted in L. rewrite !length_app, S2 in L. lia.
Qed.

Lemma unprintable_id_blocks_the_queue_witness :
  let bad := JS.JObj [("toString", JS.JNum 1)]%string in
  let command := JS.JObj [("cmd", JS.JStr "who"); ("id", bad)]%string in
  let st := Bus.step
              (Daemon.onSocketMessage "u1" command (Bus.init Bus.new))
              (Bus.SendDone 0 None) in
  let evs := [Bus.Timeout 0;
              Bus.Request [("cmd", JS.JStr "ping")]%string None;
              Bus.Message (JS.JObj [("replyTo", bad)]%string);
              Bus.Message (JS.JObj [("replyTo", JS.JStr "[object Object]")]%string)] in
  Bus.settled (Bus.run st evs) = []
  /\ List.length (Bus.queue (Bus.run st evs)) = 1%nat
  /\ List.length (Bus.sent (Bus.run st evs)) = 1%nat.
Proof.
  intros bad command st evs.
  eassert (Hc : Bus.current st = Some _) by reflexivity.
  destruct (unprintable_id_blocks_the_queue st _ evs Hc eq_refl eq_refl)
    as (_ & _ & _ & S1 & S2 & Q).
  split; [exact S1|]. split; [exact Q|]. rewrite S2. reflexivity.
Defined.
